(** * The itinerary worker: job lifecycle, retries and validation

    A shallow embedding of [src/index.js] (the Cloudflare worker that accepts
    an itinerary request, creates a Firestore job document, generates the
    itinerary in the background with a model call and writes the terminal
    state), with the properties its specification states about it.

    Conventions of the embedding.
    - A JavaScript string is a [string]; each character stands for one
      UTF-16 code unit, so [String.length] is JavaScript's [.length].
    - A JavaScript number is the rational it denotes, or NaN ([JSNum]);
      rounding of doubles and the two infinities are not represented.
    - A thrown [Error] is its message ([Throw msg]).
    - Everything outside the worker (the token endpoint, the model endpoint,
      the Firestore collection, the clock, the random source) lives in an
      explicit [World] that every asynchronous function threads through. *)

From Stdlib Require Import ZArith QArith Qround String Ascii List Bool Lia.
From Stdlib Require Import DecimalString DecimalZ.
From stdpp Require Import gmap strings.
From Equations Require Import Equations.

#[local] Set Warnings "-register-all".

Local Open Scope Z_scope.
Local Open Scope string_scope.
Local Open Scope list_scope.

(** ** JavaScript strings *)

Module JsString.

(** The ASCII part of the [\s] class and of [String.prototype.trim]. *)
Definition isWhitespace (c : ascii) : bool :=
  match nat_of_ascii c with
  | 9%nat | 10%nat | 11%nat | 12%nat | 13%nat | 32%nat => true
  | _ => false
  end.

Fixpoint trimStart (s : string) : string :=
  match s with
  | String c rest => if isWhitespace c then trimStart rest else s
  | EmptyString => EmptyString
  end.

(** [trimEnd] keeps a character when it is not white space or when
    something is kept after it. *)
Fixpoint trimEnd (s : string) : string :=
  match s with
  | EmptyString => EmptyString
  | String c rest =>
      match trimEnd rest with
      | EmptyString => if isWhitespace c then EmptyString else String c EmptyString
      | kept => String c kept
      end
  end.

Definition trim (s : string) : string := trimEnd (trimStart s).

Fixpoint startsWith (s p : string) : bool :=
  match p, s with
  | EmptyString, _ => true
  | String a p', String b s' => if Ascii.eqb a b then startsWith s' p' else false
  | String _ _, EmptyString => false
  end.

(** [s.includes(sub)]. *)
Fixpoint includes (s sub : string) : bool :=
  startsWith s sub ||
  match s with
  | EmptyString => false
  | String _ rest => includes rest sub
  end.

(** [s.indexOf(sub)], [None] standing for -1. *)
Fixpoint indexOf (s sub : string) : option nat :=
  if startsWith s sub then Some 0%nat
  else match s with
       | EmptyString => None
       | String _ rest => option_map S (indexOf rest sub)
       end.

(** [s.lastIndexOf(sub)], [None] standing for -1. *)
Fixpoint lastIndexOf (s sub : string) : option nat :=
  match s with
  | EmptyString => if startsWith s sub then Some 0%nat else None
  | String _ rest =>
      match lastIndexOf rest sub with
      | Some i => Some (S i)
      | None => if startsWith s sub then Some 0%nat else None
      end
  end.

(** [s.substring(from, to)] for [from <= to]. *)
Definition substring (from to : nat) (s : string) : string :=
  String.substring from (to - from) s.

Definition toLowerAscii (c : ascii) : ascii :=
  let n := nat_of_ascii c in
  if (65 <=? n)%nat && (n <=? 90)%nat then ascii_of_nat (n + 32) else c.

Fixpoint toLowerCase (s : string) : string :=
  match s with
  | EmptyString => EmptyString
  | String c rest => String (toLowerAscii c) (toLowerCase rest)
  end.

Fixpoint drop (n : nat) (s : string) : string :=
  match n, s with
  | O, _ => s
  | S n', String _ rest => drop n' rest
  | S _, EmptyString => EmptyString
  end.

Definition endsWith (s p : string) : bool :=
  (String.length p <=? String.length s)%nat &&
  String.eqb (drop (String.length s - String.length p) s) p.

(** [parts.join(sep)]. *)
Fixpoint join (sep : string) (parts : list string) : string :=
  match parts with
  | [] => EmptyString
  | [p] => p
  | p :: rest => p +:+ sep +:+ join sep rest
  end.

End JsString.

(** ** JavaScript numbers *)

Inductive JSNum : Type :=
| NaN
| Num (q : Q).

Module JsNumber.

Definition ofZ (z : Z) : JSNum := Num (inject_Z z).

(** [Number.isInteger]. *)
Definition isInteger (n : JSNum) : bool :=
  match n with
  | NaN => false
  | Num q => Pos.eqb (Qden (Qred q)) 1
  end.

(** Comparisons; every comparison with NaN is false. *)
Definition lt (a b : JSNum) : bool :=
  match a, b with
  | Num x, Num y => negb (Qle_bool y x)
  | _, _ => false
  end.

Definition gt (a b : JSNum) : bool := lt b a.

(** Strict equality [===] on numbers. *)
Definition eqb (a b : JSNum) : bool :=
  match a, b with
  | Num x, Num y => Qeq_bool x y
  | _, _ => false
  end.

(** Truthiness of a number: [0] and [NaN] are falsy. *)
Definition truthy (n : JSNum) : bool :=
  match n with
  | NaN => false
  | Num q => negb (Qeq_bool q 0)
  end.

(** The integer a number denotes when [isInteger] holds. *)
Definition toZ (n : JSNum) : Z :=
  match n with
  | NaN => 0
  | Num q => Qfloor q
  end.

(** [n.toString()] for an integer [n] (below the exponent-notation
    range). *)
Definition toString (z : Z) : string := NilZero.string_of_int (Z.to_int z).

Definition isDigit (c : ascii) : bool :=
  let n := nat_of_ascii c in (48 <=? n)%nat && (n <=? 57)%nat.

Definition digitValue (c : ascii) : Z := Z.of_nat (nat_of_ascii c) - 48.

(** The value of the longest prefix of decimal digits, and whether at
    least one digit was read. *)
Fixpoint readDigits (s : string) (acc : Z) (seen : bool) : Z * bool :=
  match s with
  | String c rest =>
      if isDigit c then readDigits rest (10 * acc + digitValue c) true
      else (acc, seen)
  | EmptyString => (acc, seen)
  end.

(** [parseInt(s)] in radix 10: leading white space, an optional sign, the
    longest run of digits; NaN when there is no digit. *)
Definition parseInt (s : string) : JSNum :=
  let s := JsString.trimStart s in
  let '(neg, body) :=
    match s with
    | String "-" rest => (true, rest)
    | String "+" rest => (false, rest)
    | _ => (false, s)
    end in
  match readDigits body 0 false with
  | (v, true) => ofZ (if neg then - v else v)
  | (_, false) => NaN
  end.

End JsNumber.

(** ** Retry configuration ([RETRY_CONFIG]) *)

Module RETRY_CONFIG.
Definition maxRetries : Z := 3.
Definition baseDelay : Z := 1000.
Definition maxDelay : Z := 30000.
Definition backoffFactor : Z := 2.
End RETRY_CONFIG.

(** [calculateDelay(attempt)], for the attempt numbers the worker uses
    ([attempt >= 1], where [Math.pow] stays an integer). *)
Definition calculateDelay (attempt : Z) : Z :=
  let delay := RETRY_CONFIG.baseDelay * RETRY_CONFIG.backoffFactor ^ (attempt - 1) in
  Z.min delay RETRY_CONFIG.maxDelay.

(** ** JavaScript values *)

(** A [Date] is represented by its ISO-8601 rendering, which determines it. *)
Record Date : Type := mkDate { toISOString : string }.

Inductive JSValue : Type :=
| JUndefined
| JNull
| JBool (b : bool)
| JNumber (n : JSNum)
| JString (s : string)
| JDate (d : Date)
| JArray (items : list JSValue)
| JObject (props : list (string * JSValue)).

(** The completion of an evaluation: a value, or a thrown [Error] with its
    message. *)
Inductive Completion (A : Type) : Type :=
| Ok (a : A)
| Throw (message : string).
Arguments Ok {A} a.
Arguments Throw {A} message.

Module Js.

(** [props[key]] on the own properties of an object. *)
Fixpoint lookup (key : string) (props : list (string * JSValue)) : JSValue :=
  match props with
  | [] => JUndefined
  | (k, v) :: rest => if String.eqb k key then v else lookup key rest
  end.

(** Truthiness, as tested by [if (v)] and [!v]. *)
Definition truthy (v : JSValue) : bool :=
  match v with
  | JUndefined | JNull => false
  | JBool b => b
  | JNumber n => JsNumber.truthy n
  | JString s => negb (String.eqb s EmptyString)
  | JDate _ | JArray _ | JObject _ => true
  end.

Definition ofZ (z : Z) : JSValue := JNumber (JsNumber.ofZ z).

End Js.

(** ** The itinerary schema (Zod) *)

Record Activity : Type := mkActivity {
  time : string;
  description : string;
  location : string
}.

Record Day : Type := mkDay {
  day : Z;
  theme : string;
  activities : list Activity
}.

(** The part of Zod 3 the three schemas use: [z.string().min], 
    [z.number().int().positive], [z.array(..).min], [z.object] (which keeps
    the keys of its shape only), the issues they raise and the default
    messages of type mismatches. *)
Module Zod.

Record ZodIssue : Type := mkIssue { path : list string; message : string }.

Inductive ZodResult (A : Type) : Type :=
| Valid (a : A)
| Invalid (errors : list ZodIssue).
Arguments Valid {A} a.
Arguments Invalid {A} errors.

Definition issuesOf {A} (r : ZodResult A) : list ZodIssue :=
  match r with
  | Valid _ => []
  | Invalid errors => errors
  end.

(** Zod's name of the type of a received value. *)
Definition parsedType (v : JSValue) : string :=
  match v with
  | JUndefined => "undefined"
  | JNull => "null"
  | JBool _ => "boolean"
  | JNumber NaN => "nan"
  | JNumber (Num _) => "number"
  | JString _ => "string"
  | JDate _ => "date"
  | JArray _ => "array"
  | JObject _ => "object"
  end.

Definition invalid_type (expected : string) (path : list string) (v : JSValue) : ZodIssue :=
  mkIssue path
    match v with
    | JUndefined => "Required"
    | _ => "Expected " +:+ expected +:+ ", received " +:+ parsedType v
    end.

(** [z.string().min(n, msg)]. *)
Definition string_min (n : nat) (msg : string) (path : list string) (v : JSValue)
  : ZodResult string :=
  match v with
  | JString s => if (String.length s <? n)%nat then Invalid [mkIssue path msg] else Valid s
  | _ => Invalid [invalid_type "string" path v]
  end.

(** [z.number().int().positive(msg)]: both checks are run and each
    reports its own issue. *)
Definition number_int_positive (msg : string) (path : list string) (v : JSValue)
  : ZodResult Z :=
  match v with
  | JNumber (Num q) =>
      let n := Num q in
      let notInt := if JsNumber.isInteger n then []
                    else [mkIssue path "Expected integer, received float"] in
      let notPos := if JsNumber.gt n (JsNumber.ofZ 0) then [] else [mkIssue path msg] in
      match notInt ++ notPos with
      | [] => Valid (JsNumber.toZ n)
      | errors => Invalid errors
      end
  | _ => Invalid [invalid_type "number" path v]
  end.

(** The elements of an array, each parsed under its index. *)
Fixpoint items {A} (element : list string -> JSValue -> ZodResult A)
    (path : list string) (i : nat) (vs : list JSValue) : ZodResult (list A) :=
  match vs with
  | [] => Valid []
  | v :: rest =>
      let here := element (path ++ [JsNumber.toString (Z.of_nat i)]) v in
      let there := items element path (S i) rest in
      match here, there with
      | Valid a, Valid l => Valid (a :: l)
      | _, _ => Invalid (issuesOf here ++ issuesOf there)
      end
  end.

(** [z.array(element).min(n, msg)]: the length issue comes first. *)
Definition array_min {A} (element : list string -> JSValue -> ZodResult A)
    (n : nat) (msg : string) (path : list string) (v : JSValue) : ZodResult (list A) :=
  match v with
  | JArray vs =>
      let short := if (List.length vs <? n)%nat then [mkIssue path msg] else [] in
      let elements := items element path 0 vs in
      match short, elements with
      | [], Valid l => Valid l
      | _, _ => Invalid (short ++ issuesOf elements)
      end
  | _ => Invalid [invalid_type "array" path v]
  end.

End Zod.
Import Zod.

Definition ActivitySchema (path : list string) (v : JSValue) : ZodResult Activity :=
  match v with
  | JObject props =>
      let t := string_min 1 "Time is required" (path ++ ["time"]) (Js.lookup "time" props) in
      let d := string_min 10 "Description must be at least 10 characters"
                 (path ++ ["description"]) (Js.lookup "description" props) in
      let l := string_min 1 "Location is required" (path ++ ["location"])
                 (Js.lookup "location" props) in
      match t, d, l with
      | Valid t', Valid d', Valid l' => Valid (mkActivity t' d' l')
      | _, _, _ => Invalid (issuesOf t ++ issuesOf d ++ issuesOf l)
      end
  | _ => Invalid [invalid_type "object" path v]
  end.

Definition DaySchema (path : list string) (v : JSValue) : ZodResult Day :=
  match v with
  | JObject props =>
      let d := number_int_positive "Day must be a positive integer"
                 (path ++ ["day"]) (Js.lookup "day" props) in
      let t := string_min 1 "Theme is required" (path ++ ["theme"]) (Js.lookup "theme" props) in
      let a := array_min ActivitySchema 1 "At least one activity is required per day"
                 (path ++ ["activities"]) (Js.lookup "activities" props) in
      match d, t, a with
      | Valid d', Valid t', Valid a' => Valid (mkDay d' t' a')
      | _, _, _ => Invalid (issuesOf d ++ issuesOf t ++ issuesOf a)
      end
  | _ => Invalid [invalid_type "object" path v]
  end.

Definition ItinerarySchema (v : JSValue) : ZodResult (list Day) :=
  array_min DaySchema 1 "Itinerary must have at least one day" [] v.

(** ** Validation of a parsed model reply (index.js, lines 376-401) *)

(** The day-sequence loop: the message of the first position [i] whose
    [day] is not [i + 1]. *)
Fixpoint daySequenceError (validatedItinerary : list Day) (i : Z) : option string :=
  match validatedItinerary with
  | [] => None
  | d :: rest =>
      if negb (day d =? i + 1)%Z
      then Some ("Day sequence error: expected day " +:+ JsNumber.toString (i + 1)
                 +:+ ", got day " +:+ JsNumber.toString (day d))
      else daySequenceError rest (i + 1)
  end.

Definition formatIssue (err : ZodIssue) : string :=
  JsString.join "." (path err) +:+ ": " +:+ message err.

Definition validateItinerary (itinerary : JSValue) (durationDays : Z)
  : Completion (list Day) :=
  match ItinerarySchema itinerary with
  | Invalid errors =>
      Throw ("Validation failed: " +:+ JsString.join "; " (map formatIssue errors))
  | Valid validatedItinerary =>
      if negb (Z.of_nat (List.length validatedItinerary) =? durationDays)%Z
      then Throw ("Expected " +:+ JsNumber.toString durationDays +:+ " days, got "
                  +:+ JsNumber.toString (Z.of_nat (List.length validatedItinerary)) +:+ " days")
      else match daySequenceError validatedItinerary 0 with
           | Some msg => Throw msg
           | None => Ok validatedItinerary
           end
  end.

(** ** The Firestore wire format *)

(** A Firestore [Value]: exactly one of the fields of the REST
    representation is set.  [booleanValue] and [doubleValue] stand for the
    kinds the worker never writes. *)
Inductive FsValue : Type :=
| stringValue (s : string)
| integerValue (s : string)
| timestampValue (s : string)
| nullValue
| booleanValue (b : bool)
| doubleValue (n : JSNum)
| arrayValue (values : list FsValue)
| mapValue (fields : list (string * FsValue)).

Abbreviation Fields := (list (string * FsValue)).

(** ** The world outside the worker *)

(** A [fetch] response.  [ok] is the response's own flag (the runtime sets
    it for the 2xx statuses); [body] is what [response.json()] resolves to,
    or the error it rejects with. *)
Record Response (B : Type) : Type := mkResponse {
  ok : bool;
  status : Z;
  text : string;
  body : Completion B
}.
Arguments mkResponse {B} ok status text body.
Arguments ok {B} r.
Arguments status {B} r.
Arguments text {B} r.
Arguments body {B} r.

(** What a call to a scripted endpoint produces: the promise rejects, or a
    response arrives. *)
Inductive FetchOutcome : Type :=
| Rejected (message : string)
| Responded (response : Response JSValue).

(** What may go wrong between the worker and the store: the request is
    lost, or the store refuses it with an error status.  A fault leaves
    the collection as it was. *)
Inductive Fault : Type :=
| Unreachable (message : string)
| Refused (status : Z) (text : string).

(** The arguments of one [processItineraryGeneration] call handed to
    [ctx.waitUntil]. *)
Record Task : Type := mkTask {
  task_jobId : string;
  task_destination : string;
  task_durationDays : Z;
  task_serviceAccountKey : string;
  task_openaiApiKey : string
}.

(** The effects of the worker, in the order they happen. *)
Inductive Event : Type :=
| TokenRequested
| ModelInvoked
| Slept (ms : Z)
| StoreCalled
| DocumentCreated (name : string) (fields : Fields)
| DocumentPatched (name : string) (fields : Fields)
| Scheduled (task : Task).

Record World : Type := mkWorld {
  (** answers of the token endpoint, in call order *)
  tokenEndpoint : list FetchOutcome;
  (** answers of the model endpoint, in call order *)
  modelEndpoint : list FetchOutcome;
  (** for each call to the store, the fault that hits it, if any *)
  storeFaults : list (option Fault);
  (** the documents of the store, by [collection/documentId] *)
  documents : gmap string Fields;
  (** what [new Date()] returns *)
  now : Date;
  (** the values [Math.random() * 16 | 0] takes, in call order *)
  randoms : list Z;
  (** the effects so far, oldest first *)
  journal : list Event
}.

Definition record (e : Event) (w : World) : World :=
  mkWorld (tokenEndpoint w) (modelEndpoint w) (storeFaults w) (documents w)
          (now w) (randoms w) (journal w ++ [e]).

(** ** Asynchronous computations *)

Definition Async (A : Type) : Type := World -> Completion A * World.

Definition ret {A} (a : A) : Async A := fun w => (Ok a, w).

Definition throw {A} (message : string) : Async A := fun w => (Throw message, w).

Definition bind {A B} (m : Async A) (k : A -> Async B) : Async B :=
  fun w =>
    match m w with
    | (Ok a, w') => k a w'
    | (Throw message, w') => (Throw message, w')
    end.

(** [try { m } catch (error) { handler(error.message) }]. *)
Definition tryCatch {A} (m : Async A) (handler : string -> Async A) : Async A :=
  fun w =>
    match m w with
    | (Ok a, w') => (Ok a, w')
    | (Throw message, w') => handler message w'
    end.

(** A synchronous evaluation inside an asynchronous function. *)
Definition lift {A} (c : Completion A) : Async A := fun w => (c, w).

Declare Scope async_scope.
Delimit Scope async_scope with async.
Notation "x <- m ;; k" := (bind m (fun x => k))
  (at level 100, m at next level, right associativity) : async_scope.
Notation "m ;; k" := (bind m (fun _ => k))
  (at level 100, right associativity) : async_scope.
Local Open Scope async_scope.

(** [await sleep(ms)]. *)
Definition sleep (ms : Z) : Async unit := fun w => (Ok tt, record (Slept ms) w).

(** [new Date()]. *)
Definition newDate : Async Date := fun w => (Ok (now w), w).

Definition networkDown : string := "fetch failed".

Definition deliver (o : option FetchOutcome) : Completion (Response JSValue) :=
  match o with
  | Some (Responded r) => Ok r
  | Some (Rejected message) => Throw message
  | None => Throw networkDown
  end.

(** [await fetch('https://oauth2.googleapis.com/token', ...)]. *)
Definition fetchToken : Async (Response JSValue) := fun w =>
  (deliver (head (tokenEndpoint w)),
   record TokenRequested
     (mkWorld (tail (tokenEndpoint w)) (modelEndpoint w) (storeFaults w) (documents w)
              (now w) (randoms w) (journal w))).

(** [await fetch('https://api.openai.com/v1/chat/completions', ...)]. *)
Definition fetchModel : Async (Response JSValue) := fun w =>
  (deliver (head (modelEndpoint w)),
   record ModelInvoked
     (mkWorld (tokenEndpoint w) (tail (modelEndpoint w)) (storeFaults w) (documents w)
              (now w) (randoms w) (journal w))).

(** ** The runtime's built-ins *)

(** [JSON.parse] and the messages of its [SyntaxError]s and of the engine's
    [TypeError]s differ between engines; [createJWT] (index.js, lines
    47-102) only prepares the assertion sent to the token endpoint, and
    whether it throws is decided by [atob] and Web Crypto on the key
    material.  The worker is verified for every such runtime. *)
Class Runtime : Type := mkRuntime {
  JSON_parse : string -> Completion JSValue;
  createJWT : JSValue -> Completion string;
  TypeError_message : string -> string
}.

Section Worker.

Context {runtime : Runtime}.

(** [v.key], for the keys the worker reads (none of them is a built-in
    property of strings or arrays): reading a property of [null] or
    [undefined] throws. *)
Definition getProp (v : JSValue) (key : string) : Completion JSValue :=
  match v with
  | JUndefined | JNull => Throw (TypeError_message key)
  | JObject props => Ok (Js.lookup key props)
  | _ => Ok JUndefined
  end.

(** ** Token acquisition *)

(** One pass through the [try] block of [getAccessToken] (lines 107-124). *)
Definition getAccessToken_attempt (serviceAccountKey : string) : Async JSValue :=
  serviceAccount <- lift (JSON_parse serviceAccountKey) ;;
  jwt <- lift (createJWT serviceAccount) ;;
  response <- fetchToken ;;
  if negb (ok response)
  then throw ("Token exchange failed: " +:+ JsNumber.toString (status response)
              +:+ " - " +:+ text response)
  else
    data <- lift (body response) ;;
    lift (getProp data "access_token").

Equations? getAccessToken (serviceAccountKey : string) (attempt : Z) : Async JSValue
  by wf (Z.to_nat (RETRY_CONFIG.maxRetries + 1 - attempt)) lt :=
getAccessToken serviceAccountKey attempt :=
  tryCatch
    (getAccessToken_attempt serviceAccountKey)
    (fun error =>
       match Z_le_dec attempt RETRY_CONFIG.maxRetries with
       | left _ =>
           let delay := calculateDelay attempt in
           sleep delay ;;
           getAccessToken serviceAccountKey (attempt + 1)
       | right _ =>
           throw ("Failed to get access token after "
                  +:+ JsNumber.toString (RETRY_CONFIG.maxRetries + 1)
                  +:+ " attempts: " +:+ error)
       end).
Proof. unfold RETRY_CONFIG.maxRetries in *. lia. Qed.

(** ** The store *)

(** The data [createFirestoreDocument] receives (index.js, lines 634-642). *)
Record JobCreation : Type := mkJobCreation {
  new_status : string;
  new_destination : string;
  new_durationDays : Z;
  new_createdAt : Date;
  new_completedAt : option Date;
  new_itinerary : option (list Day);
  new_error : option string
}.

(** The data [updateFirestoreDocument] receives (lines 446-451 and
    465-470); [null] is [None]. *)
Record JobUpdate : Type := mkJobUpdate {
  upd_status : string;
  upd_itinerary : option (list Day);
  upd_completedAt : Date;
  upd_error : option string
}.

(** [fields[key] = value] on an object literal: an existing key keeps its
    place, a new key goes last. *)
Fixpoint assign (key : string) (value : FsValue) (fields : Fields) : Fields :=
  match fields with
  | [] => [(key, value)]
  | (k, v) :: rest =>
      if String.eqb k key then (k, value) :: rest else (k, v) :: assign key value rest
  end.

(** The [firestoreData] of [createFirestoreDocument] (lines 146-154). *)
Definition firestoreData_create (data : JobCreation) : Fields :=
  [ ("status", stringValue (new_status data));
    ("destination", stringValue (new_destination data));
    ("durationDays", integerValue (JsNumber.toString (new_durationDays data)));
    ("createdAt", timestampValue (toISOString (new_createdAt data)));
    ("completedAt", nullValue);
    ("itinerary", nullValue);
    ("error", nullValue) ].

Definition firestoreActivity (activity : Activity) : FsValue :=
  mapValue [ ("time", stringValue (time activity));
             ("description", stringValue (description activity));
             ("location", stringValue (location activity)) ].

Definition firestoreDay (d : Day) : FsValue :=
  mapValue [ ("day", integerValue (JsNumber.toString (day d)));
             ("theme", stringValue (theme d));
             ("activities", arrayValue (map firestoreActivity (activities d))) ].

(** The [firestoreData] of [updateFirestoreDocument] (lines 192-227). *)
Definition firestoreData_update (data : JobUpdate) : Fields :=
  let firestoreData :=
    [ ("status", stringValue (upd_status data));
      ("completedAt", timestampValue (toISOString (upd_completedAt data))) ] in
  let firestoreData :=
    match upd_itinerary data with
    | Some itinerary =>
        let firestoreArray := map firestoreDay itinerary in
        assign "error" nullValue
          (assign "itinerary" (arrayValue firestoreArray) firestoreData)
    | None => firestoreData
    end in
  match upd_error data with
  | Some error =>
      if negb (String.eqb error EmptyString)
      then assign "itinerary" nullValue (assign "error" (stringValue error) firestoreData)
      else firestoreData
  | None => firestoreData
  end.

Definition documentName (collection docId : string) : string :=
  collection +:+ "/" +:+ docId.

(** [patch] laid over the fields a document has. *)
Definition mergeFields (old patch : Fields) : Fields :=
  fold_left (fun acc kv => assign (fst kv) (snd kv) acc) patch old.

Definition consumeFault (w : World) : World :=
  record StoreCalled
    (mkWorld (tokenEndpoint w) (modelEndpoint w) (tail (storeFaults w)) (documents w)
             (now w) (randoms w) (journal w)).

Definition setDocuments (docs : gmap string Fields) (w : World) : World :=
  mkWorld (tokenEndpoint w) (modelEndpoint w) (storeFaults w) docs
          (now w) (randoms w) (journal w).

(** The answer to a request a fault has hit. *)
Definition faulty {B} (f : Fault) : Completion (Response B) :=
  match f with
  | Unreachable message => Throw message
  | Refused st tx => Ok (mkResponse false st tx (Throw "Unexpected end of JSON input"))
  end.

Definition pendingFault (w : World) : option Fault :=
  match storeFaults w with
  | Some f :: _ => Some f
  | _ => None
  end.

(** The document store is an external service (Firestore); its contract
    is the one of section 4.5 of the specification.  [create] fails when
    the identifier is taken, and answers with the document otherwise. *)
Definition storeCreate (collection docId : string) (fields : Fields)
  : Async (Response Fields) := fun w =>
  let name := documentName collection docId in
  let w' := consumeFault w in
  match pendingFault w with
  | Some f => (faulty f, w')
  | None =>
      match documents w !! name with
      | Some _ => (Ok (mkResponse false 409 "ALREADY_EXISTS" (Throw "Unexpected end of JSON input")), w')
      | None =>
          (Ok (mkResponse true 200 EmptyString (Ok fields)),
           record (DocumentCreated name fields) (setDocuments (<[name := fields]> (documents w)) w'))
      end
  end.

(** [update] is a partial update of an existing document and fails when
    the document is absent (section 4.5). *)
Definition storePatch (collection docId : string) (fields : Fields)
  : Async (Response Fields) := fun w =>
  let name := documentName collection docId in
  let w' := consumeFault w in
  match pendingFault w with
  | Some f => (faulty f, w')
  | None =>
      match documents w !! name with
      | None => (Ok (mkResponse false 404 "NOT_FOUND" (Throw "Unexpected end of JSON input")), w')
      | Some old =>
          let merged := mergeFields old fields in
          (Ok (mkResponse true 200 EmptyString (Ok merged)),
           record (DocumentPatched name fields) (setDocuments (<[name := merged]> (documents w)) w'))
      end
  end.

(** [get] answers with the document, or with the "not found" status when
    it is absent (section 4.5). *)
Definition storeGet (collection docId : string) : Async (Response Fields) := fun w =>
  let name := documentName collection docId in
  let w' := consumeFault w in
  match pendingFault w with
  | Some f => (faulty f, w')
  | None =>
      match documents w !! name with
      | None => (Ok (mkResponse false 404 "NOT_FOUND" (Throw "Unexpected end of JSON input")), w')
      | Some fields => (Ok (mkResponse true 200 EmptyString (Ok fields)), w')
      end
  end.

(** The test both Firestore functions make before a retry. *)
Definition firestoreRetryable (message : string) : bool :=
  JsString.includes message "500" || JsString.includes message "502"
  || JsString.includes message "503".

(** One pass through the [try] block of [createFirestoreDocument] (lines
    142-171). *)
Definition createFirestoreDocument_attempt (collection docId : string) (data : JobCreation)
  : Async Fields :=
  let firestoreData := firestoreData_create data in
  response <- storeCreate collection docId firestoreData ;;
  if negb (ok response)
  then throw ("Firestore create failed: " +:+ JsNumber.toString (status response)
              +:+ " - " +:+ text response)
  else lift (body response).

(** One pass through the [try] block of [updateFirestoreDocument] (lines
    188-244). *)
Definition updateFirestoreDocument_attempt (collection docId : string) (data : JobUpdate)
  : Async Fields :=
  let firestoreData := firestoreData_update data in
  response <- storePatch collection docId firestoreData ;;
  if negb (ok response)
  then throw ("Firestore update failed: " +:+ JsNumber.toString (status response)
              +:+ " - " +:+ text response)
  else lift (body response).

Equations? createFirestoreDocument (projectId accessToken : JSValue)
    (collection docId : string) (data : JobCreation) (attempt : Z) : Async Fields
  by wf (Z.to_nat (RETRY_CONFIG.maxRetries + 1 - attempt)) lt :=
createFirestoreDocument projectId accessToken collection docId data attempt :=
  tryCatch
    (createFirestoreDocument_attempt collection docId data)
    (fun error =>
       match Z_le_dec attempt RETRY_CONFIG.maxRetries with
       | left _ =>
           if firestoreRetryable error
           then
             let delay := calculateDelay attempt in
             sleep delay ;;
             createFirestoreDocument projectId accessToken collection docId data (attempt + 1)
           else throw error
       | right _ => throw error
       end).
Proof. unfold RETRY_CONFIG.maxRetries in *. lia. Qed.

Equations? updateFirestoreDocument (projectId accessToken : JSValue)
    (collection docId : string) (data : JobUpdate) (attempt : Z) : Async Fields
  by wf (Z.to_nat (RETRY_CONFIG.maxRetries + 1 - attempt)) lt :=
updateFirestoreDocument projectId accessToken collection docId data attempt :=
  tryCatch
    (updateFirestoreDocument_attempt collection docId data)
    (fun error =>
       match Z_le_dec attempt RETRY_CONFIG.maxRetries with
       | left _ =>
           if firestoreRetryable error
           then
             let delay := calculateDelay attempt in
             sleep delay ;;
             updateFirestoreDocument projectId accessToken collection docId data (attempt + 1)
           else throw error
       | right _ => throw error
       end).
Proof. unfold RETRY_CONFIG.maxRetries in *. lia. Qed.

(** ** Generation *)

(** [cleanOpenAIResponse(content)]: the three [replace] calls remove a
    leading fence (with or without the [json] tag, whatever its case), the
    white space after it, and a trailing fence with the white space before
    it. *)
Definition cleanOpenAIResponse (content : string) : string :=
  let cleaned := JsString.trim content in
  let cleaned :=
    if JsString.startsWith (JsString.toLowerCase cleaned) "```json"
    then JsString.trimStart (JsString.drop 7 cleaned) else cleaned in
  let cleaned :=
    if JsString.startsWith cleaned "```"
    then JsString.trimStart (JsString.drop 3 cleaned) else cleaned in
  let cleaned :=
    if JsString.endsWith cleaned "```"
    then JsString.trimEnd (JsString.substring 0 (String.length cleaned - 3) cleaned)
    else cleaned in
  let startIndex := JsString.indexOf cleaned "[" in
  let endIndex := JsString.lastIndexOf cleaned "]" in
  let cleaned :=
    match startIndex, endIndex with
    | Some i, Some j =>
        if (i <? j)%nat then JsString.substring i (j + 1) cleaned else cleaned
    | _, _ => cleaned
    end in
  JsString.trim cleaned.

(** [v[i]]. *)
Definition getIndex (v : JSValue) (i : nat) : Completion JSValue :=
  match v with
  | JUndefined | JNull => Throw (TypeError_message (JsNumber.toString (Z.of_nat i)))
  | JArray vs => Ok (nth i vs JUndefined)
  | JObject props => Ok (Js.lookup (JsNumber.toString (Z.of_nat i)) props)
  | JString s =>
      Ok match String.get i s with
         | Some c => JString (String c EmptyString)
         | None => JUndefined
         end
  | _ => Ok JUndefined
  end.

(** [v.trim()]. *)
Definition callTrim (v : JSValue) : Completion string :=
  match v with
  | JString s => Ok (JsString.trim s)
  | _ => Throw (TypeError_message "trim")
  end.

(** The test [generateItinerary] makes before a retry (lines 407-413). *)
Definition isRetryableError (message : string) : bool :=
  JsString.includes message "Rate limited" ||
  JsString.includes message "server error" ||
  JsString.includes message "500" ||
  JsString.includes message "502" ||
  JsString.includes message "503" ||
  JsString.includes message "timeout".

(** The request to the model and the text of its reply (lines 316-358).
    The prompt only travels to the model and is left out. *)
Definition requestCompletion : Async string :=
  response <- fetchModel ;;
  if negb (ok response)
  then
    let errorText := text response in
    if (status response =? 429)%Z
    then throw ("Rate limited by OpenAI API: " +:+ errorText)
    else if (500 <=? status response)%Z
    then throw ("OpenAI server error: " +:+ JsNumber.toString (status response)
                +:+ " - " +:+ errorText)
    else throw ("OpenAI API error: " +:+ JsNumber.toString (status response)
                +:+ " - " +:+ errorText)
  else
    data <- lift (body response) ;;
    choices <- lift (getProp data "choices") ;;
    choice <- lift (getIndex choices 0) ;;
    message <- lift (getProp choice "message") ;;
    raw <- lift (getProp message "content") ;;
    lift (callTrim raw).

(** Cleaning, parsing and validating the text of a reply (lines 363-401). *)
Definition parseItinerary (content : string) (durationDays : Z) : Completion (list Day) :=
  let content := cleanOpenAIResponse content in
  match JSON_parse content with
  | Throw parseError =>
      Throw ("JSON parsing failed: " +:+ parseError +:+ ". Content: "
             +:+ JsString.substring 0 500 content)
  | Ok itinerary => validateItinerary itinerary durationDays
  end.

(** One pass through the [try] block of [generateItinerary] (lines
    315-401). *)
Definition generateItinerary_attempt (durationDays : Z) : Async (list Day) :=
  content <- requestCompletion ;;
  lift (parseItinerary content durationDays).

Equations? generateItinerary (destination : string) (durationDays : Z) (apiKey : string)
    (attempt : Z) : Async (list Day)
  by wf (Z.to_nat (RETRY_CONFIG.maxRetries + 1 - attempt)) lt :=
generateItinerary destination durationDays apiKey attempt :=
  tryCatch
    (generateItinerary_attempt durationDays)
    (fun error =>
       match Z_le_dec attempt RETRY_CONFIG.maxRetries with
       | left _ =>
           if isRetryableError error
           then
             let delay := calculateDelay attempt in
             sleep delay ;;
             generateItinerary destination durationDays apiKey (attempt + 1)
           else throw ("Failed to generate itinerary after " +:+ JsNumber.toString attempt
                       +:+ " attempts: " +:+ error)
       | right _ =>
           throw ("Failed to generate itinerary after " +:+ JsNumber.toString attempt
                  +:+ " attempts: " +:+ error)
       end).
Proof. unfold RETRY_CONFIG.maxRetries in *. lia. Qed.

(** ** The background task *)

(** [m], then [k] on its value; an error of [m] (and only of [m]) goes to
    [handler].  The statements of a [try] block are chained with it, so
    that the [catch] block sees the local variables as the failing
    statement left them. *)
Definition orElse {A B} (m : Async A) (handler : string -> Async B) (k : A -> Async B)
  : Async B :=
  fun w =>
    match m w with
    | (Ok a, w') => k a w'
    | (Throw message, w') => handler message w'
    end.

(** The [catch] block of [processItineraryGeneration] (lines 455-476). *)
Definition processItineraryGeneration_catch (jobId serviceAccountKey : string)
    (accessToken serviceAccount projectId : JSValue) (error : string) : Async unit :=
  tryCatch
    (accessToken <-
       (if negb (Js.truthy accessToken) && Js.truthy serviceAccount
        then getAccessToken serviceAccountKey 1
        else ret accessToken) ;;
     if Js.truthy accessToken && Js.truthy projectId
     then
       completedAt <- newDate ;;
       updateFirestoreDocument projectId accessToken "itineraries" jobId
         (mkJobUpdate "failed" None completedAt (Some ("Generation failed: " +:+ error))) 1 ;;
       ret tt
     else ret tt)
    (fun updateError => ret tt).

Definition processItineraryGeneration (jobId destination : string) (durationDays : Z)
    (serviceAccountKey openaiApiKey : string) : Async unit :=
  let failed := processItineraryGeneration_catch jobId serviceAccountKey in
  orElse (lift (JSON_parse serviceAccountKey)) (failed JNull JNull JNull)
    (fun serviceAccount =>
  orElse (lift (getProp serviceAccount "project_id")) (failed JNull serviceAccount JNull)
    (fun projectId =>
  orElse (getAccessToken serviceAccountKey 1) (failed JNull serviceAccount projectId)
    (fun accessToken =>
  orElse (generateItinerary destination durationDays openaiApiKey 1)
    (failed accessToken serviceAccount projectId)
    (fun itinerary =>
  orElse
    (completedAt <- newDate ;;
     updateFirestoreDocument projectId accessToken "itineraries" jobId
       (mkJobUpdate "completed" (Some itinerary) completedAt None) 1)
    (failed accessToken serviceAccount projectId)
    (fun _ => ret tt))))).

Definition runTask (t : Task) : Async unit :=
  processItineraryGeneration (task_jobId t) (task_destination t) (task_durationDays t)
    (task_serviceAccountKey t) (task_openaiApiKey t).

End Worker.

(** ** Reading the wire format *)

(** The body of the loop of [convertFromFirestoreFormat]: the value set
    under the current key, [None] when no branch applies and the key is
    left out.  An element of an array is converted as the source does it:
    a map directly, anything else through the one-key object [{temp: item}]. *)
Fixpoint convertFromFirestoreFormat_value (value : FsValue) : option JSValue :=
  let entries :=
    fix entries (fields : Fields) : list (string * JSValue) :=
      match fields with
      | [] => []
      | (key, v) :: rest =>
          match convertFromFirestoreFormat_value v with
          | Some converted => (key, converted) :: entries rest
          | None => entries rest
          end
      end in
  match value with
  | stringValue s => Some (JString s)
  | integerValue s => Some (JNumber (JsNumber.parseInt s))
  | timestampValue s => Some (JString s)
  | nullValue => Some JNull
  | arrayValue values =>
      Some (JArray (map (fun item =>
                           match item with
                           | mapValue fields => JObject (entries fields)
                           | _ => match convertFromFirestoreFormat_value item with
                                  | Some temp => temp
                                  | None => JUndefined
                                  end
                           end) values))
  | mapValue fields => Some (JObject (entries fields))
  | booleanValue _ | doubleValue _ => None
  end.

(** [convertFromFirestoreFormat(fields)], the properties of the result in
    the order they are set. *)
Fixpoint convertFromFirestoreFormat (fields : Fields) : list (string * JSValue) :=
  match fields with
  | [] => []
  | (key, value) :: rest =>
      match convertFromFirestoreFormat_value value with
      | Some converted => (key, converted) :: convertFromFirestoreFormat rest
      | None => convertFromFirestoreFormat rest
      end
  end.

(** ** The request handler *)

Record Request : Type := mkRequest {
  method : string;
  (** [url.searchParams.get('jobId')] *)
  searchParams_jobId : option string;
  pathname : string;
  (** what [request.json()] resolves to, or the error it rejects with *)
  json : Completion JSValue
}.

Record Env : Type := mkEnv {
  FIREBASE_SERVICE_ACCOUNT_KEY : option string;
  OPENAI_API_KEY : option string
}.

(** The status and the payload of the [Response] the handler builds. *)
Record Reply : Type := mkReply {
  reply_status : Z;
  reply_body : JSValue
}.

(** [v.toString(16)] for a [v] between 0 and 15. *)
Definition hexDigit (v : Z) : ascii :=
  match String.get (Z.to_nat v) "0123456789abcdef" with
  | Some c => c
  | None => "0"%char
  end.

(** The [replace] of [generateUUID]: each [x] and [y] of the template takes
    the next random value [r], an [x] as [r] and a [y] as [r & 0x3 | 0x8]. *)
Fixpoint fillTemplate (template : string) (rs : list Z) : string * list Z :=
  match template with
  | EmptyString => (EmptyString, rs)
  | String c rest =>
      if Ascii.eqb c "x" || Ascii.eqb c "y"
      then
        let r := hd 0 rs in
        let v := if Ascii.eqb c "x" then r else Z.lor (Z.land r 3) 8 in
        let '(filled, rs') := fillTemplate rest (tail rs) in
        (String (hexDigit v) filled, rs')
      else
        let '(filled, rs') := fillTemplate rest rs in
        (String c filled, rs')
  end.

(** [generateUUID()]. *)
Definition generateUUID : Async string := fun w =>
  let '(uuid, rs) := fillTemplate "xxxxxxxx-xxxx-4xxx-yxxx-xxxxxxxxxxxx" (randoms w) in
  (Ok uuid,
   mkWorld (tokenEndpoint w) (modelEndpoint w) (storeFaults w) (documents w)
           (now w) rs (journal w)).

(** [ctx.waitUntil(processItineraryGeneration(...))]: the task is handed to
    the host, which runs it ([runTask]) after the handler has answered. *)
Definition waitUntil (t : Task) : Async unit := fun w => (Ok tt, record (Scheduled t) w).

(** [pathname.split('/').pop()]. *)
Definition lastSegment (pathname : string) : string :=
  match JsString.lastIndexOf pathname "/" with
  | Some i => JsString.drop (S i) pathname
  | None => pathname
  end.

(** Truthiness of an environment binding. *)
Definition configured (binding : option string) : bool :=
  match binding with
  | Some s => negb (String.eqb s EmptyString)
  | None => false
  end.

Definition bindingValue (binding : option string) : string :=
  match binding with
  | Some s => s
  | None => EmptyString
  end.

(** [!destination || typeof destination !== 'string' ||
     destination.trim().length < 2]. *)
Definition destinationRejected (destination : JSValue) : bool :=
  negb (Js.truthy destination) ||
  match destination with
  | JString s => (String.length (JsString.trim s) <? 2)%nat
  | _ => true
  end.

(** [!durationDays || typeof durationDays !== 'number' || durationDays < 1 ||
     durationDays > 30 || !Number.isInteger(durationDays)]. *)
Definition durationDaysRejected (durationDays : JSValue) : bool :=
  negb (Js.truthy durationDays) ||
  match durationDays with
  | JNumber n =>
      JsNumber.lt n (JsNumber.ofZ 1) || JsNumber.gt n (JsNumber.ofZ 30)
      || negb (JsNumber.isInteger n)
  | _ => true
  end.

Definition stringOf (v : JSValue) : string :=
  match v with
  | JString s => s
  | _ => EmptyString
  end.

Definition numberOf (v : JSValue) : Z :=
  match v with
  | JNumber n => JsNumber.toZ n
  | _ => 0
  end.

Section Handler.

Context {runtime : Runtime}.

(** The GET branch of [fetch] (lines 524-581). *)
Definition fetch_GET (request : Request) (env : Env) : Async Reply :=
  let jobId :=
    match searchParams_jobId request with
    | Some s => if String.eqb s EmptyString then lastSegment (pathname request) else s
    | None => lastSegment (pathname request)
    end in
  if String.eqb jobId EmptyString || String.eqb jobId "/"
  then ret (mkReply 400 (JObject [ ("error", JString "jobId is required");
                                   ("usage", JString "GET /?jobId=YOUR_JOB_ID") ]))
  else
    tryCatch
      (if negb (configured (FIREBASE_SERVICE_ACCOUNT_KEY env))
       then throw "FIREBASE_SERVICE_ACCOUNT_KEY not configured"
       else
         let key := bindingValue (FIREBASE_SERVICE_ACCOUNT_KEY env) in
         serviceAccount <- lift (JSON_parse key) ;;
         accessToken <- getAccessToken key 1 ;;
         projectId <- lift (getProp serviceAccount "project_id") ;;
         response <- storeGet "itineraries" jobId ;;
         if (status response =? 404)%Z
         then ret (mkReply 404 (JObject [ ("error", JString "Job not found") ]))
         else if negb (ok response)
         then throw ("Firestore error: " +:+ JsNumber.toString (status response))
         else
           fields <- lift (body response) ;;
           let data := convertFromFirestoreFormat fields in
           ret (mkReply 200 (JObject data)))
      (fun error =>
         ret (mkReply 500 (JObject [ ("error", JString "Failed to check status");
                                     ("details", JString error) ]))).

(** The POST branch of [fetch] (lines 591-676). *)
Definition fetch_POST (request : Request) (env : Env) : Async Reply :=
  tryCatch
    (body <- lift (json request) ;;
     destination <- lift (getProp body "destination") ;;
     durationDays <- lift (getProp body "durationDays") ;;
     if destinationRejected destination
     then ret (mkReply 400 (JObject [ ("error", JString
            "destination is required and must be at least 2 characters long") ]))
     else if durationDaysRejected durationDays
     then ret (mkReply 400 (JObject [ ("error", JString
            "durationDays must be an integer between 1 and 30") ]))
     else if negb (configured (FIREBASE_SERVICE_ACCOUNT_KEY env))
             || negb (configured (OPENAI_API_KEY env))
     then throw "Required environment variables not configured"
     else
       let key := bindingValue (FIREBASE_SERVICE_ACCOUNT_KEY env) in
       serviceAccount <- lift (JSON_parse key) ;;
       projectId <- lift (getProp serviceAccount "project_id") ;;
       accessToken <- getAccessToken key 1 ;;
       jobId <- generateUUID ;;
       createdAt <- newDate ;;
       createFirestoreDocument projectId accessToken "itineraries" jobId
         (mkJobCreation "processing" (JsString.trim (stringOf destination))
            (numberOf durationDays) createdAt None None None) 1 ;;
       waitUntil (mkTask jobId (JsString.trim (stringOf destination))
                    (numberOf durationDays) key (bindingValue (OPENAI_API_KEY env))) ;;
       ret (mkReply 202 (JObject [ ("jobId", JString jobId);
              ("message", JString "Itinerary generation started with enhanced processing") ])))
    (fun error =>
       ret (mkReply 500 (JObject [ ("error", JString "Internal server error");
              ("message", JString "Failed to process request with enhanced error handling");
              ("details", JString error) ]))).

(** [fetch(request, env, ctx)]. *)
Definition fetch (request : Request) (env : Env) : Async Reply :=
  if String.eqb (method request) "OPTIONS" then ret (mkReply 200 JNull)
  else if String.eqb (method request) "GET" then fetch_GET request env
  else if negb (String.eqb (method request) "POST")
  then ret (mkReply 405 (JString "Method not allowed"))
  else fetch_POST request env.

End Handler.

(** ** A runtime to run the worker on

    The examples run the worker on a small runtime: its [JSON.parse] reads
    the JSON grammar without exponents and without [\u] escapes, its
    [createJWT] needs a [private_key] string, and its [TypeError]s carry
    V8's message. *)
Module DemoRuntime.

Definition dquote : ascii := ascii_of_nat 34.
Definition backslash : ascii := ascii_of_nat 92.

(** [s] between double quotes. *)
Definition quoted (s : string) : string :=
  String dquote s +:+ String dquote EmptyString.

Definition isJsonSpace (c : ascii) : bool :=
  match nat_of_ascii c with
  | 9%nat | 10%nat | 13%nat | 32%nat => true
  | _ => false
  end.

Fixpoint skipSpace (s : string) : string :=
  match s with
  | String c rest => if isJsonSpace c then skipSpace rest else s
  | EmptyString => s
  end.

(** The characters of a string literal after its opening quote, and what
    follows the closing quote. *)
Fixpoint stringBody (s : string) : option (string * string) :=
  match s with
  | EmptyString => None
  | String c rest =>
      if Ascii.eqb c dquote then Some (EmptyString, rest)
      else if Ascii.eqb c backslash then
        match rest with
        | String e rest' =>
            let unescaped :=
              if Ascii.eqb e dquote then Some dquote
              else if Ascii.eqb e backslash then Some backslash
              else match e with
                   | "/"%char => Some "/"%char
                   | "n"%char => Some (ascii_of_nat 10)
                   | "t"%char => Some (ascii_of_nat 9)
                   | "r"%char => Some (ascii_of_nat 13)
                   | "b"%char => Some (ascii_of_nat 8)
                   | "f"%char => Some (ascii_of_nat 12)
                   | _ => None
                   end in
            match unescaped, stringBody rest' with
            | Some u, Some (body, after) => Some (String u body, after)
            | _, _ => None
            end
        | EmptyString => None
        end
      else if (nat_of_ascii c <? 32)%nat then None
      else match stringBody rest with
           | Some (body, after) => Some (String c body, after)
           | None => None
           end
  end.

(** A run of digits: its value, its length, and what follows. *)
Fixpoint digits (s : string) (acc : Z) (len : nat) : Z * nat * string :=
  match s with
  | String c rest =>
      if JsNumber.isDigit c then digits rest (10 * acc + JsNumber.digitValue c) (S len)
      else (acc, len, s)
  | EmptyString => (acc, len, s)
  end.

(** [-]? digits ([.] digits)? *)
Definition number (s : string) : option (JSNum * string) :=
  let '(negative, s) :=
    match s with
    | String "-" rest => (true, rest)
    | _ => (false, s)
    end in
  let '(whole, n, rest) := digits s 0 0 in
  if (n =? 0)%nat then None
  else
    let sign (q : Q) : Q := if negative then Qopp q else q in
    match rest with
    | String "." rest' =>
        let '(frac, m, rest'') := digits rest' 0 0 in
        if (m =? 0)%nat then None
        else Some (Num (sign (Qmake (whole * 10 ^ Z.of_nat m + frac)
                                    (Z.to_pos (10 ^ Z.of_nat m)))), rest'')
    | _ => Some (Num (sign (inject_Z whole)), rest)
    end.

(** [props[key] = value] while an object literal is read: a repeated key
    keeps its place and takes the later value. *)
Fixpoint setProp (key : string) (value : JSValue) (props : list (string * JSValue))
  : list (string * JSValue) :=
  match props with
  | [] => [(key, value)]
  | (k, v) :: rest =>
      if String.eqb k key then (k, value) :: rest else (k, v) :: setProp key value rest
  end.

Inductive Expecting : Type :=
| AValue
| Elements (seen : list JSValue)
| Members (seen : list (string * JSValue)).

(** Recursive descent; [fuel] bounds the number of nested calls. *)
Fixpoint parse (fuel : nat) (what : Expecting) (s : string) : option (JSValue * string) :=
  match fuel with
  | O => None
  | S fuel =>
      let s := skipSpace s in
      match what with
      | AValue =>
          if JsString.startsWith s "null" then Some (JNull, JsString.drop 4 s)
          else if JsString.startsWith s "true" then Some (JBool true, JsString.drop 4 s)
          else if JsString.startsWith s "false" then Some (JBool false, JsString.drop 5 s)
          else match s with
               | String "[" rest =>
                   match skipSpace rest with
                   | String "]" after => Some (JArray [], after)
                   | _ => parse fuel (Elements []) rest
                   end
               | String "{" rest =>
                   match skipSpace rest with
                   | String "}" after => Some (JObject [], after)
                   | _ => parse fuel (Members []) rest
                   end
               | String c rest =>
                   if Ascii.eqb c dquote then
                     match stringBody rest with
                     | Some (body, after) => Some (JString body, after)
                     | None => None
                     end
                   else match number s with
                        | Some (n, after) => Some (JNumber n, after)
                        | None => None
                        end
               | EmptyString => None
               end
      | Elements seen =>
          match parse fuel AValue s with
          | Some (v, after) =>
              match skipSpace after with
              | String "," rest => parse fuel (Elements (seen ++ [v])) rest
              | String "]" rest => Some (JArray (seen ++ [v]), rest)
              | _ => None
              end
          | None => None
          end
      | Members seen =>
          match s with
          | String c rest =>
              if Ascii.eqb c dquote then
                match stringBody rest with
                | Some (key, after) =>
                    match skipSpace after with
                    | String ":" rest' =>
                        match parse fuel AValue rest' with
                        | Some (v, after') =>
                            match skipSpace after' with
                            | String "," rest'' => parse fuel (Members (setProp key v seen)) rest''
                            | String "}" rest'' => Some (JObject (setProp key v seen), rest'')
                            | _ => None
                            end
                        | None => None
                        end
                    | _ => None
                    end
                | None => None
                end
              else None
          | EmptyString => None
          end
      end
  end.

Definition JSON_parse (s : string) : Completion JSValue :=
  match parse (2 * String.length s + 2) AValue s with
  | Some (v, rest) =>
      match skipSpace rest with
      | EmptyString => Ok v
      | _ => Throw "Unexpected non-whitespace character after JSON"
      end
  | None => Throw "Unexpected token in JSON"
  end.

Definition TypeError_message (key : string) : string :=
  "Cannot read properties of undefined (reading '" +:+ key +:+ "')".

Definition createJWT (serviceAccount : JSValue) : Completion string :=
  match serviceAccount with
  | JObject props =>
      match Js.lookup "private_key" props with
      | JString _ => Ok "header.payload.signature"
      | _ => Throw (TypeError_message "replace")
      end
  | JUndefined | JNull => Throw (TypeError_message "client_email")
  | _ => Throw (TypeError_message "replace")
  end.

Definition runtime : Runtime := mkRuntime JSON_parse createJWT TypeError_message.

(** A well-formed service account key. *)
Definition serviceAccountKey : string :=
  "{" +:+ quoted "project_id" +:+ ":" +:+ quoted "demo-project" +:+ ","
      +:+ quoted "client_email" +:+ ":" +:+ quoted "worker@demo-project" +:+ ","
      +:+ quoted "private_key" +:+ ":" +:+ quoted "MIIB" +:+ "}".

End DemoRuntime.

(** ** Observing a run *)

Definition sleeps (j : list Event) : list Z :=
  flat_map (fun e => match e with Slept ms => [ms] | _ => [] end) j.

Definition modelInvocations (j : list Event) : nat :=
  List.length (List.filter (fun e => match e with ModelInvoked => true | _ => false end) j).

Definition tokenRequests (j : list Event) : nat :=
  List.length (List.filter (fun e => match e with TokenRequested => true | _ => false end) j).

(** The time spent suspended, in milliseconds. *)
Definition totalSleep (j : list Event) : Z := fold_right Z.add 0 (sleeps j).

(** An exchange with an endpoint fails: the request is rejected or the
    answer carries an error status. *)
Definition exchangeFails (o : FetchOutcome) : bool :=
  match o with
  | Rejected _ => true
  | Responded r => negb (ok r)
  end.

(** The documents the store has taken, with the fields sent. *)
Definition writes (j : list Event) : list (string * Fields) :=
  flat_map (fun e => match e with
                     | DocumentCreated name fields | DocumentPatched name fields => [(name, fields)]
                     | _ => []
                     end) j.

Definition scheduled (j : list Event) : list Task :=
  flat_map (fun e => match e with Scheduled t => [t] | _ => [] end) j.

(** [fields[key]]. *)
Fixpoint fieldOf (key : string) (fields : Fields) : option FsValue :=
  match fields with
  | [] => None
  | (k, v) :: rest => if String.eqb k key then Some v else fieldOf key rest
  end.

(** The field is present and is not the null value. *)
Definition nonNull (key : string) (fields : Fields) : bool :=
  match fieldOf key fields with
  | Some nullValue | None => false
  | Some _ => true
  end.

Definition statusOf (fields : Fields) : string :=
  match fieldOf "status" fields with
  | Some (stringValue s) => s
  | _ => EmptyString
  end.



(** ** Submissions *)


(** The reply of the handler to a submission it refuses. *)
Definition clientInputError (message : string) : Reply :=
  mkReply 400 (JObject [("error", JString message)]).

(** ** The candidates of the validator *)

(** [candidate[i].day] and the other fields of a candidate, read without
    validation. *)
Definition propOf (key : string) (v : JSValue) : JSValue :=
  match v with
  | JObject props => Js.lookup key props
  | _ => JUndefined
  end.

Definition descriptionShorterThan (limit : nat) (activity : JSValue) : bool :=
  match propOf "description" activity with
  | JString s => (String.length s <? limit)%nat
  | _ => false
  end.

Definition dayHasDescriptionShorterThan (limit : nat) (d : JSValue) : bool :=
  match propOf "activities" d with
  | JArray acts => existsb (descriptionShorterThan limit) acts
  | _ => false
  end.

(** Some activity of the candidate has a description of fewer than [limit]
    characters. *)
Definition someDescriptionShorterThan (limit : nat) (candidate : JSValue) : bool :=
  match candidate with
  | JArray days => existsb (dayHasDescriptionShorterThan limit) days
  | _ => false
  end.

(** ** Job documents as JavaScript objects *)

Definition jsActivity (a : Activity) : JSValue :=
  JObject [ ("time", JString (time a)); ("description", JString (description a));
            ("location", JString (location a)) ].

Definition jsDay (d : Day) : JSValue :=
  JObject [ ("day", Js.ofZ (day d)); ("theme", JString (theme d));
            ("activities", JArray (map jsActivity (activities d))) ].

Definition jsNullable {A} (f : A -> JSValue) (o : option A) : JSValue :=
  match o with
  | Some a => f a
  | None => JNull
  end.

Definition jsItinerary (itinerary : list Day) : JSValue := JArray (map jsDay itinerary).

(** The object literal passed to [createFirestoreDocument]. *)
Definition jsJobCreation (data : JobCreation) : list (string * JSValue) :=
  [ ("status", JString (new_status data));
    ("destination", JString (new_destination data));
    ("durationDays", Js.ofZ (new_durationDays data));
    ("createdAt", JDate (new_createdAt data));
    ("completedAt", jsNullable JDate (new_completedAt data));
    ("itinerary", jsNullable jsItinerary (new_itinerary data));
    ("error", jsNullable JString (new_error data)) ].

(** The object literal passed to [updateFirestoreDocument]. *)
Definition jsJobUpdate (data : JobUpdate) : list (string * JSValue) :=
  [ ("status", JString (upd_status data));
    ("itinerary", jsNullable jsItinerary (upd_itinerary data));
    ("completedAt", JDate (upd_completedAt data));
    ("error", jsNullable JString (upd_error data)) ].

(** The update is one of the two the background task sends: an itinerary
    and no error, or a non-empty error and no itinerary. *)
Definition terminalUpdate (data : JobUpdate) : bool :=
  match upd_itinerary data, upd_error data with
  | Some _, None => true
  | None, Some error => negb (String.eqb error EmptyString)
  | _, _ => false
  end.

(** A value with every [Date] replaced by its ISO-8601 string, as
    [JSON.stringify] renders it. *)
Fixpoint datesAsStrings (v : JSValue) : JSValue :=
  match v with
  | JDate d => JString (toISOString d)
  | JArray vs => JArray (map datesAsStrings vs)
  | JObject props => JObject (map (fun kv => (fst kv, datesAsStrings (snd kv))) props)
  | _ => v
  end.

Definition rendered (props : list (string * JSValue)) : list (string * JSValue) :=
  map (fun kv => (fst kv, datesAsStrings (snd kv))) props.

(** ** Sample data *)

Module Sample.

Definition activity (text : string) : JSValue :=
  JObject [ ("time", JString "Morning"); ("description", JString text);
            ("location", JString "Eiffel Tower") ].

(** A day of the candidate with the given [day] field and one activity. *)
Definition dayNumbered (n : Z) (text : string) : JSValue :=
  JObject [ ("day", Js.ofZ n); ("theme", JString "Landmarks");
            ("activities", JArray [activity text]) ].

Definition longText : string := "Climb the tower before the crowds arrive".

(** Fifteen characters. *)
Definition text15 : string := "Visit the tower".

(** Nine characters. *)
Definition text9 : string := "Too short".

Definition today : Date := mkDate "2026-01-15T09:30:00.000Z".

(** The random values that make the identifier [jobId] below. *)
Definition dice : list Z :=
  [3; 15; 2; 12; 1; 11; 4; 10; 9; 13; 8; 14; 15; 7; 0; 2; 6; 11; 5; 12; 4; 13; 3; 14; 2; 15;
   1; 10; 0; 11; 7].

Definition jobId : string := "3f2c1b4a-9d8e-4f70-a6b5-c4d3e2f1a0b7".

(** A world with the given answers of the token endpoint and of the model
    endpoint and the given store faults; the store is empty. *)
Definition world (tokens models : list FetchOutcome) (faults : list (option Fault)) : World :=
  mkWorld tokens models faults ∅ today dice [].

(** The token endpoint grants [token]. *)
Definition granted (token : string) : FetchOutcome :=
  Responded (mkResponse true 200 EmptyString (Ok (JObject [("access_token", JString token)]))).

(** An endpoint answers with an error status. *)
Definition refused (code : Z) (reason : string) : FetchOutcome :=
  Responded (mkResponse false code reason (Throw "Unexpected token in JSON")).

(** The model answers with [content]. *)
Definition completion (content : string) : FetchOutcome :=
  Responded (mkResponse true 200 EmptyString
    (Ok (JObject [("choices",
           JArray [JObject [("message", JObject [("content", JString content)])]])]))).

(** The text of a one-day itinerary. *)
Definition oneDayReply : string :=
  "[{" +:+ DemoRuntime.quoted "day" +:+ ": 1, "
       +:+ DemoRuntime.quoted "theme" +:+ ": " +:+ DemoRuntime.quoted "Landmarks" +:+ ", "
       +:+ DemoRuntime.quoted "activities" +:+ ": [{"
       +:+ DemoRuntime.quoted "time" +:+ ": " +:+ DemoRuntime.quoted "Morning" +:+ ", "
       +:+ DemoRuntime.quoted "description" +:+ ": " +:+ DemoRuntime.quoted longText +:+ ", "
       +:+ DemoRuntime.quoted "location" +:+ ": " +:+ DemoRuntime.quoted "Eiffel Tower"
       +:+ "}]}]".

(** The request for one day in Paris and the environment of the worker. *)
Definition submission : Request :=
  mkRequest "POST" None "/"
    (Ok (JObject [("destination", JString "Paris"); ("durationDays", Js.ofZ 1)])).

Definition env : Env := mkEnv (Some DemoRuntime.serviceAccountKey) (Some "sk-demo").

(** The task the handler schedules for [submission]. *)
Definition task : Task :=
  mkTask jobId "Paris" 1 DemoRuntime.serviceAccountKey "sk-demo".

End Sample.

(** ** Reading decimal numerals *)

(** The value of a run of decimal digits read after [acc]. *)
Fixpoint uintValue (d : Decimal.uint) (acc : Z) : Z :=
  match d with
  | Decimal.Nil => acc
  | Decimal.D0 l => uintValue l (10 * acc)
  | Decimal.D1 l => uintValue l (10 * acc + 1)
  | Decimal.D2 l => uintValue l (10 * acc + 2)
  | Decimal.D3 l => uintValue l (10 * acc + 3)
  | Decimal.D4 l => uintValue l (10 * acc + 4)
  | Decimal.D5 l => uintValue l (10 * acc + 5)
  | Decimal.D6 l => uintValue l (10 * acc + 6)
  | Decimal.D7 l => uintValue l (10 * acc + 7)
  | Decimal.D8 l => uintValue l (10 * acc + 8)
  | Decimal.D9 l => uintValue l (10 * acc + 9)
  end.

Definition isNil (d : Decimal.uint) : bool :=
  match d with
  | Decimal.Nil => true
  | _ => false
  end.

(** ** Relations between the worlds before and after a computation *)

(** Nothing was written to the store and nothing was scheduled. *)
Definition calm (w w' : World) : Prop :=
  documents w' = documents w
  /\ exists es, journal w' = journal w ++ es /\ writes es = [] /\ scheduled es = [].

(** Moreover the store was not called. *)
Definition quiet (w w' : World) : Prop :=
  storeFaults w' = storeFaults w /\ calm w w'.

(** The store applied one update, of the document [name] with [fields]. *)
Definition patched (name : string) (fields : Fields) (w w' : World) : Prop :=
  exists old es,
    documents w !! name = Some old
    /\ documents w' = <[name := mergeFields old fields]> (documents w)
    /\ journal w' = journal w ++ es
    /\ writes es = [(name, fields)] /\ scheduled es = [].

(** The store created the document [name] with [fields], as the last
    effect. *)
Definition created (name : string) (fields : Fields) (w w' : World) : Prop :=
  documents w !! name = None
  /\ documents w' = <[name := fields]> (documents w)
  /\ exists es, journal w' = journal w ++ es ++ [DocumentCreated name fields]
                /\ writes es = [] /\ scheduled es = [].

(** Every run of [m] relates the world it starts in to the world it ends
    in by [R]. *)
Definition respects {A} (R : World -> World -> Prop) (m : Async A) : Prop :=
  forall w, R w (snd (m w)).

(** An update either is applied once, and then succeeds, or leaves the
    store as it was, and then fails. *)
Definition updateOutcome (name : string) (fields : Fields) {A} (w : World)
    (run : Completion A * World) : Prop :=
  match run with
  | (Ok _, w') => patched name fields w w'
  | (Throw _, w') => calm w w'
  end.

Definition createOutcome (name : string) (fields : Fields) {A} (w : World)
    (run : Completion A * World) : Prop :=
  match run with
  | (Ok _, w') => created name fields w w'
  | (Throw _, w') => calm w w'
  end.

(** The update the background task sends when generation failed. *)
Definition failedUpdate (completedAt : Date) (error : string) : JobUpdate :=
  mkJobUpdate "failed" None completedAt (Some ("Generation failed: " +:+ error)).

(** The update the background task sends when generation succeeded. *)
Definition completedUpdate (completedAt : Date) (itinerary : list Day) : JobUpdate :=
  mkJobUpdate "completed" (Some itinerary) completedAt None.

(** What a run of the background task does to the store: nothing, or one
    terminal update of its own document. *)
Definition taskOutcome (name : string) (w w' : World) : Prop :=
  calm w w'
  \/ exists completedAt,
       (exists error, patched name (firestoreData_update (failedUpdate completedAt error)) w w')
       \/ (exists itinerary,
             patched name (firestoreData_update (completedUpdate completedAt itinerary)) w w').

(** The reply of the handler to a submission it accepts. *)
Definition accepted (jobId : string) : Reply :=
  mkReply 202 (JObject [ ("jobId", JString jobId);
    ("message", JString "Itinerary generation started with enhanced processing") ]).

(** What a submission does: it is refused or fails, and then nothing is
    written or scheduled; or the [processing] document of a new job is
    created and, right after it, the task of the job is scheduled. *)
Definition submissionOutcome (w : World) (reply : Reply) (w1 : World) : Prop :=
  (reply_status reply <> 202 /\ calm w w1)
  \/ exists jobId destination n key apiKey createdAt es,
       let name := documentName "itineraries" jobId in
       let fields := firestoreData_create
                       (mkJobCreation "processing" destination n createdAt None None None) in
       reply = accepted jobId
       /\ String.length jobId = 36%nat
       /\ documents w !! name = None
       /\ documents w1 = <[name := fields]> (documents w)
       /\ journal w1 = journal w ++ es
                         ++ [DocumentCreated name fields;
                             Scheduled (mkTask jobId destination n key apiKey)]
       /\ writes es = [] /\ scheduled es = [].

(** ** Further observations *)

(** The calls made to the store, applied or not. *)
Definition storeCalls (j : list Event) : nat :=
  List.length (List.filter (fun e => match e with StoreCalled => true | _ => false end) j).

(** The delays of [n] consecutive retries, the first one after attempt [k]. *)
Fixpoint delaysFrom (k : Z) (n : nat) : list Z :=
  match n with
  | O => []
  | S n' => calculateDelay k :: delaysFrom (k + 1) n'
  end.

(** An activity as the schema wants it. *)
Definition wellFormedActivity (a : Activity) : bool :=
  (1 <=? String.length (time a))%nat
  && (10 <=? String.length (description a))%nat
  && (1 <=? String.length (location a))%nat.

(** The day at position [i] (from 0) as the validator wants it. *)
Definition wellFormedDay (i : nat) (d : Day) : bool :=
  (day d =? Z.of_nat i + 1)%Z
  && (1 <=? String.length (theme d))%nat
  && (1 <=? List.length (activities d))%nat
  && forallb wellFormedActivity (activities d).

Fixpoint wellFormedFrom (i : nat) (days : list Day) : bool :=
  match days with
  | [] => true
  | d :: rest => wellFormedDay i d && wellFormedFrom (S i) rest
  end.

(** An itinerary of [n >= 1] days, numbered from 1 in order, each with a
    theme and at least one activity, each activity with a time, a location
    and a description of ten characters or more. *)
Definition wellFormedItinerary (n : Z) (days : list Day) : bool :=
  (Z.of_nat (List.length days) =? n)%Z
  && (1 <=? List.length days)%nat
  && wellFormedFrom 0 days.

(** The job a status read asks for: the [jobId] parameter of the query
    or, without one, what follows the last slash of the path (index.js,
    line 525). *)
Definition requestedJobId (request : Request) : string :=
  match searchParams_jobId request with
  | Some s => if String.eqb s EmptyString then lastSegment (pathname request) else s
  | None => lastSegment (pathname request)
  end.

(** The statuses the handler answers with. *)
Definition replyStatuses : list Z := [200; 202; 400; 404; 405; 500].

(** The kinds of Firestore value the reader has a branch for. *)
Definition supportedKind (value : FsValue) : bool :=
  match value with
  | booleanValue _ | doubleValue _ => false
  | _ => true
  end.

(** The error of an update counts when it is a non-empty string. *)
Definition errorGiven (data : JobUpdate) : bool :=
  match upd_error data with
  | Some error => negb (String.eqb error EmptyString)
  | None => false
  end.

Definition itineraryGiven (data : JobUpdate) : bool :=
  match upd_itinerary data with
  | Some _ => true
  | None => false
  end.

(** A lower-case hexadecimal digit. *)
Definition isHexDigit (c : ascii) : bool :=
  existsb (Ascii.eqb c) (list_ascii_of_string "0123456789abcdef").

(** The positions of the dashes of a UUID. *)
Definition dashPositions : list nat := [8; 13; 18; 23]%nat.

(** The events [es] stay within a budget: at most [t] token requests, [mo]
    model invocations and [s] store calls, and at most [ms] milliseconds
    asleep. *)
Definition within (t mo s : nat) (ms : Z) (es : list Event) : Prop :=
  (tokenRequests es <= t)%nat /\ (modelInvocations es <= mo)%nat
  /\ (storeCalls es <= s)%nat /\ totalSleep es <= ms.

(** Every run of [m] only adds events to the journal, within the budget. *)
Definition spends {A} (t mo s : nat) (ms : Z) (m : Async A) : Prop :=
  forall w, exists es, journal (snd (m w)) = journal w ++ es /\ within t mo s ms es.

(** The attempts a retry loop can still make from attempt [k] on, and the
    time it can still sleep between them. *)
Definition attemptsFrom (k : Z) : nat := S (Z.to_nat (RETRY_CONFIG.maxRetries + 1 - k)).

Definition sleepFrom (k : Z) : Z :=
  fold_right Z.add 0 (delaysFrom k (Z.to_nat (RETRY_CONFIG.maxRetries + 1 - k))).

(** No character of [s] is [c]. *)
Fixpoint lacks (c : ascii) (s : string) : bool :=
  match s with
  | EmptyString => true
  | String a rest => negb (Ascii.eqb a c) && lacks c rest
  end.

(** The steps of [cleanOpenAIResponse], one for each of its statements
    after the first [trim]: the three [replace] calls and the cut from the
    first opening to the last closing bracket. *)
Definition stripJsonFence (cleaned : string) : string :=
  if JsString.startsWith (JsString.toLowerCase cleaned) "```json"
  then JsString.trimStart (JsString.drop 7 cleaned) else cleaned.

Definition stripFence (cleaned : string) : string :=
  if JsString.startsWith cleaned "```"
  then JsString.trimStart (JsString.drop 3 cleaned) else cleaned.

Definition stripEndFence (cleaned : string) : string :=
  if JsString.endsWith cleaned "```"
  then JsString.trimEnd (JsString.substring 0 (String.length cleaned - 3) cleaned)
  else cleaned.

Definition cutToBrackets (cleaned : string) : string :=
  match JsString.indexOf cleaned "[", JsString.lastIndexOf cleaned "]" with
  | Some i, Some j =>
      if (i <? j)%nat then JsString.substring i (j + 1) cleaned else cleaned
  | _, _ => cleaned
  end.

(** A bracketed text [[mid]] between a prefix without an opening bracket
    and a suffix without a closing one. *)
Definition wrapped (mid : string) (p q : string) : string :=
  p +:+ String "[" (mid +:+ String "]" q).

(** The token endpoint is down: every answer it still has fails. *)
Definition tokenOutage (w : World) : bool := forallb exchangeFails (tokenEndpoint w).

(** * Properties *)

(** ** The validator *)

Section Validation.

Lemma string_min_valid n msg p v s :
  string_min n msg p v = Valid s -> v = JString s /\ (n <= String.length s)%nat.
Proof.
  unfold string_min. destruct v; try discriminate.
  destruct (Nat.ltb_spec (String.length s0) n) as [Hlt|Hge]; intros H; inversion H; subst.
  split; [reflexivity | lia].
Qed.

Lemma items_valid {A} (element : list string -> JSValue -> ZodResult A) p vs :
  forall i l, items element p i vs = Valid l ->
    Forall2 (fun v a => exists q, element q v = Valid a) vs l.
Proof.
  induction vs as [|v vs IH]; intros i l H; simpl in H.
  - inversion H. constructor.
  - destruct (element _ v) as [a|] eqn:Ha; [|discriminate].
    destruct (items element p (S i) vs) as [l'|] eqn:Hl; [|discriminate].
    inversion H; subst. constructor; eauto.
Qed.

Lemma array_min_valid {A} (element : list string -> JSValue -> ZodResult A) n msg p v l :
  array_min element n msg p v = Valid l ->
  exists vs, v = JArray vs /\ (n <= List.length vs)%nat
             /\ Forall2 (fun v a => exists q, element q v = Valid a) vs l.
Proof.
  unfold array_min. destruct v; try discriminate.
  destruct (Nat.ltb_spec (List.length items0) n) as [Hlt|Hge]; [discriminate|].
  destruct (items element p 0 items0) as [l'|] eqn:Hl; [|discriminate].
  intros H; inversion H; subst. exists items0. eauto using items_valid.
Qed.

Lemma ActivitySchema_valid p v a :
  ActivitySchema p v = Valid a ->
  exists props, v = JObject props
    /\ Js.lookup "time" props = JString (time a)
    /\ Js.lookup "description" props = JString (description a)
    /\ Js.lookup "location" props = JString (location a)
    /\ (1 <= String.length (time a))%nat
    /\ (10 <= String.length (description a))%nat
    /\ (1 <= String.length (location a))%nat.
Proof.
  unfold ActivitySchema. destruct v; try discriminate.
  destruct (string_min 1 _ _ (Js.lookup "time" props)) as [t|] eqn:Ht; [|discriminate].
  destruct (string_min 10 _ _ (Js.lookup "description" props)) as [d|] eqn:Hd; [|discriminate].
  destruct (string_min 1 _ _ (Js.lookup "location" props)) as [l|] eqn:Hl; [|discriminate].
  intros H; inversion H; subst; simpl.
  apply string_min_valid in Ht, Hd, Hl. exists props. intuition.
Qed.

(** An integer-valued rational is the image of its floor. *)
Lemma isInteger_floor q :
  JsNumber.isInteger (Num q) = true -> (q == inject_Z (Qfloor q))%Q.
Proof.
  unfold JsNumber.isInteger. intros H. apply Pos.eqb_eq in H.
  rewrite <- (Qred_correct q) at 1.
  assert (Hf : Qfloor q = Qfloor (Qred q)) by (apply Qfloor_comp; symmetry; apply Qred_correct).
  rewrite Hf. destruct (Qred q) as [num den]. simpl in H. subst den.
  unfold Qfloor, inject_Z, Qeq. simpl. rewrite Z.div_1_r. reflexivity.
Qed.

Lemma number_int_positive_valid msg p v z :
  number_int_positive msg p v = Valid z ->
  exists q, v = JNumber (Num q) /\ (q == inject_Z z)%Q /\ 0 < z.
Proof.
  unfold number_int_positive. destruct v; try discriminate.
  destruct n as [|q]; [discriminate|].
  destruct (JsNumber.isInteger (Num q)) eqn:Hi; [|discriminate].
  destruct (JsNumber.gt (Num q) (JsNumber.ofZ 0)) eqn:Hp; [|discriminate].
  simpl. intros H; inversion H; subst.
  exists q. pose proof (isInteger_floor q Hi) as Hq. repeat split; trivial.
  unfold JsNumber.gt, JsNumber.lt, JsNumber.ofZ in Hp.
  apply negb_true_iff in Hp.
  destruct (Z_lt_le_dec 0 (Qfloor q)) as [|Hle]; [assumption|exfalso].
  assert (Hq0 : (q <= inject_Z 0)%Q).
  { rewrite Hq. rewrite <- Zle_Qle. exact Hle. }
  apply Qle_bool_iff in Hq0. congruence.
Qed.

Lemma DaySchema_valid p v d :
  DaySchema p v = Valid d ->
  exists props q, v = JObject props
    /\ Js.lookup "day" props = JNumber (Num q) /\ (q == inject_Z (day d))%Q /\ 0 < day d
    /\ exists acts, Js.lookup "activities" props = JArray acts
         /\ Forall2 (fun v a => exists q, ActivitySchema q v = Valid a) acts (activities d).
Proof.
  unfold DaySchema. destruct v; try discriminate.
  destruct (number_int_positive _ _ (Js.lookup "day" props)) as [n|] eqn:Hn; [|discriminate].
  destruct (string_min 1 _ _ (Js.lookup "theme" props)) as [t|] eqn:Ht; [|discriminate].
  destruct (array_min ActivitySchema 1 _ _ (Js.lookup "activities" props)) as [a|] eqn:Ha;
    [|discriminate].
  intros H; inversion H; subst; simpl.
  apply number_int_positive_valid in Hn as (q & Hq & Hz & Hpos).
  apply array_min_valid in Ha as (acts & Hacts & _ & Hall).
  exists props, q. eauto 10.
Qed.

Lemma ItinerarySchema_valid v days :
  ItinerarySchema v = Valid days ->
  exists vs, v = JArray vs /\ (1 <= List.length vs)%nat
    /\ Forall2 (fun v d => exists q, DaySchema q v = Valid d) vs days.
Proof. apply array_min_valid. Qed.

Lemma daySequenceError_none days :
  forall i, daySequenceError days i = None ->
    forall k d, days !! k = Some d -> day d = i + Z.of_nat k + 1.
Proof.
  induction days as [|d0 days IH]; intros i H k d Hk.
  - destruct k; discriminate.
  - simpl in H. destruct (Z.eqb_spec (day d0) (i + 1)) as [E|E]; simpl in H; [|discriminate].
    destruct k as [|k]; simpl in Hk.
    + inversion Hk; subst. lia.
    + rewrite (IH _ H k d Hk). lia.
Qed.

(** What a successful validation says about the candidate it was given. *)
Lemma validateItinerary_ok candidate n days :
  validateItinerary candidate n = Ok days ->
  exists vs, candidate = JArray vs
    /\ Z.of_nat (List.length vs) = n
    /\ Forall2 (fun v d => exists q, DaySchema q v = Valid d) vs days
    /\ forall k d, days !! k = Some d -> day d = Z.of_nat k + 1.
Proof.
  unfold validateItinerary.
  destruct (ItinerarySchema candidate) as [validated|] eqn:Hs; [|discriminate].
  destruct (Z.eqb_spec (Z.of_nat (List.length validated)) n) as [Hlen|]; simpl; [|discriminate].
  destruct (daySequenceError validated 0) eqn:Hseq; [discriminate|].
  intros H; inversion H; subst validated.
  apply ItinerarySchema_valid in Hs as (vs & -> & _ & Hall).
  exists vs. repeat split; trivial.
  - rewrite (Forall2_length _ _ _ Hall). exact Hlen.
  - intros k d Hk. rewrite (daySequenceError_none _ _ Hseq k d Hk). lia.
Qed.

Lemma ActivitySchema_description p v a :
  ActivitySchema p v = Valid a -> descriptionShorterThan 10 v = false.
Proof.
  intros H. apply ActivitySchema_valid in H as (props & -> & _ & Hd & _ & _ & Hlen & _).
  unfold descriptionShorterThan. simpl. rewrite Hd. apply Nat.ltb_ge. exact Hlen.
Qed.

Lemma DaySchema_descriptions p v d :
  DaySchema p v = Valid d -> dayHasDescriptionShorterThan 10 v = false.
Proof.
  intros H. apply DaySchema_valid in H as (props & q & -> & _ & _ & _ & acts & Ha & Hall).
  unfold dayHasDescriptionShorterThan. simpl. rewrite Ha.
  clear Ha. induction Hall as [|v a vs l [q' Hv] _ IH]; simpl; [reflexivity|].
  rewrite (ActivitySchema_description _ _ _ Hv). exact IH.
Qed.

(** C4. Validation succeeds only if the candidate is a sequence of exactly
    [n] elements whose [day] fields are 1, 2, ..., [n] in this order; the
    candidate with days 1 and 3 fails for [n = 2] with the day-sequence
    message. *)
Theorem validation_mirrors_position (candidate : JSValue) (n : Z) (days : list Day) :
  validateItinerary candidate n = Ok days ->
  (exists elements : list JSValue,
      candidate = JArray elements
      /\ Z.of_nat (List.length elements) = n
      /\ forall (i : nat) (element : JSValue), elements !! i = Some element ->
           exists q, propOf "day" element = JNumber (Num q)
                     /\ (q == inject_Z (Z.of_nat i + 1))%Q)
  /\ validateItinerary
       (JArray [Sample.dayNumbered 1 Sample.longText; Sample.dayNumbered 3 Sample.longText]) 2
     = Throw "Day sequence error: expected day 2, got day 3".
Proof.
  intros H. split; [|reflexivity].
  apply validateItinerary_ok in H as (vs & -> & Hlen & Hall & Hseq).
  exists vs. repeat split; trivial.
  intros i element Hi.
  destruct (Forall2_lookup_l _ _ _ _ _ Hall Hi) as (d & Hd & q' & Hv).
  apply DaySchema_valid in Hv as (props & q & -> & Hday & Hq & _).
  exists q. split; [exact Hday|].
  rewrite <- (Hseq i d Hd). exact Hq.
Qed.

Lemma validation_mirrors_position_witness :
  exists elements : list JSValue,
    JArray [Sample.dayNumbered 1 Sample.longText; Sample.dayNumbered 2 Sample.longText]
      = JArray elements
    /\ Z.of_nat (List.length elements) = 2.
Proof.
  destruct (validation_mirrors_position
              (JArray [Sample.dayNumbered 1 Sample.longText;
                       Sample.dayNumbered 2 Sample.longText]) 2
              [ mkDay 1 "Landmarks" [mkActivity "Morning" Sample.longText "Eiffel Tower"];
                mkDay 2 "Landmarks" [mkActivity "Morning" Sample.longText "Eiffel Tower"] ]
              eq_refl) as [(elements & He & Hn & _) _].
  exists elements. split; assumption.
Defined.

(** C2, as the code has it. Validation fails whenever some activity's
    description has fewer than 10 characters. *)
Theorem short_description_rejected (candidate : JSValue) (n : Z) :
  someDescriptionShorterThan 10 candidate = true ->
  exists message, validateItinerary candidate n = Throw message.
Proof.
  intros Hshort. destruct (validateItinerary candidate n) as [days|message] eqn:H; [|eauto].
  exfalso. apply validateItinerary_ok in H as (vs & -> & _ & Hall & _).
  simpl in Hshort.
  assert (Hnone : existsb (dayHasDescriptionShorterThan 10) vs = false).
  { clear Hshort. induction Hall as [|v d vs' l [q Hv] _ IH]; simpl; [reflexivity|].
    rewrite (DaySchema_descriptions _ _ _ Hv). exact IH. }
  congruence.
Qed.

Lemma short_description_rejected_witness :
  someDescriptionShorterThan 10 (JArray [Sample.dayNumbered 1 Sample.text9]) = true
  /\ exists message,
       validateItinerary (JArray [Sample.dayNumbered 1 Sample.text9]) 1 = Throw message.
Proof.
  split; [reflexivity|].
  apply (short_description_rejected (JArray [Sample.dayNumbered 1 Sample.text9]) 1).
  reflexivity.
Defined.

(** C2, as the specification states it, fails: a description of fifteen
    characters is below the floor of 20 and the candidate is accepted. *)
Lemma description_of_15_accepted :
  someDescriptionShorterThan 20 (JArray [Sample.dayNumbered 1 Sample.text15]) = true
  /\ validateItinerary (JArray [Sample.dayNumbered 1 Sample.text15]) 1
     = Ok [mkDay 1 "Landmarks" [mkActivity "Morning" Sample.text15 "Eiffel Tower"]].
Proof. split; reflexivity. Qed.

End Validation.

(** ** Retries *)

Section Retries.

Context {runtime : Runtime}.

Lemma getAccessToken_step key k w :
  getAccessToken key k w =
    match getAccessToken_attempt key w with
    | (Ok token, w1) => (Ok token, w1)
    | (Throw error, w1) =>
        if (k <=? RETRY_CONFIG.maxRetries)%Z
        then getAccessToken key (k + 1) (record (Slept (calculateDelay k)) w1)
        else (Throw ("Failed to get access token after "
                     +:+ JsNumber.toString (RETRY_CONFIG.maxRetries + 1)
                     +:+ " attempts: " +:+ error), w1)
    end.
Proof.
  rewrite getAccessToken_equation_1. unfold tryCatch.
  destruct (getAccessToken_attempt key w) as [[token|error] w1]; [reflexivity|].
  destruct (Z_le_dec k RETRY_CONFIG.maxRetries) as [Hle|Hgt].
  - apply Z.leb_le in Hle. rewrite Hle. reflexivity.
  - apply Z.nle_gt, Z.leb_gt in Hgt. rewrite Hgt. reflexivity.
Qed.

Lemma generateItinerary_step destination n apiKey k w :
  generateItinerary destination n apiKey k w =
    match generateItinerary_attempt n w with
    | (Ok itinerary, w1) => (Ok itinerary, w1)
    | (Throw error, w1) =>
        if (k <=? RETRY_CONFIG.maxRetries)%Z && isRetryableError error
        then generateItinerary destination n apiKey (k + 1)
               (record (Slept (calculateDelay k)) w1)
        else (Throw ("Failed to generate itinerary after " +:+ JsNumber.toString k
                     +:+ " attempts: " +:+ error), w1)
    end.
Proof.
  rewrite generateItinerary_equation_1. unfold tryCatch.
  destruct (generateItinerary_attempt n w) as [[itinerary|error] w1]; [reflexivity|].
  destruct (Z_le_dec k RETRY_CONFIG.maxRetries) as [Hle|Hgt].
  - apply Z.leb_le in Hle. rewrite Hle. simpl.
    destruct (isRetryableError error); reflexivity.
  - apply Z.nle_gt, Z.leb_gt in Hgt. rewrite Hgt. reflexivity.
Qed.

Lemma getAccessToken_retry key k w error w1 :
  getAccessToken_attempt key w = (Throw error, w1) -> k <= RETRY_CONFIG.maxRetries ->
  getAccessToken key k w
    = getAccessToken key (k + 1) (record (Slept (calculateDelay k)) w1).
Proof.
  intros H Hk. rewrite getAccessToken_step, H.
  apply Z.leb_le in Hk. rewrite Hk. reflexivity.
Qed.

Lemma getAccessToken_exhausted key k w error w1 :
  getAccessToken_attempt key w = (Throw error, w1) -> RETRY_CONFIG.maxRetries < k ->
  getAccessToken key k w
    = (Throw ("Failed to get access token after 4 attempts: " +:+ error), w1).
Proof.
  intros H Hk. rewrite getAccessToken_step, H.
  apply Z.leb_gt in Hk. rewrite Hk. reflexivity.
Qed.

Lemma getAccessToken_done key k w token w1 :
  getAccessToken_attempt key w = (Ok token, w1) -> getAccessToken key k w = (Ok token, w1).
Proof. intros H. rewrite getAccessToken_step, H. reflexivity. Qed.

Lemma sleeps_app j1 j2 : sleeps (j1 ++ j2) = sleeps j1 ++ sleeps j2.
Proof. unfold sleeps. apply flat_map_app. Qed.

Lemma totalSleep_app j1 j2 : totalSleep (j1 ++ j2) = totalSleep j1 + totalSleep j2.
Proof.
  unfold totalSleep. rewrite sleeps_app.
  induction (sleeps j1) as [|x l IH]; simpl; [reflexivity|]. rewrite IH. lia.
Qed.

(** The outcome of an attempt whose credentials parse and sign. *)
Lemma getAccessToken_attempt_signed key serviceAccount jwt w :
  JSON_parse key = Ok serviceAccount -> createJWT serviceAccount = Ok jwt ->
  getAccessToken_attempt key w =
    (match deliver (head (tokenEndpoint w)) with
     | Throw m => Throw m
     | Ok response =>
         if negb (ok response)
         then Throw ("Token exchange failed: " +:+ JsNumber.toString (status response)
                     +:+ " - " +:+ text response)
         else match body response with
              | Throw m => Throw m
              | Ok data => getProp data "access_token"
              end
     end, snd (fetchToken w)).
Proof.
  intros Hparse Hsign. unfold getAccessToken_attempt, bind, lift, throw.
  rewrite Hparse, Hsign. unfold fetchToken at 1. simpl.
  destruct (deliver (head (tokenEndpoint w))) as [response|m]; [|reflexivity].
  destruct (ok response); simpl; [|reflexivity].
  destruct (body response); reflexivity.
Qed.

Lemma exchangeFails_attempt key serviceAccount jwt o rest w :
  JSON_parse key = Ok serviceAccount -> createJWT serviceAccount = Ok jwt ->
  tokenEndpoint w = o :: rest -> exchangeFails o = true ->
  exists error, getAccessToken_attempt key w = (Throw error, snd (fetchToken w)).
Proof.
  intros Hparse Hsign Hw Hfail.
  rewrite (getAccessToken_attempt_signed _ _ _ _ Hparse Hsign), Hw. simpl.
  destruct o as [m|r]; simpl in *; [eauto|].
  rewrite Hfail. eauto.
Qed.

Lemma calculateDelay_capped k : 6 <= k -> calculateDelay k = RETRY_CONFIG.maxDelay.
Proof.
  intros Hk. unfold calculateDelay, RETRY_CONFIG.baseDelay, RETRY_CONFIG.backoffFactor,
    RETRY_CONFIG.maxDelay.
  assert (H : 2 ^ 5 <= 2 ^ (k - 1)) by (apply Z.pow_le_mono_r; lia).
  change (2 ^ 5) with 32 in H. lia.
Qed.

(** C7. The delay before the retry that follows attempt [k >= 1] is
    [min(baseDelay * backoffFactor^(k-1), maxDelay)], a function of [k]
    alone: 1000 ms doubled at each attempt and held at 30000 ms from the
    sixth on.  When the token exchange fails twice and then succeeds, token
    acquisition returns the token of the third answer and has slept 1000 ms
    and then 2000 ms, 3000 ms in all. *)
Theorem backoff_schedule (k : Z) (key : string) (serviceAccount : JSValue) (jwt : string)
    (o1 o2 : FetchOutcome) (r : Response JSValue) (rest : list FetchOutcome)
    (data token : JSValue) (w : World) :
  1 <= k ->
  JSON_parse key = Ok serviceAccount -> createJWT serviceAccount = Ok jwt ->
  tokenEndpoint w = o1 :: o2 :: Responded r :: rest ->
  exchangeFails o1 = true -> exchangeFails o2 = true ->
  ok r = true -> body r = Ok data -> getProp data "access_token" = Ok token ->
  calculateDelay k = Z.min (1000 * 2 ^ (k - 1)) 30000
  /\ (6 <= k -> calculateDelay k = 30000)
  /\ exists w', getAccessToken key 1 w = (Ok token, w')
       /\ sleeps (journal w') = sleeps (journal w) ++ [1000; 2000]
       /\ totalSleep (journal w') = totalSleep (journal w) + 3000
       /\ tokenEndpoint w' = rest.
Proof.
  intros _ Hparse Hsign Hw Hf1 Hf2 Hok Hbody Htoken. split; [reflexivity|].
  split; [apply calculateDelay_capped|].
  destruct (exchangeFails_attempt key _ _ o1 _ w Hparse Hsign Hw Hf1) as [e1 H1].
  rewrite (getAccessToken_retry _ _ _ _ _ H1) by (unfold RETRY_CONFIG.maxRetries; lia).
  set (w1 := record (Slept (calculateDelay 1)) (snd (fetchToken w))).
  assert (Hw1 : tokenEndpoint w1 = o2 :: Responded r :: rest) by (simpl; rewrite Hw; reflexivity).
  destruct (exchangeFails_attempt key _ _ o2 _ w1 Hparse Hsign Hw1 Hf2) as [e2 H2].
  rewrite (getAccessToken_retry _ _ _ _ _ H2) by (unfold RETRY_CONFIG.maxRetries; lia).
  set (w2 := record (Slept (calculateDelay (1 + 1))) (snd (fetchToken w1))).
  assert (Hw2 : tokenEndpoint w2 = Responded r :: rest) by (simpl; rewrite Hw; reflexivity).
  assert (H3 : getAccessToken_attempt key w2 = (Ok token, snd (fetchToken w2))).
  { rewrite (getAccessToken_attempt_signed _ _ _ _ Hparse Hsign), Hw2.
    simpl. rewrite Hok, Hbody, Htoken. reflexivity. }
  rewrite (getAccessToken_done _ _ _ _ _ H3).
  eexists. split; [reflexivity|]. simpl. rewrite Hw. simpl.
  repeat split.
  - rewrite !sleeps_app. simpl. rewrite !app_nil_r, <- !app_assoc. reflexivity.
  - rewrite !totalSleep_app. unfold totalSleep. simpl.
    change (calculateDelay 1) with 1000. change (calculateDelay (1 + 1)) with 2000. lia.
Qed.

(** Unparseable credential material fails every attempt without a
    request to the endpoint. *)
Lemma getAccessToken_attempt_unparseable key parseError w :
  JSON_parse key = Throw parseError ->
  getAccessToken_attempt key w = (Throw parseError, w).
Proof.
  intros H. unfold getAccessToken_attempt, bind, lift. rewrite H. reflexivity.
Qed.

(** C5, as the code has it. Token acquisition retries after every failure,
    whatever its kind: when attempt [k <= maxRetries] fails, the worker
    sleeps [calculateDelay k] and makes attempt [k + 1]; the failure of a
    later attempt is propagated with the count of 4 attempts.  In particular
    credential material that does not parse is parsed four times, with
    sleeps of 1000, 2000 and 4000 ms in between. *)
Theorem token_failures_always_retried (key : string) (k : Z) (w : World)
    (error : string) (w1 : World) :
  getAccessToken_attempt key w = (Throw error, w1) ->
  (k <= RETRY_CONFIG.maxRetries ->
     getAccessToken key k w
       = getAccessToken key (k + 1) (record (Slept (calculateDelay k)) w1))
  /\ (RETRY_CONFIG.maxRetries < k ->
        getAccessToken key k w
          = (Throw ("Failed to get access token after 4 attempts: " +:+ error), w1))
  /\ (JSON_parse key = Throw error ->
        getAccessToken key 1 w
          = (Throw ("Failed to get access token after 4 attempts: " +:+ error),
             record (Slept 4000) (record (Slept 2000) (record (Slept 1000) w)))).
Proof.
  intros H. split; [|split].
  - intros Hk. exact (getAccessToken_retry _ _ _ _ _ H Hk).
  - intros Hk. exact (getAccessToken_exhausted _ _ _ _ _ H Hk).
  - intros Hparse.
    pose proof (fun w' => getAccessToken_attempt_unparseable key error w' Hparse) as Hfail.
    rewrite (getAccessToken_retry _ _ _ _ _ (Hfail w))
      by (unfold RETRY_CONFIG.maxRetries; lia).
    rewrite (getAccessToken_retry _ _ _ _ _ (Hfail _))
      by (unfold RETRY_CONFIG.maxRetries; lia).
    rewrite (getAccessToken_retry _ _ _ _ _ (Hfail _))
      by (unfold RETRY_CONFIG.maxRetries; lia).
    rewrite (getAccessToken_exhausted _ _ _ _ _ (Hfail _))
      by (unfold RETRY_CONFIG.maxRetries; lia).
    reflexivity.
Qed.

Lemma requestCompletion_journal w r w1 :
  requestCompletion w = (r, w1) -> journal w1 = journal w ++ [ModelInvoked].
Proof.
  unfold requestCompletion, bind, fetchModel, lift, throw. simpl.
  destruct (deliver (head (modelEndpoint w))) as [response|m].
  - repeat match goal with
           | |- context [if ?b then _ else _] => destruct b
           | |- context [match ?c with Ok _ => _ | Throw _ => _ end] => destruct c
           end; intros H; inversion H; reflexivity.
  - intros H; inversion H; reflexivity.
Qed.

Lemma modelInvocations_app j1 j2 :
  modelInvocations (j1 ++ j2) = (modelInvocations j1 + modelInvocations j2)%nat.
Proof. unfold modelInvocations. rewrite List.filter_app, length_app. reflexivity. Qed.

Lemma generateItinerary_attempt_content n w content w1 error :
  requestCompletion w = (Ok content, w1) -> parseItinerary content n = Throw error ->
  generateItinerary_attempt n w = (Throw error, w1).
Proof.
  intros Hreq Hparse. unfold generateItinerary_attempt, bind, lift.
  rewrite Hreq, Hparse. reflexivity.
Qed.

(** C3, as the code has it. When the text of a reply fails to parse or to
    validate at attempt [k], the model is invoked again only if
    [k <= maxRetries] and the message of the failure contains one of the
    markers of [isRetryableError]; otherwise the failure is propagated at
    once, wrapped with the count of attempts, after the one invocation of
    this attempt. *)
Theorem content_failure_retry_rule (destination : string) (n : Z) (apiKey : string) (k : Z)
    (w : World) (content : string) (w1 : World) (error : string) :
  requestCompletion w = (Ok content, w1) ->
  parseItinerary content n = Throw error ->
  generateItinerary destination n apiKey k w
    = (if (k <=? RETRY_CONFIG.maxRetries)%Z && isRetryableError error
       then generateItinerary destination n apiKey (k + 1)
              (record (Slept (calculateDelay k)) w1)
       else (Throw ("Failed to generate itinerary after " +:+ JsNumber.toString k
                    +:+ " attempts: " +:+ error), w1))
  /\ modelInvocations (journal w1) = S (modelInvocations (journal w)).
Proof.
  intros Hreq Hparse. split.
  - rewrite generateItinerary_step,
      (generateItinerary_attempt_content _ _ _ _ _ Hreq Hparse). reflexivity.
  - rewrite (requestCompletion_journal _ _ _ Hreq), modelInvocations_app.
    change (modelInvocations [ModelInvoked]) with 1%nat. lia.
Qed.

End Retries.

Lemma token_failures_always_retried_witness :
  getAccessToken (runtime := DemoRuntime.runtime) DemoRuntime.serviceAccountKey 1
    (Sample.world [Sample.refused 401 "invalid_grant"; Sample.granted "ya29.token"] [] [])
  = getAccessToken (runtime := DemoRuntime.runtime) DemoRuntime.serviceAccountKey 2
      (record (Slept 1000)
         (snd (fetchToken
            (Sample.world [Sample.refused 401 "invalid_grant"; Sample.granted "ya29.token"]
               [] [])))).
Proof.
  apply (token_failures_always_retried (runtime := DemoRuntime.runtime)
           DemoRuntime.serviceAccountKey 1
           (Sample.world [Sample.refused 401 "invalid_grant"; Sample.granted "ya29.token"] [] [])
           "Token exchange failed: 401 - invalid_grant" _ eq_refl).
  unfold RETRY_CONFIG.maxRetries. lia.
Defined.

(** C5, as the specification states it, fails: credential material that
    does not parse, and a 401 of the token endpoint, are both retried three
    times before the error is propagated. *)
Lemma token_retry_ignores_failure_kind :
  JSON_parse (Runtime := DemoRuntime.runtime) "not json" = Throw "Unexpected token in JSON"
  /\ sleeps (journal (snd (getAccessToken (runtime := DemoRuntime.runtime) "not json" 1
                             (Sample.world [] [] []))))
     = [1000; 2000; 4000]
  /\ (let run := getAccessToken (runtime := DemoRuntime.runtime) DemoRuntime.serviceAccountKey 1
                   (Sample.world (repeat (Sample.refused 401 "invalid_grant") 4) [] []) in
      fst run = Throw ("Failed to get access token after 4 attempts: "
                       +:+ "Token exchange failed: 401 - invalid_grant")
      /\ tokenRequests (journal (snd run)) = 4%nat
      /\ sleeps (journal (snd run)) = [1000; 2000; 4000]).
Proof. vm_compute. repeat split. Qed.

Lemma content_failure_retry_rule_witness :
  generateItinerary (runtime := DemoRuntime.runtime) "Paris" 1 "sk-demo" 1
    (Sample.world [] [Sample.completion "[]"; Sample.completion Sample.oneDayReply] [])
  = (Throw ("Failed to generate itinerary after 1 attempts: "
            +:+ "Validation failed: : Itinerary must have at least one day"),
     snd (fetchModel
            (Sample.world [] [Sample.completion "[]"; Sample.completion Sample.oneDayReply] []))).
Proof.
  apply (content_failure_retry_rule (runtime := DemoRuntime.runtime) "Paris" 1 "sk-demo" 1
           (Sample.world [] [Sample.completion "[]"; Sample.completion Sample.oneDayReply] [])
           "[]" _ "Validation failed: : Itinerary must have at least one day"
           eq_refl eq_refl).
Defined.

(** C3, as the specification states it, fails: at the first attempt, with
    three retries left, a reply that does not validate and a reply that does
    not parse are both propagated after a single invocation of the model,
    although the next reply of the model would have been accepted. *)
Lemma content_failures_not_retried :
  (let run := generateItinerary (runtime := DemoRuntime.runtime) "Paris" 1 "sk-demo" 1
                (Sample.world [] [Sample.completion "[]";
                                  Sample.completion Sample.oneDayReply] []) in
   fst run = Throw ("Failed to generate itinerary after 1 attempts: "
                    +:+ "Validation failed: : Itinerary must have at least one day")
   /\ modelInvocations (journal (snd run)) = 1%nat
   /\ modelEndpoint (snd run) = [Sample.completion Sample.oneDayReply])
  /\ (let run := generateItinerary (runtime := DemoRuntime.runtime) "Paris" 1 "sk-demo" 1
                   (Sample.world [] [Sample.completion "Sorry, no itinerary";
                                     Sample.completion Sample.oneDayReply] []) in
      fst run = Throw ("Failed to generate itinerary after 1 attempts: "
                       +:+ "JSON parsing failed: Unexpected token in JSON. "
                       +:+ "Content: Sorry, no itinerary")
      /\ modelInvocations (journal (snd run)) = 1%nat
      /\ modelEndpoint (snd run) = [Sample.completion Sample.oneDayReply])
  /\ fst (generateItinerary (runtime := DemoRuntime.runtime) "Paris" 1 "sk-demo" 1
            (Sample.world [] [Sample.completion Sample.oneDayReply] []))
     = Ok [mkDay 1 "Landmarks" [mkActivity "Morning" Sample.longText "Eiffel Tower"]].
Proof. vm_compute. repeat split. Qed.

Lemma backoff_schedule_witness :
  exists w',
    getAccessToken (runtime := DemoRuntime.runtime) DemoRuntime.serviceAccountKey 1
      (Sample.world [Rejected "fetch failed"; Sample.refused 503 "unavailable";
                     Sample.granted "ya29.token"] [] [])
    = (Ok (JString "ya29.token"), w')
    /\ sleeps (journal w') = [1000; 2000].
Proof.
  destruct (backoff_schedule (runtime := DemoRuntime.runtime) 1 DemoRuntime.serviceAccountKey
              (JObject [("project_id", JString "demo-project");
                        ("client_email", JString "worker@demo-project");
                        ("private_key", JString "MIIB")])
              "header.payload.signature"
              (Rejected "fetch failed") (Sample.refused 503 "unavailable")
              (mkResponse true 200 EmptyString (Ok (JObject [("access_token", JString "ya29.token")])))
              [] (JObject [("access_token", JString "ya29.token")]) (JString "ya29.token")
              (Sample.world [Rejected "fetch failed"; Sample.refused 503 "unavailable";
                             Sample.granted "ya29.token"] [] [])
              (Z.le_refl 1) eq_refl eq_refl eq_refl eq_refl eq_refl eq_refl eq_refl eq_refl)
    as (_ & _ & w' & Hrun & Hsleeps & _).
  exists w'. split; assumption.
Defined.

(** ** The wire format *)

Section Marshaling.

Lemma readDigits_string_of_uint d :
  forall acc seen,
    JsNumber.readDigits (NilEmpty.string_of_uint d) acc seen
    = (uintValue d acc, seen || negb (isNil d)).
Proof.
  induction d; intros acc seen;
    [ simpl; rewrite orb_false_r; reflexivity | .. ];
    cbn [NilEmpty.string_of_uint JsNumber.readDigits uintValue isNil negb];
    match goal with
    | |- context [JsNumber.isDigit ?c] => change (JsNumber.isDigit c) with true
    end;
    cbv iota; rewrite IHd, orb_true_r;
    match goal with
    | |- context [JsNumber.digitValue ?c] =>
        let v := eval vm_compute in (JsNumber.digitValue c) in
        change (JsNumber.digitValue c) with v
    end;
    rewrite ?Z.add_0_r; destruct d; reflexivity.
Qed.

Lemma uintValue_acc d :
  forall acc : positive, uintValue d (Zpos acc) = Zpos (Pos.of_uint_acc d acc).
Proof.
  induction d; intros acc; simpl; try reflexivity;
    rewrite <- IHd; f_equal; lia.
Qed.

Lemma uintValue_of_uint d : uintValue d 0 = Z.of_N (Pos.of_uint d).
Proof.
  induction d; simpl; try reflexivity; try exact IHd;
    rewrite <- uintValue_acc; reflexivity.
Qed.

Lemma readDigits_NilZero d :
  JsNumber.readDigits (NilZero.string_of_uint d) 0 false = (Z.of_uint d, true).
Proof.
  unfold Z.of_uint. rewrite <- uintValue_of_uint.
  destruct d; try reflexivity;
    unfold NilZero.string_of_uint; rewrite readDigits_string_of_uint; reflexivity.
Qed.

(** [parseInt] reads back the integer [toString] printed. *)
Lemma parseInt_toString z : JsNumber.parseInt (JsNumber.toString z) = JsNumber.ofZ z.
Proof.
  unfold JsNumber.toString. rewrite <- (DecimalZ.of_to z) at 2.
  destruct (Z.to_int z) as [d|d]; unfold JsNumber.parseInt.
  - assert (Hs : exists c rest, NilZero.string_of_uint d = String c rest
                   /\ JsString.isWhitespace c = false /\ c <> "-"%char /\ c <> "+"%char).
    { destruct d; simpl; eexists _, _; repeat split; discriminate. }
    destruct Hs as (c & rest & Hs & Hws & Hm & Hp).
    simpl NilZero.string_of_int.
    assert (Ht : JsString.trimStart (NilZero.string_of_uint d) = NilZero.string_of_uint d).
    { rewrite Hs. simpl. rewrite Hws. reflexivity. }
    rewrite Ht.
    assert (Hb : match NilZero.string_of_uint d with
                 | String "-" rest => (true, rest)
                 | String "+" rest => (false, rest)
                 | _ => (false, NilZero.string_of_uint d)
                 end = (false, NilZero.string_of_uint d)).
    { rewrite Hs.
      destruct c as [[|] [|] [|] [|] [|] [|] [|] [|]]; try reflexivity; congruence. }
    rewrite Hb, readDigits_NilZero. reflexivity.
  - simpl NilZero.string_of_int. simpl JsString.trimStart.
    cbv iota beta. rewrite readDigits_NilZero. reflexivity.
Qed.

(** Reads back one marshalled day, whichever of the two ways the reader
    takes to it. *)
Ltac read_back_day :=
  unfold firestoreDay, jsDay; simpl; rewrite parseInt_toString;
  match goal with
  | |- context [map ?f (map firestoreActivity ?l)] =>
      replace (map f (map firestoreActivity l)) with (map jsActivity l)
  end;
  [ reflexivity
  | rewrite map_map; apply map_ext; intros a; reflexivity ].

Lemma convert_day d :
  convertFromFirestoreFormat_value (firestoreDay d) = Some (jsDay d).
Proof. read_back_day. Qed.

Lemma convert_itinerary itinerary :
  convertFromFirestoreFormat_value (arrayValue (map firestoreDay itinerary))
  = Some (jsItinerary itinerary).
Proof.
  unfold jsItinerary. cbn [convertFromFirestoreFormat_value].
  do 2 f_equal. rewrite map_map. apply map_ext. intros d. read_back_day.
Qed.

Lemma datesAsStrings_itinerary itinerary :
  datesAsStrings (jsItinerary itinerary) = jsItinerary itinerary.
Proof.
  unfold jsItinerary. simpl. f_equal. rewrite map_map.
  apply map_ext. intros d. unfold jsDay. simpl.
  replace (map datesAsStrings (map jsActivity (activities d)))
    with (map jsActivity (activities d)); [reflexivity|].
  rewrite map_map. apply map_ext. intros a. reflexivity.
Qed.

(** C6, as the code has it. Reading back the fields the worker writes for
    a new job, or for one of its two terminal updates, gives the object the
    worker passed, with each timestamp as its ISO-8601 string: strings,
    integers, nulls, the sequence of days and their nested records come
    back as they were. *)
Theorem wire_round_trip (creation : JobCreation) (update : JobUpdate) :
  new_completedAt creation = None -> new_itinerary creation = None ->
  new_error creation = None ->
  terminalUpdate update = true ->
  convertFromFirestoreFormat (firestoreData_create creation) = rendered (jsJobCreation creation)
  /\ forall key : string,
       Js.lookup key (convertFromFirestoreFormat (firestoreData_update update))
       = Js.lookup key (rendered (jsJobUpdate update)).
Proof.
  intros Hc Hi He Ht. split.
  - unfold firestoreData_create, jsJobCreation, rendered. rewrite Hc, Hi, He. simpl.
    rewrite parseInt_toString. reflexivity.
  - unfold terminalUpdate in Ht.
    unfold firestoreData_update, jsJobUpdate, rendered.
    destruct (upd_itinerary update) as [itinerary|], (upd_error update) as [error|];
      try discriminate; try rewrite Ht;
      cbn [assign String.eqb Ascii.eqb Bool.eqb map fst snd jsNullable
           convertFromFirestoreFormat];
      rewrite ?convert_itinerary, ?datesAsStrings_itinerary;
      cbn [convertFromFirestoreFormat_value convertFromFirestoreFormat datesAsStrings];
      intros key; cbn [Js.lookup];
      repeat match goal with
             | |- context [String.eqb ?a key] =>
                 destruct (String.eqb_spec a key) as [<-|?]; [reflexivity|]
             end; reflexivity.
Qed.

End Marshaling.

Lemma wire_round_trip_witness :
  convertFromFirestoreFormat
    (firestoreData_create (mkJobCreation "processing" "Paris" 3 Sample.today None None None))
  = rendered (jsJobCreation (mkJobCreation "processing" "Paris" 3 Sample.today None None None)).
Proof.
  apply (wire_round_trip
           (mkJobCreation "processing" "Paris" 3 Sample.today None None None)
           (mkJobUpdate "failed" None Sample.today (Some "Generation failed: timeout"))
           eq_refl eq_refl eq_refl eq_refl).
Defined.

(** C6, as the specification states it, fails: the [createdAt] timestamp of
    a new job comes back as a string, not as the [Date] it was, so the
    document read back differs from the document written; and the reader
    has no branch for booleans, whose keys it drops. *)
Lemma timestamps_return_as_strings :
  let doc := mkJobCreation "processing" "Paris" 3 Sample.today None None None in
  Js.lookup "createdAt" (jsJobCreation doc) = JDate Sample.today
  /\ Js.lookup "createdAt" (convertFromFirestoreFormat (firestoreData_create doc))
     = JString "2026-01-15T09:30:00.000Z"
  /\ convertFromFirestoreFormat (firestoreData_create doc) <> jsJobCreation doc
  /\ convertFromFirestoreFormat [("flag", booleanValue true)] = [].
Proof.
  repeat split. intros H. discriminate H.
Qed.

(** ** Submissions *)

Section Submissions.

Context {runtime : Runtime}.



(** C10. When the body of a POST request is not valid JSON, the handler
    answers with status 500 and the message of the parse error; the world,
    and with it the store, is left as it was. *)
Theorem malformed_body_is_internal_error (request : Request) (env : Env) (w : World)
    (parseError : string) :
  method request = "POST" ->
  json request = Throw parseError ->
  fetch request env w
  = (Ok (mkReply 500 (JObject [ ("error", JString "Internal server error");
           ("message", JString "Failed to process request with enhanced error handling");
           ("details", JString parseError) ])), w).
Proof.
  intros Hm Hbody. unfold fetch. rewrite Hm. simpl.
  unfold fetch_POST, tryCatch, bind, lift. rewrite Hbody. reflexivity.
Qed.

End Submissions.


Lemma malformed_body_is_internal_error_witness :
  reply_status
    (match fst (fetch (runtime := DemoRuntime.runtime)
                  (mkRequest "POST" None "/" (Throw "Unexpected token in JSON"))
                  (mkEnv (Some DemoRuntime.serviceAccountKey) (Some "sk-demo"))
                  (Sample.world [] [] [])) with
     | Ok reply => reply
     | Throw _ => mkReply 0 JNull
     end) = 500.
Proof.
  rewrite (malformed_body_is_internal_error (runtime := DemoRuntime.runtime)
             (mkRequest "POST" None "/" (Throw "Unexpected token in JSON"))
             (mkEnv (Some DemoRuntime.serviceAccountKey) (Some "sk-demo"))
             (Sample.world [] [] []) "Unexpected token in JSON" eq_refl eq_refl).
  reflexivity.
Defined.

(** Submissions the handler refuses: a one-letter destination, a
    fractional duration, a duration of zero, a duration given as text. *)
Example refused_submissions :
  let submit body :=
    fst (fetch (runtime := DemoRuntime.runtime) (mkRequest "POST" None "/" (Ok body))
           (mkEnv (Some DemoRuntime.serviceAccountKey) (Some "sk-demo"))
           (Sample.world [Sample.granted "ya29.token"] [] [])) in
  submit (JObject [("destination", JString " P "); ("durationDays", Js.ofZ 3)])
  = Ok (clientInputError "destination is required and must be at least 2 characters long")
  /\ submit (JObject [("destination", JString "Paris");
                      ("durationDays", JNumber (Num (5 # 2)))])
     = Ok (clientInputError "durationDays must be an integer between 1 and 30")
  /\ submit (JObject [("destination", JString "Paris"); ("durationDays", Js.ofZ 0)])
     = Ok (clientInputError "durationDays must be an integer between 1 and 30")
  /\ submit (JObject [("destination", JString "Paris"); ("durationDays", JString "3")])
     = Ok (clientInputError "durationDays must be an integer between 1 and 30").
Proof. vm_compute. repeat split. Qed.

(** ** The job lifecycle *)

Section Frames.

Variable R : World -> World -> Prop.
Hypothesis R_refl : forall w, R w w.
Hypothesis R_trans : forall w1 w2 w3, R w1 w2 -> R w2 w3 -> R w1 w3.

Lemma respects_ret {A} (a : A) : respects R (ret a).
Proof. intros w. apply R_refl. Qed.

Lemma respects_throw {A} message : respects R (@throw A message).
Proof. intros w. apply R_refl. Qed.

Lemma respects_lift {A} (c : Completion A) : respects R (lift c).
Proof. intros w. apply R_refl. Qed.

Lemma respects_newDate : respects R newDate.
Proof. intros w. apply R_refl. Qed.

Lemma respects_bind {A B} (m : Async A) (k : A -> Async B) :
  respects R m -> (forall a, respects R (k a)) -> respects R (bind m k).
Proof.
  intros Hm Hk w. unfold bind. specialize (Hm w).
  destruct (m w) as [[a|message] w1]; simpl in *; [|exact Hm].
  eapply R_trans; [exact Hm | apply Hk].
Qed.

Lemma respects_tryCatch {A} (m : Async A) (handler : string -> Async A) :
  respects R m -> (forall e, respects R (handler e)) -> respects R (tryCatch m handler).
Proof.
  intros Hm Hh w. unfold tryCatch. specialize (Hm w).
  destruct (m w) as [[a|message] w1]; simpl in *; [exact Hm|].
  eapply R_trans; [exact Hm | apply Hh].
Qed.

Lemma respects_if {A} (b : bool) (m1 m2 : Async A) :
  respects R m1 -> respects R m2 -> respects R (if b then m1 else m2).
Proof. destruct b; trivial. Qed.

(** Induction over the attempts of a retry loop, from the last one down. *)
Lemma retry_induction (P : Z -> Prop) :
  (forall k, (k <= RETRY_CONFIG.maxRetries -> P (k + 1)) -> P k) -> forall k, P k.
Proof.
  intros step k.
  remember (Z.to_nat (RETRY_CONFIG.maxRetries + 1 - k)) as n eqn:Hn.
  revert k Hn. induction n as [|n IH]; intros k Hn; apply step; intros Hk.
  - unfold RETRY_CONFIG.maxRetries in *. lia.
  - apply IH. unfold RETRY_CONFIG.maxRetries in *. lia.
Qed.

End Frames.

Section Lifecycle.

Context {runtime : Runtime}.

Lemma writes_app j1 j2 : writes (j1 ++ j2) = writes j1 ++ writes j2.
Proof. unfold writes. apply flat_map_app. Qed.

Lemma scheduled_app j1 j2 : scheduled (j1 ++ j2) = scheduled j1 ++ scheduled j2.
Proof. unfold scheduled. apply flat_map_app. Qed.

Lemma calm_refl w : calm w w.
Proof. split; [reflexivity|]. exists []. rewrite app_nil_r. auto. Qed.

Lemma calm_trans w1 w2 w3 : calm w1 w2 -> calm w2 w3 -> calm w1 w3.
Proof.
  intros [Hd1 (es1 & Hj1 & Hw1 & Hs1)] [Hd2 (es2 & Hj2 & Hw2 & Hs2)].
  split; [congruence|]. exists (es1 ++ es2).
  rewrite Hj2, Hj1, <- app_assoc, writes_app, scheduled_app, Hw1, Hw2, Hs1, Hs2. auto.
Qed.

Lemma quiet_refl w : quiet w w.
Proof. split; [reflexivity | apply calm_refl]. Qed.

Lemma quiet_trans w1 w2 w3 : quiet w1 w2 -> quiet w2 w3 -> quiet w1 w3.
Proof.
  intros [Hf1 Hc1] [Hf2 Hc2]. split; [congruence | eapply calm_trans; eassumption].
Qed.

Lemma quiet_calm w w' : quiet w w' -> calm w w'.
Proof. intros [_ H]. exact H. Qed.

Lemma quiet_record e w :
  writes [e] = [] -> scheduled [e] = [] -> quiet w (record e w).
Proof.
  intros Hw Hs. split; [reflexivity|]. split; [reflexivity|]. exists [e]. auto.
Qed.

Lemma quiet_sleep ms : respects quiet (sleep ms).
Proof. intros w. apply quiet_record; reflexivity. Qed.

Lemma quiet_fetchToken : respects quiet fetchToken.
Proof.
  intros w. split; [reflexivity|]. split; [reflexivity|]. exists [TokenRequested]. auto.
Qed.

Lemma quiet_fetchModel : respects quiet fetchModel.
Proof.
  intros w. split; [reflexivity|]. split; [reflexivity|]. exists [ModelInvoked]. auto.
Qed.

Lemma calm_generateUUID : respects calm generateUUID.
Proof.
  intros w. unfold generateUUID. destruct (fillTemplate _ (randoms w)) as [uuid rs].
  split; [reflexivity|]. exists []. simpl. rewrite app_nil_r. auto.
Qed.

(** The identifier has the 36 characters of the template. *)
Lemma fillTemplate_length template :
  forall rs, String.length (fst (fillTemplate template rs)) = String.length template.
Proof.
  induction template as [|c rest IH]; intros rs; simpl; [reflexivity|].
  destruct (Ascii.eqb c "x" || Ascii.eqb c "y").
  - specialize (IH (tail rs)). destruct (fillTemplate rest (tail rs)). simpl in *. lia.
  - specialize (IH rs). destruct (fillTemplate rest rs). simpl in *. lia.
Qed.

Lemma generateUUID_length w uuid w' :
  generateUUID w = (Ok uuid, w') -> String.length uuid = 36%nat.
Proof.
  unfold generateUUID.
  pose proof (fillTemplate_length "xxxxxxxx-xxxx-4xxx-yxxx-xxxxxxxxxxxx" (randoms w)) as H.
  destruct (fillTemplate _ (randoms w)) as [filled rs]. simpl in H.
  intros E; inversion E; subst. exact H.
Qed.

(** Closes a goal [respects quiet m] for a straight-line [m]. *)
Ltac quiet_steps :=
  repeat first
    [ apply respects_ret; apply quiet_refl
    | apply respects_throw; apply quiet_refl
    | apply respects_lift; apply quiet_refl
    | apply quiet_sleep
    | apply quiet_fetchToken
    | apply quiet_fetchModel
    | apply respects_if
    | apply respects_bind; [apply quiet_trans | | intros ?]
    | apply respects_tryCatch; [apply quiet_trans | | intros ?] ].

Lemma quiet_getAccessToken_attempt key : respects quiet (getAccessToken_attempt key).
Proof. unfold getAccessToken_attempt. quiet_steps. Qed.

Lemma quiet_getAccessToken key : forall k, respects quiet (getAccessToken key k).
Proof.
  apply retry_induction. intros k IH w.
  rewrite getAccessToken_step.
  pose proof (quiet_getAccessToken_attempt key w) as Hq.
  destruct (getAccessToken_attempt key w) as [[token|error] w1]; simpl in *; [exact Hq|].
  destruct (Z.leb_spec k RETRY_CONFIG.maxRetries) as [Hk|Hk]; simpl; [|exact Hq].
  eapply quiet_trans; [exact Hq|].
  eapply quiet_trans; [|apply (IH Hk)]. apply quiet_record; reflexivity.
Qed.

Lemma quiet_requestCompletion : respects quiet requestCompletion.
Proof. unfold requestCompletion. quiet_steps. Qed.

Lemma quiet_generateItinerary_attempt n : respects quiet (generateItinerary_attempt n).
Proof. unfold generateItinerary_attempt. quiet_steps. Qed.

Lemma quiet_generateItinerary destination n apiKey :
  forall k, respects quiet (generateItinerary destination n apiKey k).
Proof.
  apply retry_induction. intros k IH w.
  rewrite generateItinerary_step.
  pose proof (quiet_generateItinerary_attempt n w) as Hq.
  destruct (generateItinerary_attempt n w) as [[itinerary|error] w1]; simpl in *; [exact Hq|].
  destruct (Z.leb_spec k RETRY_CONFIG.maxRetries) as [Hk|Hk]; simpl; [|exact Hq].
  destruct (isRetryableError error); simpl; [|exact Hq].
  eapply quiet_trans; [exact Hq|].
  eapply quiet_trans; [|apply (IH Hk)]. apply quiet_record; reflexivity.
Qed.

Lemma createFirestoreDocument_step projectId accessToken collection docId data k w :
  createFirestoreDocument projectId accessToken collection docId data k w =
    match createFirestoreDocument_attempt collection docId data w with
    | (Ok document, w1) => (Ok document, w1)
    | (Throw error, w1) =>
        if (k <=? RETRY_CONFIG.maxRetries)%Z && firestoreRetryable error
        then createFirestoreDocument projectId accessToken collection docId data (k + 1)
               (record (Slept (calculateDelay k)) w1)
        else (Throw error, w1)
    end.
Proof.
  rewrite createFirestoreDocument_equation_1. unfold tryCatch.
  destruct (createFirestoreDocument_attempt collection docId data w) as [[document|error] w1];
    [reflexivity|].
  destruct (Z_le_dec k RETRY_CONFIG.maxRetries) as [Hle|Hgt].
  - apply Z.leb_le in Hle. rewrite Hle. simpl.
    destruct (firestoreRetryable error); reflexivity.
  - apply Z.nle_gt, Z.leb_gt in Hgt. rewrite Hgt. reflexivity.
Qed.

Lemma updateFirestoreDocument_step projectId accessToken collection docId data k w :
  updateFirestoreDocument projectId accessToken collection docId data k w =
    match updateFirestoreDocument_attempt collection docId data w with
    | (Ok document, w1) => (Ok document, w1)
    | (Throw error, w1) =>
        if (k <=? RETRY_CONFIG.maxRetries)%Z && firestoreRetryable error
        then updateFirestoreDocument projectId accessToken collection docId data (k + 1)
               (record (Slept (calculateDelay k)) w1)
        else (Throw error, w1)
    end.
Proof.
  rewrite updateFirestoreDocument_equation_1. unfold tryCatch.
  destruct (updateFirestoreDocument_attempt collection docId data w) as [[document|error] w1];
    [reflexivity|].
  destruct (Z_le_dec k RETRY_CONFIG.maxRetries) as [Hle|Hgt].
  - apply Z.leb_le in Hle. rewrite Hle. simpl.
    destruct (firestoreRetryable error); reflexivity.
  - apply Z.nle_gt, Z.leb_gt in Hgt. rewrite Hgt. reflexivity.
Qed.

Lemma calm_consumeFault w : calm w (consumeFault w).
Proof. split; [reflexivity|]. exists [StoreCalled]. auto. Qed.

Lemma calm_record e w : writes [e] = [] -> scheduled [e] = [] -> calm w (record e w).
Proof. intros Hw Hs. apply quiet_calm, quiet_record; assumption. Qed.

Lemma calm_patched name fields w w1 w2 :
  calm w w1 -> patched name fields w1 w2 -> patched name fields w w2.
Proof.
  intros [Hd (es1 & Hj1 & Hw1 & Hs1)] (old & es2 & Hold & Hd2 & Hj2 & Hw2 & Hs2).
  exists old, (es1 ++ es2). rewrite <- Hd. repeat split; trivial.
  - rewrite Hj2, Hj1, app_assoc. reflexivity.
  - rewrite writes_app, Hw1, Hw2. reflexivity.
  - rewrite scheduled_app, Hs1, Hs2. reflexivity.
Qed.

Lemma patched_calm name fields w w1 w2 :
  patched name fields w w1 -> calm w1 w2 -> patched name fields w w2.
Proof.
  intros (old & es1 & Hold & Hd1 & Hj1 & Hw1 & Hs1) [Hd (es2 & Hj2 & Hw2 & Hs2)].
  exists old, (es1 ++ es2). repeat split; trivial.
  - congruence.
  - rewrite Hj2, Hj1, app_assoc. reflexivity.
  - rewrite writes_app, Hw1, Hw2. reflexivity.
  - rewrite scheduled_app, Hs1, Hs2. reflexivity.
Qed.

Lemma calm_created name fields w w1 w2 :
  calm w w1 -> created name fields w1 w2 -> created name fields w w2.
Proof.
  intros [Hd (es1 & Hj1 & Hw1 & Hs1)] (Hnone & Hd2 & es2 & Hj2 & Hw2 & Hs2).
  rewrite Hd in *. repeat split; trivial.
  exists (es1 ++ es2). repeat split.
  - rewrite Hj2, Hj1, !app_assoc. reflexivity.
  - rewrite writes_app, Hw1, Hw2. reflexivity.
  - rewrite scheduled_app, Hs1, Hs2. reflexivity.
Qed.

Lemma updateFirestoreDocument_attempt_outcome collection docId data w :
  updateOutcome (documentName collection docId) (firestoreData_update data) w
    (updateFirestoreDocument_attempt collection docId data w).
Proof.
  unfold updateFirestoreDocument_attempt, bind, storePatch, throw, lift.
  destruct (pendingFault w) as [[m|st tx]|]; simpl; try apply calm_consumeFault.
  destruct (documents w !! documentName collection docId) as [old|] eqn:Hold; simpl;
    [|apply calm_consumeFault].
  exists old, [StoreCalled; DocumentPatched (documentName collection docId)
                             (firestoreData_update data)].
  repeat split; trivial. simpl. rewrite <- app_assoc. reflexivity.
Qed.

Lemma createFirestoreDocument_attempt_outcome collection docId data w :
  createOutcome (documentName collection docId) (firestoreData_create data) w
    (createFirestoreDocument_attempt collection docId data w).
Proof.
  unfold createFirestoreDocument_attempt, bind, storeCreate, throw, lift.
  destruct (pendingFault w) as [[m|st tx]|]; simpl; try apply calm_consumeFault.
  destruct (documents w !! documentName collection docId) as [old|] eqn:Hold; simpl;
    [apply calm_consumeFault|].
  repeat split; trivial. exists [StoreCalled].
  repeat split; trivial. simpl. rewrite <- app_assoc. reflexivity.
Qed.

Lemma updateFirestoreDocument_outcome projectId accessToken collection docId data :
  forall k w,
    updateOutcome (documentName collection docId) (firestoreData_update data) w
      (updateFirestoreDocument projectId accessToken collection docId data k w).
Proof.
  apply (retry_induction (fun k => forall w, updateOutcome _ _ w
           (updateFirestoreDocument projectId accessToken collection docId data k w))).
  intros k IH w. rewrite updateFirestoreDocument_step.
  pose proof (updateFirestoreDocument_attempt_outcome collection docId data w) as H.
  destruct (updateFirestoreDocument_attempt collection docId data w) as [[document|error] w1];
    [exact H|].
  simpl in H.
  destruct (Z.leb_spec k RETRY_CONFIG.maxRetries) as [Hk|Hk]; simpl; [|exact H].
  destruct (firestoreRetryable error); simpl; [|exact H].
  specialize (IH Hk (record (Slept (calculateDelay k)) w1)).
  assert (Hc : calm w (record (Slept (calculateDelay k)) w1))
    by (eapply calm_trans; [exact H | apply calm_record; reflexivity]).
  destruct (updateFirestoreDocument _ _ _ _ _ (k + 1) _) as [[document|error'] w2]; simpl in *.
  - eapply calm_patched; eassumption.
  - eapply calm_trans; eassumption.
Qed.

Lemma createFirestoreDocument_outcome projectId accessToken collection docId data :
  forall k w,
    createOutcome (documentName collection docId) (firestoreData_create data) w
      (createFirestoreDocument projectId accessToken collection docId data k w).
Proof.
  apply (retry_induction (fun k => forall w, createOutcome _ _ w
           (createFirestoreDocument projectId accessToken collection docId data k w))).
  intros k IH w. rewrite createFirestoreDocument_step.
  pose proof (createFirestoreDocument_attempt_outcome collection docId data w) as H.
  destruct (createFirestoreDocument_attempt collection docId data w) as [[document|error] w1];
    [exact H|].
  simpl in H.
  destruct (Z.leb_spec k RETRY_CONFIG.maxRetries) as [Hk|Hk]; simpl; [|exact H].
  destruct (firestoreRetryable error); simpl; [|exact H].
  specialize (IH Hk (record (Slept (calculateDelay k)) w1)).
  assert (Hc : calm w (record (Slept (calculateDelay k)) w1))
    by (eapply calm_trans; [exact H | apply calm_record; reflexivity]).
  destruct (createFirestoreDocument _ _ _ _ _ (k + 1) _) as [[document|error'] w2]; simpl in *.
  - eapply calm_created; eassumption.
  - eapply calm_trans; eassumption.
Qed.

Lemma calm_taskOutcome name w w1 w2 :
  calm w w1 -> taskOutcome name w1 w2 -> taskOutcome name w w2.
Proof.
  intros Hc [H|(completedAt & [(error & H)|(itinerary & H)])].
  - left. eapply calm_trans; eassumption.
  - right. exists completedAt. left. exists error. eapply calm_patched; eassumption.
  - right. exists completedAt. right. exists itinerary. eapply calm_patched; eassumption.
Qed.

Lemma processItineraryGeneration_catch_outcome jobId key accessToken serviceAccount
    projectId error w :
  taskOutcome (documentName "itineraries" jobId) w
    (snd (processItineraryGeneration_catch jobId key accessToken serviceAccount
            projectId error w)).
Proof.
  unfold processItineraryGeneration_catch, tryCatch, bind.
  set (reacquire := if negb (Js.truthy accessToken) && Js.truthy serviceAccount
                    then getAccessToken key 1 else ret accessToken).
  assert (Hq : calm w (snd (reacquire w))).
  { apply quiet_calm. subst reacquire.
    destruct (negb (Js.truthy accessToken) && Js.truthy serviceAccount).
    - apply quiet_getAccessToken.
    - apply quiet_refl. }
  destruct (reacquire w) as [[token|e] w1]; simpl in *; [|left; exact Hq].
  destruct (Js.truthy token && Js.truthy projectId); simpl; [|left; exact Hq].
  unfold newDate.
  pose proof (updateFirestoreDocument_outcome projectId token "itineraries" jobId
                (failedUpdate (now w1) error) 1 w1) as Hu.
  fold (failedUpdate (now w1) error).
  destruct (updateFirestoreDocument projectId token "itineraries" jobId
              (failedUpdate (now w1) error) 1 w1) as [[document|e] w2]; simpl in *.
  - right. exists (now w1). left. exists error. eapply calm_patched; eassumption.
  - left. eapply calm_trans; eassumption.
Qed.

Lemma processItineraryGeneration_outcome jobId destination n key apiKey w :
  taskOutcome (documentName "itineraries" jobId) w
    (snd (processItineraryGeneration jobId destination n key apiKey w)).
Proof.
  unfold processItineraryGeneration, orElse, lift.
  destruct (JSON_parse key) as [serviceAccount|e];
    [|apply processItineraryGeneration_catch_outcome].
  destruct (getProp serviceAccount "project_id") as [projectId|e];
    [|apply processItineraryGeneration_catch_outcome].
  pose proof (quiet_calm _ _ (quiet_getAccessToken key 1 w)) as H1.
  destruct (getAccessToken key 1 w) as [[accessToken|e] w1]; simpl in H1;
    [|eapply calm_taskOutcome; [exact H1 | apply processItineraryGeneration_catch_outcome]].
  pose proof (quiet_calm _ _ (quiet_generateItinerary destination n apiKey 1 w1)) as H2.
  destruct (generateItinerary destination n apiKey 1 w1) as [[itinerary|e] w2]; simpl in H2;
    [|eapply calm_taskOutcome;
      [eapply calm_trans; eassumption | apply processItineraryGeneration_catch_outcome]].
  unfold bind, newDate.
  fold (completedUpdate (now w2) itinerary).
  pose proof (updateFirestoreDocument_outcome projectId accessToken "itineraries" jobId
                (completedUpdate (now w2) itinerary) 1 w2) as Hu.
  destruct (updateFirestoreDocument projectId accessToken "itineraries" jobId
              (completedUpdate (now w2) itinerary) 1 w2) as [[document|e] w3]; simpl in *.
  - right. exists (now w2). right. exists itinerary.
    eapply calm_patched; [eapply calm_trans; eassumption | exact Hu].
  - eapply calm_taskOutcome; [|apply processItineraryGeneration_catch_outcome].
    eapply calm_trans; [eapply calm_trans|]; eassumption.
Qed.





End Lifecycle.


(** A job from submission to completion: the submission creates the
    [processing] document and schedules the task; the task, served a
    well-formed reply, completes the job. *)
Example job_completes :
  let submission :=
    fetch (runtime := DemoRuntime.runtime)
      (mkRequest "POST" None "/"
         (Ok (JObject [("destination", JString " Paris "); ("durationDays", Js.ofZ 1)])))
      (mkEnv (Some DemoRuntime.serviceAccountKey) (Some "sk-demo"))
      (Sample.world [Sample.granted "ya29.a"; Sample.granted "ya29.b"]
                    [Sample.completion Sample.oneDayReply] []) in
  let name := documentName "itineraries" Sample.jobId in
  option_map statusOf (documents (snd submission) !! name) = Some "processing"
  /\ match scheduled (journal (snd submission)) with
     | [t] =>
         let w' := snd (runTask (runtime := DemoRuntime.runtime) t (snd submission)) in
         option_map statusOf (documents w' !! name) = Some "completed"
         /\ option_map (nonNull "itinerary") (documents w' !! name) = Some true
         /\ option_map (nonNull "error") (documents w' !! name) = Some false
         /\ option_map (fieldOf "destination") (documents w' !! name)
            = Some (Some (stringValue "Paris"))
     | _ => False
     end.
Proof. vm_compute. repeat split. Qed.

(** A job whose generation fails: the reply of the model has no days, the
    failure is not retried, and the task records it. *)
Example job_fails :
  let submission :=
    fetch (runtime := DemoRuntime.runtime)
      (mkRequest "POST" None "/"
         (Ok (JObject [("destination", JString "Paris"); ("durationDays", Js.ofZ 1)])))
      (mkEnv (Some DemoRuntime.serviceAccountKey) (Some "sk-demo"))
      (Sample.world [Sample.granted "ya29.a"; Sample.granted "ya29.b"]
                    [Sample.completion "[]"] [Some (Refused 503 "unavailable")]) in
  let name := documentName "itineraries" Sample.jobId in
  match scheduled (journal (snd submission)) with
  | [t] =>
      let w' := snd (runTask (runtime := DemoRuntime.runtime) t (snd submission)) in
      option_map statusOf (documents w' !! name) = Some "failed"
      /\ option_map (nonNull "itinerary") (documents w' !! name) = Some false
      /\ option_map (fieldOf "error") (documents w' !! name)
         = Some (Some (stringValue
             ("Generation failed: Failed to generate itinerary after 1 attempts: "
              +:+ "Validation failed: : Itinerary must have at least one day")))
      /\ sleeps (journal w') = [1000]
  | _ => False
  end.
Proof. vm_compute. repeat split. Qed.

(** ** Submission and status reads *)

Section Ordering.

Context {runtime : Runtime}.

Lemma fetch_POST_outcome request env w :
  exists reply w1,
    fetch_POST request env w = (Ok reply, w1) /\ submissionOutcome w reply w1.
Proof.
  unfold fetch_POST, tryCatch, bind, lift, ret, throw.
  assert (Hfail : forall (r : Reply) w1, reply_status r <> 202 -> calm w w1 ->
            exists reply w1', (Ok r, w1) = (Ok reply, w1') /\ submissionOutcome w reply w1').
  { intros r w1 Hr Hc. exists r, w1. split; [reflexivity|]. left. split; assumption. }
  destruct (json request) as [body|e];
    [|apply Hfail; [discriminate | apply calm_refl]].
  destruct (getProp body "destination") as [destination|e];
    [|apply Hfail; [discriminate | apply calm_refl]].
  destruct (getProp body "durationDays") as [durationDays|e];
    [|apply Hfail; [discriminate | apply calm_refl]].
  destruct (destinationRejected destination);
    [apply Hfail; [discriminate | apply calm_refl]|].
  destruct (durationDaysRejected durationDays);
    [apply Hfail; [discriminate | apply calm_refl]|].
  destruct (negb (configured (FIREBASE_SERVICE_ACCOUNT_KEY env))
            || negb (configured (OPENAI_API_KEY env)));
    [apply Hfail; [discriminate | apply calm_refl]|].
  destruct (JSON_parse (bindingValue (FIREBASE_SERVICE_ACCOUNT_KEY env))) as [serviceAccount|e];
    [|apply Hfail; [discriminate | apply calm_refl]].
  destruct (getProp serviceAccount "project_id") as [projectId|e];
    [|apply Hfail; [discriminate | apply calm_refl]].
  pose proof (quiet_calm _ _ (quiet_getAccessToken
                (bindingValue (FIREBASE_SERVICE_ACCOUNT_KEY env)) 1 w)) as H1.
  destruct (getAccessToken (bindingValue (FIREBASE_SERVICE_ACCOUNT_KEY env)) 1 w)
    as [[accessToken|e] w1]; simpl in H1;
    [|apply Hfail; [discriminate | exact H1]].
  pose proof (calm_generateUUID w1) as H2.
  destruct (generateUUID w1) as [[jobId|e] w2] eqn:Huuid; simpl in H2;
    [|apply Hfail; [discriminate | eapply calm_trans; eassumption]].
  unfold newDate.
  set (data := mkJobCreation "processing" (JsString.trim (stringOf destination))
                 (numberOf durationDays) (now w2) None None None).
  pose proof (createFirestoreDocument_outcome projectId accessToken "itineraries" jobId
                data 1 w2) as H3.
  destruct (createFirestoreDocument projectId accessToken "itineraries" jobId data 1 w2)
    as [[document|e] w3]; simpl in H3;
    [|apply Hfail; [discriminate | eapply calm_trans; [eapply calm_trans|]; eassumption]].
  unfold waitUntil.
  eexists _, _. split; [reflexivity|]. right.
  assert (H12 : calm w w2) by (eapply calm_trans; eassumption).
  destruct (calm_created _ _ _ _ _ H12 H3) as (Hnone & Hdocs & es & Hj & Hw & Hs).
  exists jobId, (JsString.trim (stringOf destination)), (numberOf durationDays),
    (bindingValue (FIREBASE_SERVICE_ACCOUNT_KEY env)), (bindingValue (OPENAI_API_KEY env)),
    (now w2), es.
  repeat split; trivial.
  - exact (generateUUID_length _ _ _ Huuid).
  - simpl. rewrite Hj, <- !app_assoc. reflexivity.
Qed.

Lemma calm_keeps_documents w w' (name : string) :
  calm w w' -> is_Some (documents w !! name) -> is_Some (documents w' !! name).
Proof. intros [Hd _] H. rewrite Hd. exact H. Qed.

Lemma insert_keeps_documents (docs : gmap string Fields) (name name' : string)
    (fields : Fields) :
  is_Some (docs !! name) -> is_Some (<[name' := fields]> docs !! name).
Proof.
  intros H. destruct (decide (name' = name)) as [->|Hne].
  - rewrite lookup_insert_eq. eauto.
  - rewrite lookup_insert_ne by exact Hne. exact H.
Qed.

(** A run of any background task removes no document. *)
Lemma runTask_keeps_documents t w (name : string) :
  is_Some (documents w !! name) -> is_Some (documents (snd (runTask t w)) !! name).
Proof.
  intros H. unfold runTask.
  destruct (processItineraryGeneration_outcome (task_jobId t) (task_destination t)
              (task_durationDays t) (task_serviceAccountKey t) (task_openaiApiKey t) w)
    as [Hc|(completedAt & [(error & Hp)|(itinerary & Hp)])].
  - eapply calm_keeps_documents; eassumption.
  - destruct Hp as (old & es & _ & Hd & _). rewrite Hd. apply insert_keeps_documents, H.
  - destruct Hp as (old & es & _ & Hd & _). rewrite Hd. apply insert_keeps_documents, H.
Qed.

Lemma calm_storeGet collection docId : respects calm (storeGet collection docId).
Proof.
  intros w. unfold storeGet.
  destruct (pendingFault w) as [f|]; [|destruct (documents w !! _)];
    apply calm_consumeFault.
Qed.

Lemma calm_getAccessToken key k : respects calm (getAccessToken key k).
Proof. intros w. apply quiet_calm, quiet_getAccessToken. Qed.

Lemma calm_fetch_GET request env : respects calm (fetch_GET request env).
Proof.
  unfold fetch_GET.
  repeat first
    [ apply respects_ret; apply calm_refl
    | apply respects_throw; apply calm_refl
    | apply respects_lift; apply calm_refl
    | apply calm_storeGet
    | apply calm_getAccessToken
    | apply respects_if
    | apply respects_bind; [apply calm_trans | | intros ?]
    | apply respects_tryCatch; [apply calm_trans | | intros ?] ].
Qed.

(** No request removes a document. *)
Lemma fetch_keeps_documents request env w (name : string) :
  is_Some (documents w !! name) ->
  is_Some (documents (snd (fetch request env w)) !! name).
Proof.
  intros H. unfold fetch.
  destruct (String.eqb (method request) "OPTIONS"); [exact H|].
  destruct (String.eqb (method request) "GET").
  { eapply calm_keeps_documents; [apply calm_fetch_GET | exact H]. }
  destruct (negb (String.eqb (method request) "POST")); [exact H|].
  destruct (fetch_POST_outcome request env w) as (reply & w1 & Hrun & Hout).
  rewrite Hrun. simpl.
  destruct Hout
    as [[_ Hc]|(jobId & d & n & key & apiKey & createdAt & es & _ & _ & _ & Hd & _)].
  - eapply calm_keeps_documents; eassumption.
  - rewrite Hd. apply insert_keeps_documents, H.
Qed.

(** A status read of a job whose document exists does not answer "not
    found", unless the store itself refuses the read with that status. *)
Lemma status_read_finds_document request env w (jobId : string) :
  method request = "GET" ->
  searchParams_jobId request = Some jobId -> jobId <> EmptyString ->
  is_Some (documents w !! documentName "itineraries" jobId) ->
  (forall tx, pendingFault w <> Some (Refused 404 tx)) ->
  forall reply w', fetch request env w = (Ok reply, w') -> reply_status reply <> 404.
Proof.
  intros Hm Hparam Hne [fields Hdoc] Hfault reply w'.
  unfold fetch. rewrite Hm. simpl.
  unfold fetch_GET. rewrite Hparam. cbv zeta.
  assert (Hj : String.eqb jobId EmptyString = false) by (apply String.eqb_neq; exact Hne).
  rewrite !Hj. cbn [orb].
  unfold tryCatch, bind, lift, ret, throw.
  destruct (String.eqb jobId "/"); [intros H; inversion H; subst; simpl; lia|].
  destruct (negb (configured (FIREBASE_SERVICE_ACCOUNT_KEY env)));
    [intros H; inversion H; subst; simpl; lia|].
  destruct (JSON_parse _) as [serviceAccount|e]; [|intros H; inversion H; subst; simpl; lia].
  pose proof (quiet_getAccessToken (bindingValue (FIREBASE_SERVICE_ACCOUNT_KEY env)) 1 w)
    as [Hf [Hd _]].
  destruct (getAccessToken _ 1 w) as [[accessToken|e] w1]; simpl in Hf, Hd;
    [|intros H; inversion H; subst; simpl; lia].
  destruct (getProp serviceAccount "project_id") as [projectId|e];
    [|intros H; inversion H; subst; simpl; lia].
  unfold storeGet.
  assert (Hp : pendingFault w1 = pendingFault w) by (unfold pendingFault; rewrite Hf; reflexivity).
  rewrite Hp, Hd, Hdoc.
  destruct (pendingFault w) as [[m|st tx]|] eqn:Hpf; simpl.
  - intros H; inversion H; subst; simpl; lia.
  - destruct (Z.eqb_spec st 404) as [->|_].
    + exfalso. exact (Hfault tx eq_refl).
    + simpl. intros H; inversion H; subst; simpl; lia.
  - intros H; inversion H; subst; simpl; lia.
Qed.

(** C9. A submission either is refused or fails, and then nothing is
    written to the store and nothing is scheduled; or it is answered with
    status 202 and the identifier of a new job, and then the [processing]
    document of the job has been created before the task is scheduled, as
    the last two effects of the handler.  From then on no task and no
    request removes the document, and a status read of the job does not
    answer "not found" unless the store refuses the read itself with that
    status. *)
Theorem processing_write_precedes_generation (request : Request) (env : Env)
    (w : World) (reply : Reply) (w1 : World) :
  method request = "POST" ->
  fetch request env w = (Ok reply, w1) ->
  (reply_status reply <> 202
   /\ documents w1 = documents w
   /\ writes (journal w1) = writes (journal w)
   /\ scheduled (journal w1) = scheduled (journal w))
  \/ exists (jobId : string) (t : Task) (fields : Fields) (es : list Event),
       let name := documentName "itineraries" jobId in
       reply = accepted jobId
       /\ String.length jobId = 36%nat
       /\ task_jobId t = jobId
       /\ journal w1 = journal w ++ es ++ [DocumentCreated name fields; Scheduled t]
       /\ writes es = [] /\ scheduled es = []
       /\ documents w1 !! name = Some fields
       /\ statusOf fields = "processing"
       /\ (forall t' w2, is_Some (documents w2 !! name) ->
              is_Some (documents (snd (runTask t' w2)) !! name))
       /\ (forall request' env' w2, is_Some (documents w2 !! name) ->
              is_Some (documents (snd (fetch request' env' w2)) !! name))
       /\ (forall request' env' w2 reply' w3,
              method request' = "GET" -> searchParams_jobId request' = Some jobId ->
              is_Some (documents w2 !! name) ->
              (forall tx, pendingFault w2 <> Some (Refused 404 tx)) ->
              fetch request' env' w2 = (Ok reply', w3) -> reply_status reply' <> 404).
Proof.
  intros Hm Hrun. unfold fetch in Hrun. rewrite Hm in Hrun. simpl in Hrun.
  destruct (fetch_POST_outcome request env w) as (reply0 & w0 & Hrun0 & Hout).
  rewrite Hrun0 in Hrun. inversion Hrun; subst reply0 w0. clear Hrun.
  destruct Hout as [[Hstatus [Hd (es & Hj & Hw & Hs)]]
                   |(jobId & d & n & key & apiKey & createdAt & es
                     & Hreply & Hlen & Hnone & Hd & Hj & Hw & Hs)].
  - left. repeat split; trivial.
    + rewrite Hj, writes_app, Hw, app_nil_r. reflexivity.
    + rewrite Hj, scheduled_app, Hs, app_nil_r. reflexivity.
  - right. exists jobId, (mkTask jobId d n key apiKey),
      (firestoreData_create (mkJobCreation "processing" d n createdAt None None None)), es.
    repeat split; trivial.
    + rewrite Hd. apply lookup_insert_eq.
    + intros t' w2. apply runTask_keeps_documents.
    + intros request' env' w2. apply fetch_keeps_documents.
    + intros request' env' w2 reply' w3 Hg Hp Hdoc Hf.
      assert (Hne : jobId <> EmptyString) by (intros ->; discriminate Hlen).
      exact (status_read_finds_document request' env' w2 jobId Hg Hp Hne Hdoc Hf reply' w3).
Qed.

End Ordering.

Lemma processing_write_precedes_generation_witness :
  exists (reply : Reply) (w1 : World),
    fetch (runtime := DemoRuntime.runtime)
      (mkRequest "POST" None "/"
         (Ok (JObject [("destination", JString "Paris"); ("durationDays", Js.ofZ 3)])))
      (mkEnv (Some DemoRuntime.serviceAccountKey) (Some "sk-demo"))
      (Sample.world [Sample.granted "ya29.a"] [] [])
    = (Ok reply, w1)
    /\ reply = accepted Sample.jobId
    /\ option_map statusOf (documents w1 !! documentName "itineraries" Sample.jobId)
       = Some "processing".
Proof.
  remember (fetch (runtime := DemoRuntime.runtime)
              (mkRequest "POST" None "/"
                 (Ok (JObject [("destination", JString "Paris"); ("durationDays", Js.ofZ 3)])))
              (mkEnv (Some DemoRuntime.serviceAccountKey) (Some "sk-demo"))
              (Sample.world [Sample.granted "ya29.a"] [] [])) as run eqn:Hrun.
  assert (Hr : fst run = Ok (accepted Sample.jobId)) by (rewrite Hrun; vm_compute; reflexivity).
  destruct run as [r w1]. simpl in Hr. subst r.
  exists (accepted Sample.jobId), w1. split; [reflexivity|].
  destruct (processing_write_precedes_generation (runtime := DemoRuntime.runtime)
              (mkRequest "POST" None "/"
                 (Ok (JObject [("destination", JString "Paris"); ("durationDays", Js.ofZ 3)])))
              (mkEnv (Some DemoRuntime.serviceAccountKey) (Some "sk-demo"))
              (Sample.world [Sample.granted "ya29.a"] [] [])
              (accepted Sample.jobId) w1 eq_refl (eq_sym Hrun))
    as [[Hstatus _]|(jobId & t & fields & es & Hreply & _ & _ & _ & _ & _ & Hdoc & Hs & _)].
  - exfalso. apply Hstatus. reflexivity.
  - inversion Hreply; subst jobId. split; [reflexivity|].
    rewrite Hdoc. simpl. rewrite Hs. reflexivity.
Defined.

(** * Further properties *)

(** ** The cost of the retry loops *)

Section RetryLoops.

Variable A : Type.
Variable attempt : Async A.
Variable loop : Z -> Async A.
Variable retryable : string -> bool.
Variable wrap : Z -> string -> string.

Hypothesis loop_step : forall k w,
  loop k w =
    match attempt w with
    | (Ok a, w1) => (Ok a, w1)
    | (Throw e, w1) =>
        if (k <=? RETRY_CONFIG.maxRetries)%Z && retryable e
        then loop (k + 1) (record (Slept (calculateDelay k)) w1)
        else (Throw (wrap k e), w1)
    end.

Variable count : list Event -> nat.
Hypothesis count_app : forall j1 j2, count (j1 ++ j2) = (count j1 + count j2)%nat.
Hypothesis count_slept : forall ms, count [Slept ms] = 0%nat.

Variable least : nat.
Hypothesis attempt_effort : forall w,
  exists es, journal (snd (attempt w)) = journal w ++ es
             /\ sleeps es = [] /\ (least <= count es <= 1)%nat.

(** A loop started at attempt [k] makes [m + 1] attempts for some [m] no
    larger than the retries left, sleeps the [m] delays that follow
    attempt [k] in order, and reports a failure with the number of the
    attempt that failed last. *)
Lemma loop_effort :
  forall k w,
    exists (m : nat) (es : list Event),
      journal (snd (loop k w)) = journal w ++ es
      /\ sleeps es = delaysFrom k m
      /\ Z.of_nat m <= Z.max 0 (RETRY_CONFIG.maxRetries + 1 - k)
      /\ (least * S m <= count es <= S m)%nat
      /\ forall e, fst (loop k w) = Throw e ->
           exists e0, e = wrap (k + Z.of_nat m) e0
                      /\ (RETRY_CONFIG.maxRetries < k + Z.of_nat m \/ retryable e0 = false).
Proof.
  apply (retry_induction (fun k => forall w, exists (m : nat) (es : list Event),
      journal (snd (loop k w)) = journal w ++ es
      /\ sleeps es = delaysFrom k m
      /\ Z.of_nat m <= Z.max 0 (RETRY_CONFIG.maxRetries + 1 - k)
      /\ (least * S m <= count es <= S m)%nat
      /\ forall e, fst (loop k w) = Throw e ->
           exists e0, e = wrap (k + Z.of_nat m) e0
                      /\ (RETRY_CONFIG.maxRetries < k + Z.of_nat m \/ retryable e0 = false))).
  intros k IH w. rewrite loop_step.
  destruct (attempt_effort w) as (es0 & Hj0 & Hs0 & Hc0).
  destruct (attempt w) as [[a|e0] w1]; simpl in Hj0.
  - exists 0%nat, es0. simpl. repeat split; trivial; try lia. discriminate.
  - destruct (Z.leb_spec k RETRY_CONFIG.maxRetries) as [Hk|Hk]; simpl.
    + destruct (retryable e0) eqn:Hr.
      * destruct (IH Hk (record (Slept (calculateDelay k)) w1))
          as (m & es & Hj & Hs & Hm & Hc & Hfail).
        exists (S m), (es0 ++ [Slept (calculateDelay k)] ++ es).
        split; [|split; [|split; [|split]]].
        -- rewrite Hj. simpl. rewrite Hj0, <- !app_assoc. reflexivity.
        -- rewrite !sleeps_app, Hs0, Hs. reflexivity.
        -- unfold RETRY_CONFIG.maxRetries in *. lia.
        -- rewrite !count_app, count_slept. nia.
        -- intros e He. destruct (Hfail e He) as (e1 & -> & Hwhy).
           exists e1. replace (k + Z.of_nat (S m)) with (k + 1 + Z.of_nat m) by lia.
           split; [reflexivity | exact Hwhy].
      * exists 0%nat, es0. simpl. repeat split; trivial; try lia.
        intros e He. inversion He. exists e0. rewrite Z.add_0_r. auto.
    + exists 0%nat, es0. simpl. repeat split; trivial; try lia.
      intros e He. inversion He. exists e0. rewrite Z.add_0_r. split; [reflexivity|].
      left. lia.
Qed.

(** What a loop returns, one of its attempts returned. *)
Lemma loop_result (Q : A -> Prop) :
  (forall w a w1, attempt w = (Ok a, w1) -> Q a) ->
  forall k w a w', loop k w = (Ok a, w') -> Q a.
Proof.
  intros Hattempt.
  apply (retry_induction (fun k => forall w a w', loop k w = (Ok a, w') -> Q a)).
  intros k IH w a w'. rewrite loop_step.
  destruct (attempt w) as [[a0|e0] w1] eqn:Ha.
  - intros H; inversion H; subst. eapply Hattempt; eassumption.
  - destruct (Z.leb_spec k RETRY_CONFIG.maxRetries) as [Hk|Hk]; simpl; [|discriminate].
    destruct (retryable e0); [|discriminate]. apply (IH Hk).
Qed.

End RetryLoops.

(** X4. The delay grows with the attempt number and stays between the
    base delay and the maximal delay. *)
Theorem calculateDelay_monotone (k1 k2 : Z) :
  1 <= k1 -> k1 <= k2 ->
  1000 <= calculateDelay k1 /\ calculateDelay k1 <= calculateDelay k2
  /\ calculateDelay k2 <= 30000.
Proof.
  intros H1 H12.
  unfold calculateDelay, RETRY_CONFIG.baseDelay, RETRY_CONFIG.backoffFactor,
    RETRY_CONFIG.maxDelay.
  assert (Ha : 0 < 2 ^ (k1 - 1)) by (apply Z.pow_pos_nonneg; lia).
  assert (Hb : 2 ^ (k1 - 1) <= 2 ^ (k2 - 1)) by (apply Z.pow_le_mono_r; lia).
  lia.
Qed.

Lemma calculateDelay_monotone_witness :
  1000 <= calculateDelay 2 /\ calculateDelay 2 <= calculateDelay 9
  /\ calculateDelay 9 <= 30000.
Proof. apply (calculateDelay_monotone 2 9); lia. Defined.

Section Effort.

Context {runtime : Runtime}.

Lemma tokenRequests_app j1 j2 :
  tokenRequests (j1 ++ j2) = (tokenRequests j1 + tokenRequests j2)%nat.
Proof. unfold tokenRequests. rewrite List.filter_app, length_app. reflexivity. Qed.

Lemma storeCalls_app j1 j2 : storeCalls (j1 ++ j2) = (storeCalls j1 + storeCalls j2)%nat.
Proof. unfold storeCalls. rewrite List.filter_app, length_app. reflexivity. Qed.

Lemma delaysFrom_first m :
  (m <= 3)%nat -> delaysFrom 1 m = firstn m [1000; 2000; 4000].
Proof.
  intros Hm. destruct m as [|[|[|[|m]]]]; try reflexivity. lia.
Qed.

Lemma getAccessToken_attempt_effort key w :
  exists es, journal (snd (getAccessToken_attempt key w)) = journal w ++ es
             /\ sleeps es = [] /\ (0 <= tokenRequests es <= 1)%nat.
Proof.
  assert (Hnone : exists es, journal w = journal w ++ es
                             /\ sleeps es = [] /\ (0 <= tokenRequests es <= 1)%nat).
  { exists []. rewrite app_nil_r. repeat split; try reflexivity; unfold tokenRequests; simpl; lia. }
  assert (Hone : exists es, journal w ++ [TokenRequested] = journal w ++ es
                            /\ sleeps es = [] /\ (0 <= tokenRequests es <= 1)%nat).
  { exists [TokenRequested]. repeat split; try reflexivity; unfold tokenRequests; simpl; lia. }
  unfold getAccessToken_attempt, bind, lift, throw.
  destruct (JSON_parse key) as [serviceAccount|e]; [|exact Hnone].
  destruct (createJWT serviceAccount) as [jwt|e]; [|exact Hnone].
  unfold fetchToken.
  destruct (deliver (head (tokenEndpoint w))) as [response|e]; simpl; [|exact Hone].
  destruct (ok response); simpl; [|exact Hone].
  destruct (body response) as [data|e]; simpl; exact Hone.
Qed.

Lemma generateItinerary_attempt_effort n w :
  exists es, journal (snd (generateItinerary_attempt n w)) = journal w ++ es
             /\ sleeps es = [] /\ (1 <= modelInvocations es <= 1)%nat.
Proof.
  exists [ModelInvoked]. split; [|split; [reflexivity | split; reflexivity]].
  unfold generateItinerary_attempt, bind, lift.
  destruct (requestCompletion w) as [[content|e] w1] eqn:Hreq; simpl;
    rewrite (requestCompletion_journal _ _ _ Hreq); reflexivity.
Qed.

Lemma createFirestoreDocument_attempt_effort collection docId data w :
  exists es, journal (snd (createFirestoreDocument_attempt collection docId data w))
             = journal w ++ es
             /\ sleeps es = [] /\ (1 <= storeCalls es <= 1)%nat.
Proof.
  unfold createFirestoreDocument_attempt, bind, storeCreate, throw, lift.
  destruct (pendingFault w) as [[m|st tx]|]; simpl;
    try (exists [StoreCalled]; repeat split; reflexivity).
  destruct (documents w !! documentName collection docId); simpl.
  - exists [StoreCalled]. repeat split; reflexivity.
  - eexists [StoreCalled; DocumentCreated _ _]. rewrite <- app_assoc.
    repeat split; reflexivity.
Qed.

Lemma updateFirestoreDocument_attempt_effort collection docId data w :
  exists es, journal (snd (updateFirestoreDocument_attempt collection docId data w))
             = journal w ++ es
             /\ sleeps es = [] /\ (1 <= storeCalls es <= 1)%nat.
Proof.
  unfold updateFirestoreDocument_attempt, bind, storePatch, throw, lift.
  destruct (pendingFault w) as [[m|st tx]|]; simpl;
    try (exists [StoreCalled]; repeat split; reflexivity).
  destruct (documents w !! documentName collection docId); simpl.
  - eexists [StoreCalled; DocumentPatched _ _]. rewrite <- app_assoc.
    repeat split; reflexivity.
  - exists [StoreCalled]. repeat split; reflexivity.
Qed.

(** X1. Token acquisition started at attempt 1 makes at most four
    attempts: it sleeps the first [m <= 3] of the delays 1000, 2000 and
    4000 ms, in this order, and sends at most [m + 1] requests to the token
    endpoint.  It fails only after all three retries, with the message
    that counts four attempts. *)
Theorem token_acquisition_effort (key : string) (w : World) :
  exists (m : nat) (es : list Event),
    (m <= 3)%nat
    /\ journal (snd (getAccessToken key 1 w)) = journal w ++ es
    /\ sleeps es = firstn m [1000; 2000; 4000]
    /\ (tokenRequests es <= S m)%nat
    /\ forall e, fst (getAccessToken key 1 w) = Throw e ->
         m = 3%nat
         /\ exists e0, e = "Failed to get access token after 4 attempts: " +:+ e0.
Proof.
  assert (Hstep : forall k w0,
             getAccessToken key k w0 =
               match getAccessToken_attempt key w0 with
               | (Ok a, w1) => (Ok a, w1)
               | (Throw e, w1) =>
                   if (k <=? RETRY_CONFIG.maxRetries)%Z && true
                   then getAccessToken key (k + 1) (record (Slept (calculateDelay k)) w1)
                   else (Throw ("Failed to get access token after 4 attempts: " +:+ e), w1)
               end).
  { intros k w0. rewrite getAccessToken_step, andb_true_r. reflexivity. }
  destruct (loop_effort JSValue (getAccessToken_attempt key) (getAccessToken key)
              (fun _ => true)
              (fun _ e => "Failed to get access token after 4 attempts: " +:+ e)
              Hstep tokenRequests tokenRequests_app (fun ms => eq_refl) 0%nat
              (getAccessToken_attempt_effort key) 1 w)
    as (m & es & Hj & Hs & Hm & Hc & Hfail).
  unfold RETRY_CONFIG.maxRetries in *.
  assert (Hm3 : (m <= 3)%nat) by lia.
  exists m, es. repeat split; trivial.
  - rewrite Hs. apply delaysFrom_first, Hm3.
  - lia.
  - destruct (Hfail e H) as (e0 & _ & [Hlast|Hno]); [lia | discriminate].
  - destruct (Hfail e H) as (e0 & -> & _). eauto.
Qed.

(** X2. Generation started at attempt 1 invokes the model exactly [m + 1]
    times for some [m <= 3] and sleeps the first [m] of the delays 1000,
    2000 and 4000 ms in between.  When it fails, the message counts the
    [m + 1] invocations made, and either the retries are used up or the last
    error was not a retryable one. *)
Theorem generation_effort (destination : string) (n : Z) (apiKey : string) (w : World) :
  exists (m : nat) (es : list Event),
    (m <= 3)%nat
    /\ journal (snd (generateItinerary destination n apiKey 1 w)) = journal w ++ es
    /\ sleeps es = firstn m [1000; 2000; 4000]
    /\ modelInvocations es = S m
    /\ forall e, fst (generateItinerary destination n apiKey 1 w) = Throw e ->
         exists e0,
           e = "Failed to generate itinerary after "
               +:+ JsNumber.toString (Z.of_nat (S m)) +:+ " attempts: " +:+ e0
           /\ (m = 3%nat \/ isRetryableError e0 = false).
Proof.
  destruct (loop_effort (list Day) (generateItinerary_attempt n)
              (generateItinerary destination n apiKey) isRetryableError
              (fun k e => "Failed to generate itinerary after " +:+ JsNumber.toString k
                          +:+ " attempts: " +:+ e)
              (generateItinerary_step destination n apiKey)
              modelInvocations modelInvocations_app (fun ms => eq_refl) 1%nat
              (generateItinerary_attempt_effort n) 1 w)
    as (m & es & Hj & Hs & Hm & Hc & Hfail).
  unfold RETRY_CONFIG.maxRetries in *.
  assert (Hm3 : (m <= 3)%nat) by lia.
  exists m, es. repeat split; trivial.
  - rewrite Hs. apply delaysFrom_first, Hm3.
  - lia.
  - intros e He. destruct (Hfail e He) as (e0 & -> & Hwhy).
    exists e0. split.
    + replace (1 + Z.of_nat m) with (Z.of_nat (S m)) by lia. reflexivity.
    + destruct Hwhy as [Hlast|Hno]; [left; lia | right; exact Hno].
Qed.

(** X3. A Firestore write started at attempt 1 calls the store exactly
    [m + 1] times for some [m <= 3] and sleeps the first [m] of the delays
    1000, 2000 and 4000 ms in between.  When it fails, it throws the error
    of its last attempt as it is, and either the retries are used up or
    that error carries none of the markers 500, 502, 503. *)
Theorem firestore_write_effort (projectId accessToken : JSValue) (collection docId : string)
    (creation : JobCreation) (update : JobUpdate) (w : World) :
  (exists (m : nat) (es : list Event),
      (m <= 3)%nat
      /\ journal (snd (createFirestoreDocument projectId accessToken collection docId
                         creation 1 w)) = journal w ++ es
      /\ sleeps es = firstn m [1000; 2000; 4000]
      /\ storeCalls es = S m
      /\ forall e, fst (createFirestoreDocument projectId accessToken collection docId
                          creation 1 w) = Throw e ->
           m = 3%nat \/ firestoreRetryable e = false)
  /\ (exists (m : nat) (es : list Event),
        (m <= 3)%nat
        /\ journal (snd (updateFirestoreDocument projectId accessToken collection docId
                           update 1 w)) = journal w ++ es
        /\ sleeps es = firstn m [1000; 2000; 4000]
        /\ storeCalls es = S m
        /\ forall e, fst (updateFirestoreDocument projectId accessToken collection docId
                            update 1 w) = Throw e ->
             m = 3%nat \/ firestoreRetryable e = false).
Proof.
  split.
  - destruct (loop_effort Fields (createFirestoreDocument_attempt collection docId creation)
                (createFirestoreDocument projectId accessToken collection docId creation)
                firestoreRetryable (fun _ e => e)
                (createFirestoreDocument_step projectId accessToken collection docId creation)
                storeCalls storeCalls_app (fun ms => eq_refl) 1%nat
                (createFirestoreDocument_attempt_effort collection docId creation) 1 w)
      as (m & es & Hj & Hs & Hm & Hc & Hfail).
    unfold RETRY_CONFIG.maxRetries in *.
    assert (Hm3 : (m <= 3)%nat) by lia.
    exists m, es. repeat split; trivial.
    + rewrite Hs. apply delaysFrom_first, Hm3.
    + lia.
    + intros e He. destruct (Hfail e He) as (e0 & -> & [Hlast|Hno]);
        [left; lia | right; exact Hno].
  - destruct (loop_effort Fields (updateFirestoreDocument_attempt collection docId update)
                (updateFirestoreDocument projectId accessToken collection docId update)
                firestoreRetryable (fun _ e => e)
                (updateFirestoreDocument_step projectId accessToken collection docId update)
                storeCalls storeCalls_app (fun ms => eq_refl) 1%nat
                (updateFirestoreDocument_attempt_effort collection docId update) 1 w)
      as (m & es & Hj & Hs & Hm & Hc & Hfail).
    unfold RETRY_CONFIG.maxRetries in *.
    assert (Hm3 : (m <= 3)%nat) by lia.
    exists m, es. repeat split; trivial.
    + rewrite Hs. apply delaysFrom_first, Hm3.
    + lia.
    + intros e He. destruct (Hfail e He) as (e0 & -> & [Hlast|Hno]);
        [left; lia | right; exact Hno].
Qed.

End Effort.

(** ** What the validator accepts *)

Section Acceptance.

Context {runtime : Runtime}.

Lemma ActivitySchema_wellFormed p v a :
  ActivitySchema p v = Valid a -> wellFormedActivity a = true.
Proof.
  intros H. apply ActivitySchema_valid in H as (props & _ & _ & _ & _ & Ht & Hd & Hl).
  unfold wellFormedActivity.
  apply Nat.leb_le in Ht, Hd, Hl. rewrite Ht, Hd, Hl. reflexivity.
Qed.

Lemma DaySchema_wellFormed p v d :
  DaySchema p v = Valid d ->
  (1 <=? String.length (theme d))%nat
  && (1 <=? List.length (activities d))%nat
  && forallb wellFormedActivity (activities d) = true.
Proof.
  unfold DaySchema. destruct v; try discriminate.
  destruct (number_int_positive _ _ (Js.lookup "day" props)) as [n|] eqn:Hn; [|discriminate].
  destruct (string_min 1 _ _ (Js.lookup "theme" props)) as [t|] eqn:Ht; [|discriminate].
  destruct (array_min ActivitySchema 1 _ _ (Js.lookup "activities" props)) as [a|] eqn:Ha;
    [|discriminate].
  intros H; inversion H; subst; cbn [theme activities].
  apply string_min_valid in Ht as [_ Ht].
  apply array_min_valid in Ha as (acts & _ & Hlen & Hall).
  rewrite (Forall2_length _ _ _ Hall) in Hlen.
  apply Nat.leb_le in Ht, Hlen. rewrite Ht, Hlen. cbn [andb].
  clear Hlen H. induction Hall as [|v0 a0 vs l [q Hv] _ IH]; simpl; [reflexivity|].
  rewrite (ActivitySchema_wellFormed _ _ _ Hv). exact IH.
Qed.

Lemma wellFormedFrom_intro days :
  forall i vs,
    Forall2 (fun v d => exists q, DaySchema q v = Valid d) vs days ->
    daySequenceError days (Z.of_nat i) = None ->
    wellFormedFrom i days = true.
Proof.
  induction days as [|d days IH]; intros i vs Hall Hseq; [reflexivity|].
  inversion Hall as [|v d' vs' days' [q Hv] Hrest]; subst.
  simpl in Hseq |- *.
  destruct (Z.eqb_spec (day d) (Z.of_nat i + 1)) as [Hd|]; simpl in Hseq; [|discriminate].
  unfold wellFormedDay. apply Z.eqb_eq in Hd. rewrite Hd. cbn [andb].
  pose proof (DaySchema_wellFormed _ _ _ Hv) as Hshape.
  rewrite Hshape. cbn [andb].
  apply (IH (S i) vs' Hrest).
  replace (Z.of_nat (S i)) with (Z.of_nat i + 1) by lia. exact Hseq.
Qed.

(** Whatever the validator returns is a well-formed itinerary. *)
Lemma validateItinerary_wellFormed candidate n days :
  validateItinerary candidate n = Ok days -> wellFormedItinerary n days = true.
Proof.
  unfold validateItinerary.
  destruct (ItinerarySchema candidate) as [validated|] eqn:Hs; [|discriminate].
  destruct (Z.eqb_spec (Z.of_nat (List.length validated)) n) as [Hlen|]; simpl; [|discriminate].
  destruct (daySequenceError validated 0) eqn:Hseq; [discriminate|].
  intros H; inversion H; subst validated.
  apply ItinerarySchema_valid in Hs as (vs & _ & Hmin & Hall).
  unfold wellFormedItinerary.
  apply Z.eqb_eq in Hlen. rewrite Hlen.
  rewrite (Forall2_length _ _ _ Hall) in Hmin. apply Nat.leb_le in Hmin. rewrite Hmin.
  cbn [andb]. apply (wellFormedFrom_intro days 0 vs Hall Hseq).
Qed.

Lemma parseItinerary_wellFormed content n days :
  parseItinerary content n = Ok days -> wellFormedItinerary n days = true.
Proof.
  unfold parseItinerary. destruct (JSON_parse _) as [itinerary|e]; [|discriminate].
  apply validateItinerary_wellFormed.
Qed.

(** What a generation returns has passed validation. *)
Lemma generateItinerary_wellFormed (destination : string) (n : Z) (apiKey : string)
    (k : Z) (w : World) (days : list Day) (w' : World) :
  generateItinerary destination n apiKey k w = (Ok days, w') ->
  wellFormedItinerary n days = true.
Proof.
  apply (loop_result (list Day) (generateItinerary_attempt n)
           (generateItinerary destination n apiKey) isRetryableError
           (fun k e => "Failed to generate itinerary after " +:+ JsNumber.toString k
                       +:+ " attempts: " +:+ e)
           (generateItinerary_step destination n apiKey)
           (fun days => wellFormedItinerary n days = true)).
  intros w0 a w1. unfold generateItinerary_attempt, bind, lift.
  destruct (requestCompletion w0) as [[content|e] w2]; [|discriminate].
  intros H; inversion H as [[Hparse Hw]]. apply (parseItinerary_wellFormed _ _ _ Hparse).
Qed.

(** X5. Whatever reply the model gives and however many attempts it
    takes, an itinerary returned by generation has exactly [n >= 1] days,
    numbered 1 to [n] in order, each with a non-empty theme and at least one
    activity, each activity with a non-empty time and location and a
    description of ten characters or more. *)
Theorem generation_returns_wellFormed (destination : string) (n : Z) (apiKey : string)
    (k : Z) (w : World) (days : list Day) (w' : World) :
  generateItinerary destination n apiKey k w = (Ok days, w') ->
  wellFormedItinerary n days = true.
Proof. apply generateItinerary_wellFormed. Qed.

End Acceptance.

Lemma generation_returns_wellFormed_witness :
  wellFormedItinerary 1
    [mkDay 1 "Landmarks" [mkActivity "Morning" Sample.longText "Eiffel Tower"]] = true.
Proof.
  apply (generation_returns_wellFormed (runtime := DemoRuntime.runtime)
           "Paris" 1 "sk-demo" 1
           (Sample.world [] [Sample.refused 503 "overloaded";
                             Sample.completion Sample.oneDayReply] [])
           _
           (snd (generateItinerary (runtime := DemoRuntime.runtime) "Paris" 1 "sk-demo" 1
                   (Sample.world [] [Sample.refused 503 "overloaded";
                                     Sample.completion Sample.oneDayReply] [])))).
  vm_compute. reflexivity.
Defined.

Section Completeness.

Lemma string_min_accepts n msg p s :
  (n <= String.length s)%nat -> string_min n msg p (JString s) = Valid s.
Proof.
  intros H. unfold string_min. apply Nat.ltb_ge in H. rewrite H. reflexivity.
Qed.

Lemma Qred_inject_Z z : Qred (inject_Z z) = inject_Z z.
Proof.
  unfold inject_Z, Qred.
  pose proof (Z.ggcd_gcd z 1) as Hg. rewrite Z.gcd_1_r in Hg.
  pose proof (Z.ggcd_correct_divisors z 1) as Hd.
  destruct (Z.ggcd z 1) as [g [aa bb]]. simpl in Hg, Hd. subst g.
  destruct Hd as [Ha Hb]. rewrite Z.mul_1_l in Ha, Hb. subst aa bb.
  reflexivity.
Qed.

Lemma number_int_positive_accepts msg p z :
  0 < z -> number_int_positive msg p (Js.ofZ z) = Valid z.
Proof.
  intros Hz. unfold number_int_positive, Js.ofZ, JsNumber.ofZ.
  assert (Hint : JsNumber.isInteger (Num (inject_Z z)) = true).
  { unfold JsNumber.isInteger. rewrite Qred_inject_Z. reflexivity. }
  assert (Hpos : JsNumber.gt (Num (inject_Z z)) (Num (inject_Z 0)) = true).
  { unfold JsNumber.gt, JsNumber.lt. apply negb_true_iff.
    destruct (Qle_bool (inject_Z z) (inject_Z 0)) eqn:Hle; [|reflexivity].
    apply Qle_bool_iff in Hle. rewrite <- Zle_Qle in Hle. lia. }
  rewrite Hint, Hpos. cbn [app JsNumber.toZ]. rewrite Qfloor_Z. reflexivity.
Qed.

Lemma ActivitySchema_accepts p a :
  wellFormedActivity a = true -> ActivitySchema p (jsActivity a) = Valid a.
Proof.
  unfold wellFormedActivity. intros H.
  apply andb_true_iff in H as [H Hl]. apply andb_true_iff in H as [Ht Hd].
  apply Nat.leb_le in Ht, Hd, Hl.
  unfold ActivitySchema, jsActivity.
  cbn [Js.lookup String.eqb Ascii.eqb Bool.eqb].
  rewrite !string_min_accepts by assumption. destruct a; reflexivity.
Qed.

Lemma items_ActivitySchema_accepts p acts :
  forall i, forallb wellFormedActivity acts = true ->
    items ActivitySchema p i (map jsActivity acts) = Valid acts.
Proof.
  induction acts as [|a acts IH]; intros i H; cbn [map items]; [reflexivity|].
  simpl in H. apply andb_true_iff in H as [Ha Hrest].
  rewrite (ActivitySchema_accepts _ a Ha), (IH (S i) Hrest). reflexivity.
Qed.

Lemma DaySchema_accepts p i d :
  wellFormedDay i d = true -> DaySchema p (jsDay d) = Valid d.
Proof.
  unfold wellFormedDay. intros H.
  apply andb_true_iff in H as [H Hacts]. apply andb_true_iff in H as [H Hlen].
  apply andb_true_iff in H as [Hday Htheme].
  apply Z.eqb_eq in Hday. apply Nat.leb_le in Htheme, Hlen.
  unfold DaySchema, jsDay.
  cbn [Js.lookup String.eqb Ascii.eqb Bool.eqb].
  rewrite number_int_positive_accepts by lia.
  rewrite string_min_accepts by assumption.
  unfold array_min. rewrite length_map.
  apply Nat.ltb_ge in Hlen. rewrite Hlen.
  rewrite (items_ActivitySchema_accepts _ _ 0 Hacts). destruct d; reflexivity.
Qed.

Lemma items_DaySchema_accepts p days :
  forall i, wellFormedFrom i days = true ->
    items DaySchema p i (map jsDay days) = Valid days.
Proof.
  induction days as [|d days IH]; intros i H; cbn [map items]; [reflexivity|].
  cbn [wellFormedFrom] in H. apply andb_true_iff in H as [Hd Hrest].
  rewrite (DaySchema_accepts _ i d Hd), (IH (S i) Hrest). reflexivity.
Qed.

Lemma daySequenceError_wellFormed days :
  forall i, wellFormedFrom i days = true -> daySequenceError days (Z.of_nat i) = None.
Proof.
  induction days as [|d days IH]; intros i H; simpl; [reflexivity|].
  simpl in H. apply andb_true_iff in H as [Hd Hrest].
  unfold wellFormedDay in Hd. rewrite <- !andb_assoc in Hd.
  apply andb_true_iff in Hd as [Hday _]. rewrite Hday. simpl.
  replace (Z.of_nat i + 1) with (Z.of_nat (S i)) by lia. apply IH, Hrest.
Qed.

(** A well-formed itinerary passes validation as it is. *)
Lemma validateItinerary_accepts (n : Z) (days : list Day) :
  wellFormedItinerary n days = true ->
  validateItinerary (jsItinerary days) n = Ok days.
Proof.
  unfold wellFormedItinerary. intros H.
  apply andb_true_iff in H as [H Hfrom]. apply andb_true_iff in H as [Hlen Hmin].
  apply Nat.leb_le in Hmin.
  unfold validateItinerary, ItinerarySchema, jsItinerary, array_min.
  rewrite length_map. apply Nat.ltb_ge in Hmin. rewrite Hmin.
  rewrite (items_DaySchema_accepts [] days 0 Hfrom).
  rewrite Hlen. cbn [negb].
  pose proof (daySequenceError_wellFormed days 0 Hfrom) as Hseq.
  change (Z.of_nat 0) with 0 in Hseq. rewrite Hseq. reflexivity.
Qed.

(** X6. Validation accepts every well-formed itinerary and returns it as
    it is: for an itinerary of [n] days that is well formed, validating its
    JavaScript form against [n] gives the itinerary back. *)
Theorem wellFormed_itinerary_accepted (n : Z) (days : list Day) :
  wellFormedItinerary n days = true ->
  validateItinerary (jsItinerary days) n = Ok days.
Proof. intros Hwf. exact (validateItinerary_accepts n days Hwf). Qed.

End Completeness.

Lemma wellFormed_itinerary_accepted_witness :
  validateItinerary
    (jsItinerary
       [ mkDay 1 "Arrival" [mkActivity "Evening" "Walk along the river Seine" "Pont Neuf"];
         mkDay 2 "Museums" [mkActivity "Morning" Sample.longText "Louvre";
                            mkActivity "Afternoon" "Impressionists at Orsay" "Orsay"] ]) 2
  = Ok [ mkDay 1 "Arrival" [mkActivity "Evening" "Walk along the river Seine" "Pont Neuf"];
         mkDay 2 "Museums" [mkActivity "Morning" Sample.longText "Louvre";
                            mkActivity "Afternoon" "Impressionists at Orsay" "Orsay"] ].
Proof. apply wellFormed_itinerary_accepted. reflexivity. Defined.

(** ** What the handler and the background task always do *)

Section Replies.

Context {runtime : Runtime}.

Ltac answered :=
  eexists _, _; split; [reflexivity | unfold replyStatuses; simpl; lia].

Lemma fetch_GET_replies request env w :
  exists reply w', fetch_GET request env w = (Ok reply, w')
                   /\ In (reply_status reply) replyStatuses.
Proof.
  unfold fetch_GET, tryCatch, bind, lift, ret, throw. cbv zeta.
  destruct (_ || _); [answered|].
  destruct (negb (configured (FIREBASE_SERVICE_ACCOUNT_KEY env))); [answered|].
  destruct (JSON_parse _) as [serviceAccount|e]; [|answered].
  destruct (getAccessToken _ 1 w) as [[accessToken|e] w1]; [|answered].
  destruct (getProp serviceAccount "project_id") as [projectId|e]; [|answered].
  destruct (storeGet _ _ w1) as [[response|e] w2]; [|answered].
  destruct (status response =? 404)%Z; [answered|].
  destruct (negb (ok response)); [answered|].
  destruct (body response); answered.
Qed.

Lemma fetch_POST_replies request env w :
  exists reply w', fetch_POST request env w = (Ok reply, w')
                   /\ In (reply_status reply) replyStatuses.
Proof.
  unfold fetch_POST, tryCatch, bind, lift, ret, throw, waitUntil, newDate.
  destruct (json request) as [body|e]; [|answered].
  destruct (getProp body "destination") as [destination|e]; [|answered].
  destruct (getProp body "durationDays") as [durationDays|e]; [|answered].
  destruct (destinationRejected destination); [answered|].
  destruct (durationDaysRejected durationDays); [answered|].
  destruct (_ || _); [answered|].
  destruct (JSON_parse _) as [serviceAccount|e]; [|answered].
  destruct (getProp serviceAccount "project_id") as [projectId|e]; [|answered].
  destruct (getAccessToken _ 1 w) as [[accessToken|e] w1]; [|answered].
  destruct (generateUUID w1) as [[jobId|e] w2]; [|answered].
  destruct (createFirestoreDocument _ _ _ _ _ 1 w2) as [[document|e] w3]; answered.
Qed.

(** X7. The handler answers every request: whatever the request, the
    environment and the outside world do, [fetch] returns a reply and
    throws nothing, and the status of the reply is one of 200, 202, 400,
    404, 405 and 500. *)
Theorem fetch_always_replies (request : Request) (env : Env) (w : World) :
  exists reply w', fetch request env w = (Ok reply, w')
                   /\ In (reply_status reply) replyStatuses.
Proof.
  unfold fetch.
  destruct (String.eqb (method request) "OPTIONS"); [unfold ret; answered|].
  destruct (String.eqb (method request) "GET"); [apply fetch_GET_replies|].
  destruct (negb (String.eqb (method request) "POST")); [unfold ret; answered|].
  apply fetch_POST_replies.
Qed.

(** X8. The promise handed to [ctx.waitUntil] never rejects: whatever
    fails inside the background task, [processItineraryGeneration]
    completes normally. *)
Theorem background_task_never_throws (t : Task) (w : World) :
  fst (runTask t w) = Ok tt.
Proof.
  assert (Hcatch : forall jobId key accessToken serviceAccount projectId error w0,
            fst (processItineraryGeneration_catch jobId key accessToken serviceAccount
                   projectId error w0) = Ok tt).
  { intros. unfold processItineraryGeneration_catch, tryCatch, bind, ret, newDate.
    destruct ((if negb (Js.truthy accessToken) && Js.truthy serviceAccount
               then getAccessToken key 1 else fun w => (Ok accessToken, w)) w0)
      as [[token|e] w1]; [|reflexivity].
    destruct (Js.truthy token && Js.truthy projectId); [|reflexivity].
    destruct (updateFirestoreDocument _ _ _ _ _ 1 w1) as [[document|e] w2]; reflexivity. }
  unfold runTask, processItineraryGeneration, orElse, lift, bind, ret, newDate.
  destruct (JSON_parse _) as [serviceAccount|e]; [|apply Hcatch].
  destruct (getProp serviceAccount "project_id") as [projectId|e]; [|apply Hcatch].
  destruct (getAccessToken _ 1 w) as [[accessToken|e] w1]; [|apply Hcatch].
  destruct (generateItinerary _ _ _ 1 w1) as [[itinerary|e] w2]; [|apply Hcatch].
  destruct (updateFirestoreDocument _ _ _ _ _ 1 w2) as [[document|e] w3]; [|apply Hcatch].
  reflexivity.
Qed.

End Replies.

(** ** Status reads *)

Section StatusReads.

Context {runtime : Runtime}.

(** X9. A status read changes nothing: whatever it answers, the
    documents of the store are the ones from before, no write was sent and
    no task was scheduled. *)
Theorem status_read_changes_nothing (request : Request) (env : Env) (w : World) :
  let w' := snd (fetch_GET request env w) in
  documents w' = documents w
  /\ writes (journal w') = writes (journal w)
  /\ scheduled (journal w') = scheduled (journal w).
Proof.
  destruct (calm_fetch_GET request env w) as (Hd & es & Hj & Hw & Hs).
  cbv zeta. rewrite Hj, writes_app, scheduled_app, Hw, Hs, !app_nil_r. auto.
Qed.

(** What a status read answers with the statuses 200 and 404. *)
Lemma fetch_GET_reflects_store (request : Request) (env : Env) (w : World)
    (reply : Reply) (w' : World) :
  fetch_GET request env w = (Ok reply, w') ->
  let name := documentName "itineraries" (requestedJobId request) in
  (reply_status reply = 200 ->
     exists fields, documents w !! name = Some fields
                    /\ reply_body reply = JObject (convertFromFirestoreFormat fields))
  /\ (reply_status reply = 404 ->
        documents w !! name = None \/ exists tx, pendingFault w = Some (Refused 404 tx)).
Proof.
  unfold fetch_GET. fold (requestedJobId request).
  set (jobId := requestedJobId request). cbv zeta.
  unfold tryCatch, bind, lift, ret, throw.
  assert (Hother : forall (r : Reply) (w1 : World) (P Q : Prop),
            reply_status r <> 200 -> reply_status r <> 404 ->
            (Ok r, w1) = (Ok reply, w') ->
            (reply_status reply = 200 -> P) /\ (reply_status reply = 404 -> Q)).
  { intros r w1 P Q H2 H4 H. inversion H; subst. split; intros; contradiction. }
  destruct (_ || _); [apply Hother; simpl; lia|].
  destruct (negb (configured (FIREBASE_SERVICE_ACCOUNT_KEY env)));
    [apply Hother; simpl; lia|].
  destruct (JSON_parse _) as [serviceAccount|e]; [|apply Hother; simpl; lia].
  pose proof (quiet_getAccessToken (bindingValue (FIREBASE_SERVICE_ACCOUNT_KEY env)) 1 w)
    as [Hf [Hd _]].
  destruct (getAccessToken _ 1 w) as [[accessToken|e] w1]; simpl in Hf, Hd;
    [|apply Hother; simpl; lia].
  destruct (getProp serviceAccount "project_id") as [projectId|e];
    [|apply Hother; simpl; lia].
  unfold storeGet.
  assert (Hp : pendingFault w1 = pendingFault w) by (unfold pendingFault; rewrite Hf; reflexivity).
  rewrite Hp, Hd.
  destruct (pendingFault w) as [[m|st tx]|] eqn:Hpf; simpl.
  - apply Hother; simpl; lia.
  - destruct (Z.eqb_spec st 404) as [->|_]; [|apply Hother; simpl; lia].
    intros H; inversion H; subst. simpl. split; [lia|].
    intros _. right. exists tx. reflexivity.
  - destruct (documents w !! documentName "itineraries" jobId) as [fields|] eqn:Hdoc; simpl.
    + intros H; inversion H; subst. simpl. split; [|lia].
      intros _. exists fields. split; reflexivity.
    + intros H; inversion H; subst. simpl. split; [lia|]. intros _. left. reflexivity.
Qed.


End StatusReads.


(** ** A job from submission to status read *)

Section Journey.

Context {runtime : Runtime}.



End Journey.


Section Outcome.

Context {runtime : Runtime}.

(** The [catch] block of the task writes nothing or records the failure
    it was given. *)
Lemma processItineraryGeneration_catch_records jobId key accessToken serviceAccount
    projectId error w :
  let w' := snd (processItineraryGeneration_catch jobId key accessToken serviceAccount
                   projectId error w) in
  calm w w'
  \/ exists completedAt,
       patched (documentName "itineraries" jobId)
         (firestoreData_update (failedUpdate completedAt error)) w w'.
Proof.
  unfold processItineraryGeneration_catch, tryCatch, bind.
  set (reacquire := if negb (Js.truthy accessToken) && Js.truthy serviceAccount
                    then getAccessToken key 1 else ret accessToken).
  assert (Hq : calm w (snd (reacquire w))).
  { apply quiet_calm. subst reacquire.
    destruct (negb (Js.truthy accessToken) && Js.truthy serviceAccount).
    - apply quiet_getAccessToken.
    - apply quiet_refl. }
  destruct (reacquire w) as [[token|e] w1]; simpl in *; [|left; exact Hq].
  destruct (Js.truthy token && Js.truthy projectId); simpl; [|left; exact Hq].
  unfold newDate.
  pose proof (updateFirestoreDocument_outcome projectId token "itineraries" jobId
                (failedUpdate (now w1) error) 1 w1) as Hu.
  fold (failedUpdate (now w1) error).
  destruct (updateFirestoreDocument projectId token "itineraries" jobId
              (failedUpdate (now w1) error) 1 w1) as [[document|e] w2]; simpl in *.
  - right. exists (now w1). eapply calm_patched; eassumption.
  - left. eapply calm_trans; eassumption.
Qed.

(** What a run of the task leaves in the store: nothing new, a failure,
    or an itinerary that has passed validation for the days asked. *)
Lemma processItineraryGeneration_records jobId destination n key apiKey w :
  let w' := snd (processItineraryGeneration jobId destination n key apiKey w) in
  let name := documentName "itineraries" jobId in
  calm w w'
  \/ exists completedAt,
       (exists error,
          patched name (firestoreData_update (failedUpdate completedAt error)) w w')
       \/ (exists itinerary,
             wellFormedItinerary n itinerary = true
             /\ patched name (firestoreData_update (completedUpdate completedAt itinerary))
                  w w').
Proof.
  cbv zeta.
  assert (Hcatch : forall accessToken serviceAccount projectId error w0,
            calm w w0 ->
            let w' := snd (processItineraryGeneration_catch jobId key accessToken
                             serviceAccount projectId error w0) in
            calm w w'
            \/ exists completedAt,
                 (exists error,
                    patched (documentName "itineraries" jobId)
                      (firestoreData_update (failedUpdate completedAt error)) w w')
                 \/ (exists itinerary,
                       wellFormedItinerary n itinerary = true
                       /\ patched (documentName "itineraries" jobId)
                            (firestoreData_update (completedUpdate completedAt itinerary))
                            w w')).
  { intros accessToken serviceAccount projectId error w0 Hc. cbv zeta.
    destruct (processItineraryGeneration_catch_records jobId key accessToken serviceAccount
                projectId error w0) as [H|(completedAt & H)].
    - left. eapply calm_trans; eassumption.
    - right. exists completedAt. left. exists error. eapply calm_patched; eassumption. }
  unfold processItineraryGeneration, orElse, lift.
  destruct (JSON_parse key) as [serviceAccount|e]; [|apply Hcatch, calm_refl].
  destruct (getProp serviceAccount "project_id") as [projectId|e];
    [|apply Hcatch, calm_refl].
  pose proof (quiet_calm _ _ (quiet_getAccessToken key 1 w)) as H1.
  destruct (getAccessToken key 1 w) as [[accessToken|e] w1]; simpl in H1;
    [|apply Hcatch, H1].
  pose proof (quiet_calm _ _ (quiet_generateItinerary destination n apiKey 1 w1)) as H2.
  destruct (generateItinerary destination n apiKey 1 w1) as [[itinerary|e] w2] eqn:Hgen;
    simpl in H2; [|apply Hcatch; eapply calm_trans; eassumption].
  unfold bind, newDate.
  fold (completedUpdate (now w2) itinerary).
  pose proof (updateFirestoreDocument_outcome projectId accessToken "itineraries" jobId
                (completedUpdate (now w2) itinerary) 1 w2) as Hu.
  destruct (updateFirestoreDocument projectId accessToken "itineraries" jobId
              (completedUpdate (now w2) itinerary) 1 w2) as [[document|e] w3]; simpl in *.
  - right. exists (now w2). right. exists itinerary.
    split; [exact (generateItinerary_wellFormed _ _ _ _ _ _ _ Hgen)|].
    eapply calm_patched; [eapply calm_trans; eassumption | exact Hu].
  - apply Hcatch. eapply calm_trans; [eapply calm_trans|]; eassumption.
Qed.

(** X12. What a client reads after the task of a job has run.  For a job
    whose document is as the handler created it, a status read that
    answers 200 after a run of the task shows the destination, the
    duration and the creation time unchanged, and one of three states: the
    job as it was, with no outcome; the job [completed], with a completion
    time, an itinerary that is well formed for the days asked and no
    error; or the job [failed], with a completion time, no itinerary and
    an error that starts with [Generation failed: ]. *)
Theorem finished_job_reads_outcome (t : Task) (creation : JobCreation) (w : World)
    (request : Request) (env : Env) (reply : Reply) (w2 : World) :
  documents w !! documentName "itineraries" (task_jobId t)
  = Some (firestoreData_create creation) ->
  requestedJobId request = task_jobId t ->
  fetch_GET request env (snd (runTask t w)) = (Ok reply, w2) ->
  reply_status reply = 200 ->
  exists (status : string) (completedAt itinerary error : JSValue),
    reply_body reply
    = JObject [ ("status", JString status);
                ("destination", JString (new_destination creation));
                ("durationDays", Js.ofZ (new_durationDays creation));
                ("createdAt", JString (toISOString (new_createdAt creation)));
                ("completedAt", completedAt); ("itinerary", itinerary); ("error", error) ]
    /\ ((status = new_status creation
         /\ completedAt = JNull /\ itinerary = JNull /\ error = JNull)
        \/ (status = "completed"
            /\ (exists finished, completedAt = JString (toISOString finished))
            /\ (exists days, wellFormedItinerary (task_durationDays t) days = true
                             /\ itinerary = jsItinerary days)
            /\ error = JNull)
        \/ (status = "failed"
            /\ (exists finished, completedAt = JString (toISOString finished))
            /\ itinerary = JNull
            /\ exists e, error = JString ("Generation failed: " +:+ e))).
Proof.
  intros Hdoc Hid Hget H200.
  destruct (fetch_GET_reflects_store request env _ reply w2 Hget) as [Hfound _].
  destruct (Hfound H200) as (fields & Hread & ->). clear Hfound.
  rewrite Hid in Hread. simpl.
  destruct (processItineraryGeneration_records (task_jobId t) (task_destination t)
              (task_durationDays t) (task_serviceAccountKey t) (task_openaiApiKey t) w)
    as [[Hd _]|(finished & [(e & H)|(days & Hwf & H)])];
    fold (runTask t) in *.
  - rewrite Hd, Hdoc in Hread. inversion Hread; subst fields.
    exists (new_status creation), JNull, JNull, JNull. split; [|left; auto].
    unfold firestoreData_create. simpl. rewrite parseInt_toString. reflexivity.
  - destruct H as (old & es & Hold & Hdocs & _).
    rewrite Hdoc in Hold. inversion Hold; subst old.
    rewrite Hdocs, lookup_insert_eq in Hread. inversion Hread; subst fields.
    exists "failed", (JString (toISOString finished)), JNull,
      (JString ("Generation failed: " +:+ e)).
    split; [|right; right; repeat split; eauto].
    unfold firestoreData_create, firestoreData_update, failedUpdate, mergeFields.
    simpl. rewrite parseInt_toString. reflexivity.
  - destruct H as (old & es & Hold & Hdocs & _).
    rewrite Hdoc in Hold. inversion Hold; subst old.
    rewrite Hdocs, lookup_insert_eq in Hread. inversion Hread; subst fields.
    exists "completed", (JString (toISOString finished)), (jsItinerary days), JNull.
    split; [|right; left; repeat split; eauto].
    unfold firestoreData_create, firestoreData_update, completedUpdate, mergeFields.
    cbn [upd_status upd_itinerary upd_completedAt upd_error fold_left assign
         String.eqb Ascii.eqb Bool.eqb fst snd negb convertFromFirestoreFormat].
    rewrite convert_itinerary.
    cbn [convertFromFirestoreFormat_value]. rewrite parseInt_toString. reflexivity.
Qed.

End Outcome.

Lemma finished_job_reads_outcome_witness :
  let creation := mkJobCreation "processing" "Paris" 1 Sample.today None None None in
  let w := snd (fetch (runtime := DemoRuntime.runtime) Sample.submission Sample.env
                  (Sample.world
                     [Sample.granted "ya29.a"; Sample.granted "ya29.b"; Sample.granted "ya29.c"]
                     [Sample.completion Sample.oneDayReply] [])) in
  let request := mkRequest "GET" (Some Sample.jobId) "/" (Throw "no body") in
  let read := fetch_GET (runtime := DemoRuntime.runtime) request Sample.env
                (snd (runTask (runtime := DemoRuntime.runtime) Sample.task w)) in
  let reply := match fst read with Ok r => r | Throw _ => mkReply 0 JNull end in
  exists (status : string) (completedAt itinerary error : JSValue),
    reply_body reply
    = JObject [ ("status", JString status);
                ("destination", JString "Paris");
                ("durationDays", Js.ofZ 1);
                ("createdAt", JString (toISOString Sample.today));
                ("completedAt", completedAt); ("itinerary", itinerary); ("error", error) ]
    /\ ((status = "processing"
         /\ completedAt = JNull /\ itinerary = JNull /\ error = JNull)
        \/ (status = "completed"
            /\ (exists finished, completedAt = JString (toISOString finished))
            /\ (exists days, wellFormedItinerary 1 days = true
                             /\ itinerary = jsItinerary days)
            /\ error = JNull)
        \/ (status = "failed"
            /\ (exists finished, completedAt = JString (toISOString finished))
            /\ itinerary = JNull
            /\ exists e, error = JString ("Generation failed: " +:+ e))).
Proof.
  intros creation w request read reply.
  apply (finished_job_reads_outcome (runtime := DemoRuntime.runtime) Sample.task creation w
           request Sample.env reply (snd read)); vm_compute; reflexivity.
Defined.

(** ** What is written and what is read *)

Section Payloads.

(** X13. An update never sends both outcomes.  Whatever data
    [updateFirestoreDocument] is given, the fields it sends carry the
    status and the completion time, an error exactly when a non-empty error
    was given, and an itinerary exactly when one was given without such an
    error: a non-empty error takes precedence over an itinerary. *)
Theorem update_never_sends_both_outcomes (data : JobUpdate) :
  let sent := firestoreData_update data in
  fieldOf "status" sent = Some (stringValue (upd_status data))
  /\ fieldOf "completedAt" sent
     = Some (timestampValue (toISOString (upd_completedAt data)))
  /\ nonNull "error" sent = errorGiven data
  /\ nonNull "itinerary" sent = itineraryGiven data && negb (errorGiven data)
  /\ nonNull "itinerary" sent && nonNull "error" sent = false.
Proof.
  unfold firestoreData_update, errorGiven, itineraryGiven, nonNull.
  destruct (upd_itinerary data) as [itinerary|], (upd_error data) as [error|];
    try destruct (String.eqb error EmptyString); repeat split; reflexivity.
Qed.

Lemma convertFromFirestoreFormat_value_supported value :
  supportedKind value = true -> exists v, convertFromFirestoreFormat_value value = Some v.
Proof. destruct value; try discriminate; intros _; eexists; reflexivity. Qed.

Lemma convertFromFirestoreFormat_value_unsupported value :
  supportedKind value = false -> convertFromFirestoreFormat_value value = None.
Proof. destruct value; try discriminate; reflexivity. Qed.

(** X14. The reader keeps the keys it understands, in their order, and
    nothing else: the keys of the object it returns are the keys of the
    fields whose value is of a kind it has a branch for; a field holding a
    boolean or a double is dropped without an error.  An array comes back
    with as many elements as it has. *)
Theorem reader_keeps_supported_keys (fields : Fields) :
  map fst (convertFromFirestoreFormat fields)
  = map fst (List.filter (fun kv => supportedKind (snd kv)) fields)
  /\ forall key values,
       In (key, arrayValue values) fields ->
       exists elements,
         In (key, JArray elements) (convertFromFirestoreFormat fields)
         /\ List.length elements = List.length values.
Proof.
  split.
  - induction fields as [|[key value] rest IH]; [reflexivity|].
    cbn [convertFromFirestoreFormat List.filter snd].
    destruct (supportedKind value) eqn:Hkind.
    + destruct (convertFromFirestoreFormat_value_supported value Hkind) as (v & ->).
      simpl. rewrite IH. reflexivity.
    + rewrite (convertFromFirestoreFormat_value_unsupported value Hkind). exact IH.
  - induction fields as [|[key' value] rest IH]; intros key values Hin; [destruct Hin|].
    cbn [convertFromFirestoreFormat]. destruct Hin as [Heq|Hin].
    + inversion Heq; subst. cbn [convertFromFirestoreFormat_value].
      eexists. split; [left; reflexivity|]. apply length_map.
    + destruct (IH key values Hin) as (elements & Hel & Hlen).
      exists elements. split; [|exact Hlen].
      destruct (convertFromFirestoreFormat_value value); [right|]; exact Hel.
Qed.

End Payloads.

(** ** Job identifiers *)

Section Identifiers.

Lemma hexDigit_isHexDigit v : isHexDigit (hexDigit v) = true.
Proof.
  unfold hexDigit.
  destruct (Z.to_nat v) as [|[|[|[|[|[|[|[|[|[|[|[|[|[|[|[|n]]]]]]]]]]]]]]]]; reflexivity.
Qed.

Lemma variant_digit r :
  In (hexDigit (Z.lor (Z.land r 3) 8)) ["8"; "9"; "a"; "b"]%char.
Proof.
  change 3 with (Z.ones 2). rewrite Z.land_ones by lia.
  pose proof (Z.mod_pos_bound r (2 ^ 2) eq_refl) as Hb.
  assert (Hc : r mod 2 ^ 2 = 0 \/ r mod 2 ^ 2 = 1 \/ r mod 2 ^ 2 = 2 \/ r mod 2 ^ 2 = 3)
    by (change (2 ^ 2) with 4 in *; lia).
  destruct Hc as [-> | [-> | [-> | ->]]]; simpl; tauto.
Qed.

Lemma isHexDigit_found (a c : ascii) :
  Some a = Some c -> isHexDigit a = true -> isHexDigit c = true.
Proof. intros [= <-] H. exact H. Qed.

(** X15. Job identifiers have the shape of a version-4 UUID.  Whatever
    the random source yields, [generateUUID] returns 36 characters: dashes
    at the positions 8, 13, 18 and 23, the digit 4 at position 14, one of
    8, 9, a and b at position 19, and lower-case hexadecimal digits
    everywhere else; it draws 31 random values and touches nothing else. *)
Theorem generateUUID_shape (w : World) :
  exists uuid w',
    generateUUID w = (Ok uuid, w')
    /\ String.length uuid = 36%nat
    /\ (forall i, In i dashPositions -> String.get i uuid = Some "-"%char)
    /\ String.get 14 uuid = Some "4"%char
    /\ (exists c, String.get 19 uuid = Some c /\ In c ["8"; "9"; "a"; "b"]%char)
    /\ (forall i c, String.get i uuid = Some c -> ~ In i dashPositions ->
          isHexDigit c = true)
    /\ randoms w' = skipn 31 (randoms w)
    /\ documents w' = documents w /\ journal w' = journal w.
Proof.
  unfold generateUUID. cbn [fillTemplate Ascii.eqb Bool.eqb orb].
  eexists _, _. split; [reflexivity|].
  split; [reflexivity|].
  split.
  { intros i Hi. unfold dashPositions in Hi. simpl in Hi.
    destruct Hi as [<-|[<-|[<-|[<-|[]]]]]; reflexivity. }
  split; [reflexivity|].
  split.
  { eexists. split; [reflexivity|]. apply variant_digit. }
  split.
  { intros i c Hget Hdash. unfold dashPositions in Hdash.
    do 36 (destruct i as [|i]; cbn [String.get] in Hget;
           [ first [ exfalso; apply Hdash; simpl; tauto
                   | apply (isHexDigit_found _ _ Hget);
                     first [apply hexDigit_isHexDigit | reflexivity] ]
           | ]).
    discriminate Hget. }
  split; [|split; reflexivity].
  destruct (randoms w) as [|r0 rs]; [reflexivity|].
  do 30 (destruct rs as [|? rs]; [reflexivity|]). reflexivity.
Qed.

End Identifiers.

(** ** Which failures are retried *)

Section Classification.

Context {runtime : Runtime}.

(** X16. An overloaded model is asked again.  When the model endpoint
    answers attempt [k <= maxRetries] with status 429 or with a status of
    500 or more, whatever the text of the answer, [generateItinerary]
    sleeps [calculateDelay k] and makes attempt [k + 1]. *)
Theorem overloaded_model_is_retried (destination : string) (n : Z) (apiKey : string)
    (k : Z) (w : World) (response : Response JSValue) (rest : list FetchOutcome) :
  modelEndpoint w = Responded response :: rest ->
  ok response = false ->
  status response = 429 \/ 500 <= status response ->
  k <= RETRY_CONFIG.maxRetries ->
  generateItinerary destination n apiKey k w
  = generateItinerary destination n apiKey (k + 1)
      (record (Slept (calculateDelay k)) (snd (fetchModel w))).
Proof.
  intros Hm Hok Hstatus Hk. rewrite generateItinerary_step.
  unfold generateItinerary_attempt, requestCompletion, bind.
  unfold fetchModel at 1. rewrite Hm. cbn [head deliver]. rewrite Hok. cbn [negb].
  apply Z.leb_le in Hk. rewrite Hk. cbn [andb]. unfold throw.
  destruct (Z.eqb_spec (status response) 429) as [H429|Hnot].
  - replace (isRetryableError ("Rate limited by OpenAI API: " +:+ text response))
      with true by reflexivity.
    unfold fetchModel. rewrite Hm. reflexivity.
  - assert (H500 : (500 <=? status response)%Z = true) by (apply Z.leb_le; lia).
    rewrite H500.
    assert (Hmark : JsString.includes
                      ("OpenAI server error: " +:+ JsNumber.toString (status response)
                       +:+ " - " +:+ text response) "server error" = true)
      by reflexivity.
    unfold isRetryableError. rewrite Hmark, orb_true_r. cbn [orb].
    unfold fetchModel. rewrite Hm. reflexivity.
Qed.

(** X17. A store that answers 500, 502 or 503 is called again.  When the
    store refuses attempt [k <= maxRetries] of a create or of an update
    with one of these statuses, the function sleeps [calculateDelay k] and
    makes attempt [k + 1]; the refused call has changed nothing. *)
Theorem transient_store_errors_retried (projectId accessToken : JSValue)
    (collection docId : string) (creation : JobCreation) (update : JobUpdate)
    (k : Z) (w : World) (st : Z) (tx : string) :
  pendingFault w = Some (Refused st tx) ->
  In st [500; 502; 503] ->
  k <= RETRY_CONFIG.maxRetries ->
  createFirestoreDocument projectId accessToken collection docId creation k w
  = createFirestoreDocument projectId accessToken collection docId creation (k + 1)
      (record (Slept (calculateDelay k)) (consumeFault w))
  /\ updateFirestoreDocument projectId accessToken collection docId update k w
     = updateFirestoreDocument projectId accessToken collection docId update (k + 1)
         (record (Slept (calculateDelay k)) (consumeFault w))
  /\ documents (consumeFault w) = documents w.
Proof.
  intros Hfault Hst Hk. apply Z.leb_le in Hk.
  assert (Hcreate : firestoreRetryable ("Firestore create failed: "
                      +:+ JsNumber.toString st +:+ " - " +:+ tx) = true).
  { unfold firestoreRetryable. simpl in Hst. destruct Hst as [<-|[<-|[<-|[]]]].
    - reflexivity.
    - replace (JsString.includes ("Firestore create failed: " +:+ JsNumber.toString 502
                 +:+ " - " +:+ tx) "502") with true by reflexivity.
      rewrite orb_true_r. reflexivity.
    - replace (JsString.includes ("Firestore create failed: " +:+ JsNumber.toString 503
                 +:+ " - " +:+ tx) "503") with true by reflexivity.
      apply orb_true_r. }
  assert (Hupdate : firestoreRetryable ("Firestore update failed: "
                      +:+ JsNumber.toString st +:+ " - " +:+ tx) = true).
  { unfold firestoreRetryable. simpl in Hst. destruct Hst as [<-|[<-|[<-|[]]]].
    - reflexivity.
    - replace (JsString.includes ("Firestore update failed: " +:+ JsNumber.toString 502
                 +:+ " - " +:+ tx) "502") with true by reflexivity.
      rewrite orb_true_r. reflexivity.
    - replace (JsString.includes ("Firestore update failed: " +:+ JsNumber.toString 503
                 +:+ " - " +:+ tx) "503") with true by reflexivity.
      apply orb_true_r. }
  split; [|split; [|reflexivity]].
  - rewrite createFirestoreDocument_step.
    unfold createFirestoreDocument_attempt, bind, storeCreate, throw.
    rewrite Hfault. cbn [faulty ok negb status text]. rewrite Hk, Hcreate. reflexivity.
  - rewrite updateFirestoreDocument_step.
    unfold updateFirestoreDocument_attempt, bind, storePatch, throw.
    rewrite Hfault. cbn [faulty ok negb status text]. rewrite Hk, Hupdate. reflexivity.
Qed.

End Classification.

Lemma overloaded_model_is_retried_witness :
  generateItinerary (runtime := DemoRuntime.runtime) "Paris" 1 "sk-demo" 1
    (Sample.world [] [Sample.refused 429 "slow down"; Sample.completion Sample.oneDayReply] [])
  = generateItinerary (runtime := DemoRuntime.runtime) "Paris" 1 "sk-demo" (1 + 1)
      (record (Slept (calculateDelay 1))
         (snd (fetchModel
                 (Sample.world []
                    [Sample.refused 429 "slow down"; Sample.completion Sample.oneDayReply]
                    [])))).
Proof.
  apply (overloaded_model_is_retried (runtime := DemoRuntime.runtime) "Paris" 1 "sk-demo" 1
           (Sample.world [] [Sample.refused 429 "slow down";
                             Sample.completion Sample.oneDayReply] [])
           (mkResponse false 429 "slow down" (Throw "Unexpected token in JSON"))
           [Sample.completion Sample.oneDayReply] eq_refl eq_refl (or_introl eq_refl)).
  unfold RETRY_CONFIG.maxRetries. lia.
Defined.

Lemma transient_store_errors_retried_witness :
  let w := Sample.world [] [] [Some (Refused 503 "unavailable")] in
  let creation := mkJobCreation "processing" "Paris" 1 Sample.today None None None in
  let update := mkJobUpdate "failed" None Sample.today (Some "Generation failed: timeout") in
  createFirestoreDocument (JString "demo") (JString "ya29.a")
    "itineraries" Sample.jobId creation 1 w
  = createFirestoreDocument (JString "demo")
      (JString "ya29.a") "itineraries" Sample.jobId creation (1 + 1)
      (record (Slept (calculateDelay 1)) (consumeFault w))
  /\ updateFirestoreDocument (JString "demo")
       (JString "ya29.a") "itineraries" Sample.jobId update 1 w
     = updateFirestoreDocument (JString "demo")
         (JString "ya29.a") "itineraries" Sample.jobId update (1 + 1)
         (record (Slept (calculateDelay 1)) (consumeFault w))
  /\ documents (consumeFault w) = documents w.
Proof.
  intros w creation update.
  apply (transient_store_errors_retried (JString "demo")
           (JString "ya29.a") "itineraries" Sample.jobId creation update 1 w 503
           "unavailable" eq_refl).
  - simpl. tauto.
  - unfold RETRY_CONFIG.maxRetries. lia.
Defined.

(** ** The cost of a request and of a task *)

(** Counts the events of a journal given in full. *)
Ltac count_events :=
  unfold within, tokenRequests, modelInvocations, storeCalls, totalSleep; simpl;
  repeat split; lia.

Section Budgets.

Lemma within_nil : within 0 0 0 0 [].
Proof. count_events. Qed.

Lemma within_app t1 mo1 s1 ms1 t2 mo2 s2 ms2 es1 es2 :
  within t1 mo1 s1 ms1 es1 -> within t2 mo2 s2 ms2 es2 ->
  within (t1 + t2) (mo1 + mo2) (s1 + s2) (ms1 + ms2) (es1 ++ es2).
Proof.
  intros (Ht1 & Hm1 & Hs1 & Hz1) (Ht2 & Hm2 & Hs2 & Hz2).
  unfold within.
  rewrite tokenRequests_app, modelInvocations_app, storeCalls_app, totalSleep_app.
  repeat split; lia.
Qed.

Lemma within_weaken t mo s ms t' mo' s' ms' es :
  within t mo s ms es ->
  (t <= t')%nat -> (mo <= mo')%nat -> (s <= s')%nat -> ms <= ms' ->
  within t' mo' s' ms' es.
Proof. intros (Ht & Hm & Hs & Hz) ? ? ? ?. repeat split; lia. Qed.

Lemma spends_weaken {A} t mo s ms t' mo' s' ms' (m : Async A) :
  spends t mo s ms m ->
  (t <= t')%nat -> (mo <= mo')%nat -> (s <= s')%nat -> ms <= ms' ->
  spends t' mo' s' ms' m.
Proof.
  intros H ? ? ? ? w. destruct (H w) as (es & Hj & Hw).
  exists es. split; [exact Hj|]. eapply within_weaken; eassumption.
Qed.

Lemma spends_ret {A} (a : A) : spends 0 0 0 0 (ret a).
Proof. intros w. exists []. rewrite app_nil_r. split; [reflexivity | apply within_nil]. Qed.

Lemma spends_throw {A} message : spends 0 0 0 0 (@throw A message).
Proof. intros w. exists []. rewrite app_nil_r. split; [reflexivity | apply within_nil]. Qed.

Lemma spends_lift {A} (c : Completion A) : spends 0 0 0 0 (lift c).
Proof. intros w. exists []. rewrite app_nil_r. split; [reflexivity | apply within_nil]. Qed.

Lemma spends_newDate : spends 0 0 0 0 newDate.
Proof. intros w. exists []. rewrite app_nil_r. split; [reflexivity | apply within_nil]. Qed.

Lemma spends_generateUUID : spends 0 0 0 0 generateUUID.
Proof.
  intros w. exists []. rewrite app_nil_r. split; [|apply within_nil].
  unfold generateUUID. destruct (fillTemplate _ (randoms w)). reflexivity.
Qed.

Lemma spends_waitUntil t : spends 0 0 0 0 (waitUntil t).
Proof. intros w. exists [Scheduled t]. split; [reflexivity | count_events]. Qed.

Lemma spends_orElse {A B} t1 mo1 s1 ms1 t2 mo2 s2 ms2
    (m : Async A) (handler : string -> Async B) (k : A -> Async B) :
  spends t1 mo1 s1 ms1 m ->
  (forall e, spends t2 mo2 s2 ms2 (handler e)) ->
  (forall a, spends t2 mo2 s2 ms2 (k a)) ->
  spends (t1 + t2) (mo1 + mo2) (s1 + s2) (ms1 + ms2) (orElse m handler k).
Proof.
  intros Hm Hh Hk w. unfold orElse.
  destruct (Hm w) as (es1 & Hj1 & Hw1).
  destruct (m w) as [[a|e] w1]; simpl in Hj1.
  - destruct (Hk a w1) as (es2 & Hj2 & Hw2).
    exists (es1 ++ es2). split; [rewrite Hj2, Hj1, app_assoc; reflexivity|].
    apply within_app; assumption.
  - destruct (Hh e w1) as (es2 & Hj2 & Hw2).
    exists (es1 ++ es2). split; [rewrite Hj2, Hj1, app_assoc; reflexivity|].
    apply within_app; assumption.
Qed.

Lemma spends_bind {A B} t1 mo1 s1 ms1 t2 mo2 s2 ms2 (m : Async A) (k : A -> Async B) :
  0 <= ms2 ->
  spends t1 mo1 s1 ms1 m ->
  (forall a, spends t2 mo2 s2 ms2 (k a)) ->
  spends (t1 + t2) (mo1 + mo2) (s1 + s2) (ms1 + ms2) (bind m k).
Proof.
  intros Hpos Hm Hk.
  apply (spends_orElse t1 mo1 s1 ms1 t2 mo2 s2 ms2 m (fun e => throw e) k Hm); [|exact Hk].
  intros e. eapply spends_weaken; [apply spends_throw | lia..].
Qed.

Lemma spends_tryCatch {A} t1 mo1 s1 ms1 t2 mo2 s2 ms2
    (m : Async A) (handler : string -> Async A) :
  0 <= ms2 ->
  spends t1 mo1 s1 ms1 m ->
  (forall e, spends t2 mo2 s2 ms2 (handler e)) ->
  spends (t1 + t2) (mo1 + mo2) (s1 + s2) (ms1 + ms2) (tryCatch m handler).
Proof.
  intros Hpos Hm Hh.
  apply (spends_orElse t1 mo1 s1 ms1 t2 mo2 s2 ms2 m handler (fun a => ret a) Hm Hh).
  intros a. eapply spends_weaken; [apply spends_ret | lia..].
Qed.

Lemma spends_if {A} t mo s ms (b : bool) (m1 m2 : Async A) :
  spends t mo s ms m1 -> spends t mo s ms m2 -> spends t mo s ms (if b then m1 else m2).
Proof. destruct b; auto. Qed.

End Budgets.

Section LoopBudgets.

Variable A : Type.
Variable attempt : Async A.
Variable loop : Z -> Async A.
Variable retryable : string -> bool.
Variable wrap : Z -> string -> string.

Hypothesis loop_step : forall k w,
  loop k w =
    match attempt w with
    | (Ok a, w1) => (Ok a, w1)
    | (Throw e, w1) =>
        if (k <=? RETRY_CONFIG.maxRetries)%Z && retryable e
        then loop (k + 1) (record (Slept (calculateDelay k)) w1)
        else (Throw (wrap k e), w1)
    end.

Variables t mo s : nat.
Hypothesis attempt_spends : spends t mo s 0 attempt.

Lemma calculateDelay_nonneg k : 0 <= calculateDelay k.
Proof.
  unfold calculateDelay, RETRY_CONFIG.baseDelay, RETRY_CONFIG.backoffFactor,
    RETRY_CONFIG.maxDelay.
  pose proof (Z.pow_nonneg 2 (k - 1)). lia.
Qed.

Lemma sleepFrom_nonneg k : 0 <= sleepFrom k.
Proof.
  unfold sleepFrom. generalize (Z.to_nat (RETRY_CONFIG.maxRetries + 1 - k)). intros n.
  revert k. induction n as [|n IH]; intros k; simpl; [lia|].
  pose proof (calculateDelay_nonneg k). pose proof (IH (k + 1)). lia.
Qed.

(** A loop at attempt [k] spends at most what its remaining attempts
    spend, and sleeps at most the remaining delays. *)
Lemma loop_spends :
  forall k,
    spends (t * attemptsFrom k) (mo * attemptsFrom k) (s * attemptsFrom k) (sleepFrom k)
      (loop k).
Proof.
  apply (retry_induction (fun k =>
           spends (t * attemptsFrom k) (mo * attemptsFrom k) (s * attemptsFrom k)
             (sleepFrom k) (loop k))).
  intros k IH w. rewrite loop_step.
  destruct (attempt_spends w) as (es0 & Hj0 & Ht0 & Hm0 & Hs0 & Hz0).
  pose proof (sleepFrom_nonneg k) as Hpos.
  assert (Hone : within (t * attemptsFrom k) (mo * attemptsFrom k) (s * attemptsFrom k)
                   (sleepFrom k) es0).
  { unfold attemptsFrom. repeat split; first [lia | nia]. }
  destruct (attempt w) as [[a|e0] w1]; simpl in Hj0; [exists es0; auto|].
  destruct (Z.leb_spec k RETRY_CONFIG.maxRetries) as [Hk|Hk]; simpl; [|exists es0; auto].
  destruct (retryable e0); [|exists es0; auto].
  destruct (IH Hk (record (Slept (calculateDelay k)) w1))
    as (es & Hj & Ht & Hm & Hs & Hz).
  exists (es0 ++ [Slept (calculateDelay k)] ++ es).
  split; [rewrite Hj; simpl; rewrite Hj0, <- !app_assoc; reflexivity|].
  assert (Hn : Z.to_nat (RETRY_CONFIG.maxRetries + 1 - k)
               = S (Z.to_nat (RETRY_CONFIG.maxRetries + 1 - (k + 1))))
    by (unfold RETRY_CONFIG.maxRetries in *; lia).
  unfold within, attemptsFrom, sleepFrom in *. rewrite Hn.
  rewrite !tokenRequests_app, !modelInvocations_app, !storeCalls_app, !totalSleep_app.
  cbn [delaysFrom fold_right].
  change (tokenRequests [Slept (calculateDelay k)]) with 0%nat.
  change (modelInvocations [Slept (calculateDelay k)]) with 0%nat.
  change (storeCalls [Slept (calculateDelay k)]) with 0%nat.
  replace (totalSleep [Slept (calculateDelay k)]) with (calculateDelay k)
    by (unfold totalSleep; simpl; lia).
  repeat split; first [lia | nia].
Qed.

End LoopBudgets.

Section Costs.

Context {runtime : Runtime}.

Lemma spends_free {A} t mo s ms (m : Async A) :
  0 <= ms -> spends 0 0 0 0 m -> spends t mo s ms m.
Proof. intros Hpos H. eapply spends_weaken; [exact H | lia..]. Qed.

Lemma spends_then {A B} t mo s ms (m : Async A) (k : A -> Async B) :
  0 <= ms -> spends 0 0 0 0 m -> (forall a, spends t mo s ms (k a)) ->
  spends t mo s ms (bind m k).
Proof.
  intros Hpos Hm Hk.
  apply (spends_bind 0 0 0 0 t mo s ms m k Hpos Hm Hk).
Qed.

(** Steps that cost nothing, up to the next one that does. *)
Ltac free_steps :=
  repeat first
    [ apply spends_then;
      [ lia
      | first [ apply spends_lift | apply spends_newDate | apply spends_generateUUID
              | apply spends_waitUntil | apply spends_ret | apply spends_throw ]
      | intros ? ]
    | apply spends_if
    | apply spends_free;
      [ lia
      | first [ apply spends_lift | apply spends_ret | apply spends_throw ] ] ].

Lemma getAccessToken_spends key : spends 4 0 0 7000 (getAccessToken key 1).
Proof.
  assert (Hstep : forall k w0,
             getAccessToken key k w0 =
               match getAccessToken_attempt key w0 with
               | (Ok a, w1) => (Ok a, w1)
               | (Throw e, w1) =>
                   if (k <=? RETRY_CONFIG.maxRetries)%Z && true
                   then getAccessToken key (k + 1) (record (Slept (calculateDelay k)) w1)
                   else (Throw ("Failed to get access token after 4 attempts: " +:+ e), w1)
               end).
  { intros k w0. rewrite getAccessToken_step, andb_true_r. reflexivity. }
  assert (Hattempt : spends 1 0 0 0 (getAccessToken_attempt key)).
  { intros w. unfold getAccessToken_attempt, bind, lift, throw.
    assert (Hnone : exists es, journal w = journal w ++ es /\ within 1 0 0 0 es).
    { exists []. rewrite app_nil_r. split; [reflexivity | count_events]. }
    assert (Hone : exists es, journal w ++ [TokenRequested] = journal w ++ es
                              /\ within 1 0 0 0 es).
    { exists [TokenRequested]. split; [reflexivity | count_events]. }
    destruct (JSON_parse key) as [serviceAccount|e]; [|exact Hnone].
    destruct (createJWT serviceAccount) as [jwt|e]; [|exact Hnone].
    unfold fetchToken.
    destruct (deliver (head (tokenEndpoint w))) as [response|e]; simpl; [|exact Hone].
    destruct (ok response); simpl; [|exact Hone].
    destruct (body response) as [data|e]; simpl; exact Hone. }
  exact (loop_spends JSValue (getAccessToken_attempt key) (getAccessToken key)
           (fun _ => true)
           (fun _ e => "Failed to get access token after 4 attempts: " +:+ e)
           Hstep 1 0 0 Hattempt 1).
Qed.

Lemma generateItinerary_spends destination n apiKey :
  spends 0 4 0 7000 (generateItinerary destination n apiKey 1).
Proof.
  assert (Hattempt : spends 0 1 0 0 (generateItinerary_attempt n)).
  { intros w. exists [ModelInvoked]. split; [|count_events].
    unfold generateItinerary_attempt, bind, lift.
    destruct (requestCompletion w) as [[content|e] w1] eqn:Hreq; simpl;
      rewrite (requestCompletion_journal _ _ _ Hreq); reflexivity. }
  exact (loop_spends (list Day) (generateItinerary_attempt n)
           (generateItinerary destination n apiKey) isRetryableError
           (fun k e => "Failed to generate itinerary after " +:+ JsNumber.toString k
                       +:+ " attempts: " +:+ e)
           (generateItinerary_step destination n apiKey) 0 1 0 Hattempt 1).
Qed.

Lemma storeCall_within es :
  storeCalls es = 1%nat -> tokenRequests es = 0%nat -> modelInvocations es = 0%nat ->
  sleeps es = [] -> within 0 0 1 0 es.
Proof.
  intros Hs Ht Hm Hz. unfold within, totalSleep. rewrite Hs, Ht, Hm, Hz. simpl. lia.
Qed.

Lemma createFirestoreDocument_spends projectId accessToken collection docId data :
  spends 0 0 4 7000 (createFirestoreDocument projectId accessToken collection docId data 1).
Proof.
  assert (Hattempt : spends 0 0 1 0 (createFirestoreDocument_attempt collection docId data)).
  { intros w. unfold createFirestoreDocument_attempt, bind, storeCreate, throw, lift.
    destruct (pendingFault w) as [[m|st tx]|]; simpl;
      try (exists [StoreCalled]; split; [reflexivity | apply storeCall_within; reflexivity]).
    destruct (documents w !! documentName collection docId); simpl.
    - exists [StoreCalled]. split; [reflexivity | apply storeCall_within; reflexivity].
    - eexists [StoreCalled; DocumentCreated _ _]. rewrite <- app_assoc.
      split; [reflexivity | apply storeCall_within; reflexivity]. }
  exact (loop_spends Fields (createFirestoreDocument_attempt collection docId data)
           (createFirestoreDocument projectId accessToken collection docId data)
           firestoreRetryable (fun _ e => e)
           (createFirestoreDocument_step projectId accessToken collection docId data)
           0 0 1 Hattempt 1).
Qed.

Lemma updateFirestoreDocument_spends projectId accessToken collection docId data :
  spends 0 0 4 7000 (updateFirestoreDocument projectId accessToken collection docId data 1).
Proof.
  assert (Hattempt : spends 0 0 1 0 (updateFirestoreDocument_attempt collection docId data)).
  { intros w. unfold updateFirestoreDocument_attempt, bind, storePatch, throw, lift.
    destruct (pendingFault w) as [[m|st tx]|]; simpl;
      try (exists [StoreCalled]; split; [reflexivity | apply storeCall_within; reflexivity]).
    destruct (documents w !! documentName collection docId); simpl.
    - eexists [StoreCalled; DocumentPatched _ _]. rewrite <- app_assoc.
      split; [reflexivity | apply storeCall_within; reflexivity].
    - exists [StoreCalled]. split; [reflexivity | apply storeCall_within; reflexivity]. }
  exact (loop_spends Fields (updateFirestoreDocument_attempt collection docId data)
           (updateFirestoreDocument projectId accessToken collection docId data)
           firestoreRetryable (fun _ e => e)
           (updateFirestoreDocument_step projectId accessToken collection docId data)
           0 0 1 Hattempt 1).
Qed.

Lemma storeGet_spends collection docId : spends 0 0 1 0 (storeGet collection docId).
Proof.
  intros w. exists [StoreCalled]. split; [|apply storeCall_within; reflexivity].
  unfold storeGet.
  destruct (pendingFault w) as [f|]; [|destruct (documents w !! _)]; reflexivity.
Qed.

Lemma processItineraryGeneration_catch_spends jobId key accessToken serviceAccount
    projectId error :
  spends 4 0 4 14000
    (processItineraryGeneration_catch jobId key accessToken serviceAccount projectId error).
Proof.
  unfold processItineraryGeneration_catch.
  apply (spends_tryCatch 4 0 4 14000 0 0 0 0); [lia| |intros e; apply spends_ret].
  apply (spends_bind 4 0 0 7000 0 0 4 7000); [lia| |intros token].
  - apply spends_if; [apply getAccessToken_spends|].
    apply spends_free; [lia | apply spends_ret].
  - apply spends_if; [|apply spends_free; [lia | apply spends_ret]].
    apply spends_then; [lia | apply spends_newDate | intros completedAt].
    apply (spends_bind 0 0 4 7000 0 0 0 0); [lia| |intros document; apply spends_ret].
    apply updateFirestoreDocument_spends.
Qed.

(** X18. What a background task can cost.  A run of
    [processItineraryGeneration] only adds to the journal, and what it adds
    holds at most 8 requests to the token endpoint, 4 invocations of the
    model and 8 calls to the store, with at most 35 seconds asleep between
    attempts. *)
Theorem task_effort (t : Task) (w : World) :
  exists es,
    journal (snd (runTask t w)) = journal w ++ es
    /\ (tokenRequests es <= 8)%nat /\ (modelInvocations es <= 4)%nat
    /\ (storeCalls es <= 8)%nat /\ totalSleep es <= 35000.
Proof.
  revert w. change (spends 8 4 8 35000 (runTask t)).
  unfold runTask, processItineraryGeneration.
  apply (spends_orElse 0 0 0 0 8 4 8 35000); [apply spends_lift| |intros serviceAccount].
  { intros e. eapply spends_weaken; [apply processItineraryGeneration_catch_spends | lia..]. }
  apply (spends_orElse 0 0 0 0 8 4 8 35000); [apply spends_lift| |intros projectId].
  { intros e. eapply spends_weaken; [apply processItineraryGeneration_catch_spends | lia..]. }
  apply (spends_orElse 4 0 0 7000 4 4 8 28000);
    [apply getAccessToken_spends| |intros accessToken].
  { intros e. eapply spends_weaken; [apply processItineraryGeneration_catch_spends | lia..]. }
  apply (spends_orElse 0 4 0 7000 4 0 8 21000);
    [apply generateItinerary_spends| |intros itinerary].
  { intros e. eapply spends_weaken; [apply processItineraryGeneration_catch_spends | lia..]. }
  apply (spends_orElse 0 0 4 7000 4 0 4 14000).
  - apply spends_then; [lia | apply spends_newDate | intros completedAt].
    apply updateFirestoreDocument_spends.
  - intros e. apply processItineraryGeneration_catch_spends.
  - intros document. apply spends_free; [lia | apply spends_ret].
Qed.

(** X19. What a request can cost.  Answering a request only adds to the
    journal; the handler never invokes the model, sends at most 4 requests
    to the token endpoint, calls the store at most 4 times, and spends at
    most 14 seconds asleep before it answers. *)
Theorem request_effort (request : Request) (env : Env) (w : World) :
  exists es,
    journal (snd (fetch request env w)) = journal w ++ es
    /\ (tokenRequests es <= 4)%nat /\ (modelInvocations es <= 0)%nat
    /\ (storeCalls es <= 4)%nat /\ totalSleep es <= 14000.
Proof.
  revert w. change (spends 4 0 4 14000 (fetch request env)).
  unfold fetch.
  apply spends_if; [apply spends_free; [lia | apply spends_ret]|].
  apply spends_if; [|apply spends_if; [apply spends_free; [lia | apply spends_ret]|]].
  - unfold fetch_GET. cbv zeta.
    apply spends_if; [apply spends_free; [lia | apply spends_ret]|].
    apply (spends_tryCatch 4 0 4 14000 0 0 0 0); [lia| |intros e; apply spends_ret].
    apply spends_if; [apply spends_free; [lia | apply spends_throw]|].
    apply spends_then; [lia | apply spends_lift | intros serviceAccount].
    apply (spends_bind 4 0 0 7000 0 0 4 7000);
      [lia | apply getAccessToken_spends | intros accessToken].
    apply spends_then; [lia | apply spends_lift | intros projectId].
    apply (spends_bind 0 0 1 0 0 0 3 7000);
      [lia | apply storeGet_spends | intros response].
    free_steps.
  - unfold fetch_POST.
    apply (spends_tryCatch 4 0 4 14000 0 0 0 0); [lia| |intros e; apply spends_ret].
    free_steps.
    apply (spends_bind 4 0 0 7000 0 0 4 7000);
      [lia | apply getAccessToken_spends | intros accessToken].
    free_steps.
    apply (spends_bind 0 0 4 7000 0 0 0 0);
      [lia | apply createFirestoreDocument_spends | intros document].
    free_steps.
Qed.

End Costs.

(** ** Strings: what cleaning and path splitting keep *)

Section Strings.

Lemma append_cons (x : ascii) (a b : string) : String x a +:+ b = String x (a +:+ b).
Proof. reflexivity. Qed.

Lemma append_nil_l (b : string) : EmptyString +:+ b = b.
Proof. reflexivity. Qed.

Ltac norm := rewrite ?append_cons, ?append_nil_l.

Lemma length_append_string (a b : string) :
  String.length (a +:+ b) = (String.length a + String.length b)%nat.
Proof. induction a as [|c a IH]; norm; simpl; [reflexivity | rewrite IH; reflexivity]. Qed.

Lemma append_assoc_string (a b c : string) : (a +:+ b) +:+ c = a +:+ b +:+ c.
Proof. induction a as [|x a IH]; norm; [reflexivity | rewrite IH; reflexivity]. Qed.

Lemma append_nil_r_string (a : string) : a +:+ EmptyString = a.
Proof. induction a as [|x a IH]; norm; [reflexivity | rewrite IH; reflexivity]. Qed.

Lemma lacks_append c a b : lacks c (a +:+ b) = lacks c a && lacks c b.
Proof.
  induction a as [|x a IH]; norm; simpl; [reflexivity|].
  rewrite IH, andb_assoc. reflexivity.
Qed.

Lemma lacks_head c a rest : lacks c (String a rest) = true -> Ascii.eqb c a = false.
Proof.
  simpl. intros H. apply andb_true_iff in H as [H _]. apply negb_true_iff in H.
  rewrite Ascii.eqb_sym. exact H.
Qed.

Lemma lacks_tail c a rest : lacks c (String a rest) = true -> lacks c rest = true.
Proof. simpl. intros H. apply andb_true_iff in H as [_ H]. exact H. Qed.

Lemma startsWith_empty s : JsString.startsWith s EmptyString = true.
Proof. destruct s; reflexivity. Qed.

(** *** Dropping and taking *)

Lemma drop_append_length a b : JsString.drop (String.length a) (a +:+ b) = b.
Proof.
  induction a as [|x a IH]; norm; simpl; [destruct b; reflexivity | exact IH].
Qed.

Lemma drop_append n a b :
  (n <= String.length a)%nat -> JsString.drop n (a +:+ b) = JsString.drop n a +:+ b.
Proof.
  revert a. induction n as [|n IH]; intros a Hn; [reflexivity|].
  destruct a as [|x a]; simpl in Hn; [lia|]. norm. simpl. apply IH. lia.
Qed.

Lemma lacks_drop c n a : lacks c a = true -> lacks c (JsString.drop n a) = true.
Proof.
  revert a. induction n as [|n IH]; intros a H; [exact H|].
  destruct a as [|x a]; [reflexivity|]. simpl. apply IH. exact (lacks_tail _ _ _ H).
Qed.

Lemma take_drop n s : String.substring 0 n s +:+ JsString.drop n s = s.
Proof.
  revert n. induction s as [|x s IH]; intros [|n]; simpl; norm; try reflexivity.
  rewrite IH. reflexivity.
Qed.

Lemma substring_skip a n t :
  String.substring (String.length a) n (a +:+ t) = String.substring 0 n t.
Proof. induction a as [|x a IH]; norm; simpl; [reflexivity | exact IH]. Qed.

Lemma substring_prefix a t :
  String.substring 0 (String.length a) (a +:+ t) = a.
Proof.
  induction a as [|x a IH]; norm; simpl;
    [destruct t; reflexivity | rewrite IH; reflexivity].
Qed.

(** *** Two ways to split a string *)

Lemma append_eq_append (a b c d : string) :
  a +:+ b = c +:+ d ->
  (exists m, a = c +:+ m /\ d = m +:+ b) \/ (exists m, c = a +:+ m /\ b = m +:+ d).
Proof.
  revert c. induction a as [|x a IH]; intros c H.
  - right. exists c. split; [reflexivity | exact H].
  - destruct c as [|y c].
    + left. exists (String x a). split; [reflexivity | symmetry; exact H].
    + rewrite !append_cons in H. injection H as -> H.
      destruct (IH c H) as [(m & -> & ->)|(m & -> & ->)].
      * left. exists m. split; reflexivity.
      * right. exists m. split; reflexivity.
Qed.

Lemma last_character (a b : string) (x y : ascii) :
  a +:+ String x EmptyString = b +:+ String y EmptyString -> x = y.
Proof.
  revert b. induction a as [|c a IH]; intros [|d b] H;
    rewrite ?append_cons, ?append_nil_l in H.
  - congruence.
  - injection H as _ H. destruct b; discriminate H.
  - injection H as _ H. destruct a; discriminate H.
  - injection H as _ H. exact (IH b H).
Qed.

(** *** Trimming *)

Lemma trimEnd_keeps (a : string) (c : ascii) (rest : string) :
  JsString.isWhitespace c = false ->
  JsString.trimEnd (a +:+ String c rest) = a +:+ String c (JsString.trimEnd rest).
Proof.
  intros Hc. induction a as [|x a IH]; norm.
  - simpl. destruct (JsString.trimEnd rest); [rewrite Hc|]; reflexivity.
  - cbn [JsString.trimEnd]. rewrite IH.
    destruct a; reflexivity.
Qed.

Lemma lacks_trimEnd c s : lacks c s = true -> lacks c (JsString.trimEnd s) = true.
Proof.
  induction s as [|x s IH]; intros H; [reflexivity|].
  pose proof (lacks_tail _ _ _ H) as Ht. specialize (IH Ht).
  cbn [JsString.trimEnd].
  simpl in H. apply andb_true_iff in H as [H _].
  destruct (JsString.trimEnd s) eqn:He.
  - destruct (JsString.isWhitespace x); [reflexivity|].
    simpl. rewrite H. reflexivity.
  - cbn [lacks]. cbn [lacks] in IH. rewrite H, IH. reflexivity.
Qed.

Lemma trimStart_wrapped (c : ascii) (p rest : string) :
  JsString.isWhitespace c = false -> lacks c p = true ->
  exists p', JsString.trimStart (p +:+ String c rest) = p' +:+ String c rest
             /\ lacks c p' = true.
Proof.
  intros Hc. induction p as [|x p IH]; intros Hp; norm.
  - exists EmptyString. simpl. rewrite Hc. split; reflexivity.
  - cbn [JsString.trimStart]. destruct (JsString.isWhitespace x).
    + apply IH. exact (lacks_tail _ _ _ Hp).
    + exists (String x p). split; [reflexivity | exact Hp].
Qed.

Lemma trimEnd_wrapped (c : ascii) (a q : string) :
  JsString.isWhitespace c = false -> lacks c q = true ->
  exists q', JsString.trimEnd (a +:+ String c q) = a +:+ String c q'
             /\ lacks c q' = true.
Proof.
  intros Hc Hq. exists (JsString.trimEnd q).
  split; [apply trimEnd_keeps, Hc | apply lacks_trimEnd, Hq].
Qed.

(** *** Searching *)

Lemma startsWith_inside (c : ascii) (pattern p rest : string) :
  lacks c pattern = true ->
  JsString.startsWith (p +:+ String c rest) pattern = true ->
  (String.length pattern <= String.length p)%nat.
Proof.
  revert p. induction pattern as [|a pattern IH]; intros p Hlacks H; [simpl; lia|].
  destruct p as [|b p]; rewrite ?append_cons, ?append_nil_l in H; simpl in H.
  - rewrite (Ascii.eqb_sym a c), (lacks_head _ _ _ Hlacks) in H. discriminate H.
  - destruct (Ascii.eqb a b); [|discriminate H].
    simpl. apply le_n_S, IH; [exact (lacks_tail _ _ _ Hlacks) | exact H].
Qed.

Lemma toLowerCase_append a b :
  JsString.toLowerCase (a +:+ b) = JsString.toLowerCase a +:+ JsString.toLowerCase b.
Proof.
  induction a as [|x a IH]; norm; simpl; [reflexivity|]. rewrite IH. reflexivity.
Qed.

Lemma length_toLowerCase a : String.length (JsString.toLowerCase a) = String.length a.
Proof. induction a as [|x a IH]; simpl; [reflexivity | rewrite IH; reflexivity]. Qed.

Lemma indexOf_first (c : ascii) (p rest : string) :
  lacks c p = true ->
  JsString.indexOf (p +:+ String c rest) (String c EmptyString) = Some (String.length p).
Proof.
  induction p as [|x p IH]; intros Hp; norm.
  - simpl. rewrite Ascii.eqb_refl, startsWith_empty. reflexivity.
  - cbn [JsString.indexOf JsString.startsWith].
    rewrite (lacks_head _ _ _ Hp), (IH (lacks_tail _ _ _ Hp)). reflexivity.
Qed.

Lemma lastIndexOf_none (c : ascii) (q : string) :
  lacks c q = true -> JsString.lastIndexOf q (String c EmptyString) = None.
Proof.
  induction q as [|x q IH]; intros Hq; [reflexivity|].
  cbn [JsString.lastIndexOf JsString.startsWith].
  rewrite (IH (lacks_tail _ _ _ Hq)), (lacks_head _ _ _ Hq). reflexivity.
Qed.

Lemma lastIndexOf_last (c : ascii) (a q : string) :
  lacks c q = true ->
  JsString.lastIndexOf (a +:+ String c q) (String c EmptyString) = Some (String.length a).
Proof.
  intros Hq. induction a as [|x a IH]; norm.
  - cbn [JsString.lastIndexOf JsString.startsWith].
    rewrite (lastIndexOf_none c q Hq), Ascii.eqb_refl, startsWith_empty. reflexivity.
  - cbn [JsString.lastIndexOf]. rewrite IH. reflexivity.
Qed.

(** *** The steps of the cleaning *)

Lemma cleanOpenAIResponse_steps content :
  cleanOpenAIResponse content
  = JsString.trim
      (cutToBrackets (stripEndFence (stripFence (stripJsonFence (JsString.trim content))))).
Proof. reflexivity. Qed.

Lemma wrapped_at_end mid p q :
  wrapped mid p q = (p +:+ String "[" mid) +:+ String "]" q.
Proof. unfold wrapped. rewrite append_assoc_string, append_cons. reflexivity. Qed.

Lemma trim_wrapped mid p q :
  lacks "[" p = true -> lacks "]" q = true ->
  exists p' q', JsString.trim (wrapped mid p q) = wrapped mid p' q'
                /\ lacks "[" p' = true /\ lacks "]" q' = true.
Proof.
  intros Hp Hq. unfold JsString.trim.
  destruct (trimStart_wrapped "[" p (mid +:+ String "]" q) eq_refl Hp) as (p' & Hs & Hp').
  unfold wrapped at 1. rewrite Hs. fold (wrapped mid p' q). rewrite wrapped_at_end.
  destruct (trimEnd_wrapped "]" (p' +:+ String "[" mid) q eq_refl Hq) as (q' & He & Hq').
  rewrite He, <- wrapped_at_end. eauto.
Qed.

Lemma strip_start_wrapped mid (b : bool) (n : nat) p q :
  (b = true -> (n <= String.length p)%nat) -> lacks "[" p = true ->
  exists p', (if b then JsString.trimStart (JsString.drop n (wrapped mid p q))
              else wrapped mid p q) = wrapped mid p' q
             /\ lacks "[" p' = true.
Proof.
  intros Hn Hp. destruct b; [|eauto].
  unfold wrapped at 1. rewrite (drop_append n p _ (Hn eq_refl)).
  destruct (trimStart_wrapped "[" (JsString.drop n p) (mid +:+ String "]" q) eq_refl
              (lacks_drop _ _ _ Hp)) as (p' & Hs & Hp').
  rewrite Hs. eauto.
Qed.

Lemma stripJsonFence_wrapped mid p q :
  lacks "[" p = true ->
  exists p', stripJsonFence (wrapped mid p q) = wrapped mid p' q /\ lacks "[" p' = true.
Proof.
  intros Hp. unfold stripJsonFence. apply strip_start_wrapped; [|exact Hp].
  unfold wrapped. rewrite toLowerCase_append. intros H.
  rewrite <- (length_toLowerCase p).
  exact (startsWith_inside "[" "```json" _ _ eq_refl H).
Qed.

Lemma stripFence_wrapped mid p q :
  lacks "[" p = true ->
  exists p', stripFence (wrapped mid p q) = wrapped mid p' q /\ lacks "[" p' = true.
Proof.
  intros Hp. unfold stripFence. apply strip_start_wrapped; [|exact Hp].
  unfold wrapped. intros H. exact (startsWith_inside "[" "```" _ _ eq_refl H).
Qed.

Lemma endsWith_fence (a q : string) :
  lacks "]" q = true ->
  JsString.endsWith (a +:+ String "]" q) "```" = true ->
  exists q', JsString.substring 0 (String.length (a +:+ String "]" q) - 3)
               (a +:+ String "]" q) = a +:+ String "]" q'
             /\ lacks "]" q' = true.
Proof.
  intros Hq H. unfold JsString.endsWith in H. apply andb_true_iff in H as [_ H].
  apply String.eqb_eq in H.
  set (s := a +:+ String "]" q) in *. set (n := (String.length s - String.length "```")%nat) in *.
  pose proof (take_drop n s) as Hsplit. rewrite H in Hsplit.
  unfold JsString.substring. change (String.length s - 3)%nat with n.
  rewrite Nat.sub_0_r.
  assert (Hs : s = (a +:+ String "]" EmptyString) +:+ q)
    by (unfold s; rewrite append_assoc_string; reflexivity).
  rewrite Hs in Hsplit at 2.
  destruct (append_eq_append _ _ _ _ Hsplit) as [(m & Ht & Hm)|(m & Ht & Hm)].
  - exists m. split.
    + rewrite Ht, append_assoc_string. reflexivity.
    + rewrite Hm, lacks_append in Hq. apply andb_true_iff in Hq as [Hq _]. exact Hq.
  - destruct m as [|m1 [|m2 [|m3 [|m4 m]]]];
      rewrite ?append_cons, ?append_nil_l in Hm.
    + exists EmptyString. split; [|reflexivity].
      rewrite append_nil_r_string in Ht. rewrite <- Ht. reflexivity.
    + exfalso. injection Hm as <- _.
      pose proof (last_character _ _ _ _ Ht) as Hc. discriminate Hc.
    + exfalso. injection Hm as _ <- _.
      assert (Ht' : a +:+ String "]" EmptyString
                    = (String.substring 0 n s +:+ String m1 EmptyString)
                      +:+ String "`" EmptyString)
        by (rewrite append_assoc_string; exact Ht).
      pose proof (last_character _ _ _ _ Ht') as Hc. discriminate Hc.
    + exfalso. injection Hm as _ _ <- _.
      assert (Ht' : a +:+ String "]" EmptyString
                    = (String.substring 0 n s +:+ String m1 (String m2 EmptyString))
                      +:+ String "`" EmptyString)
        by (rewrite append_assoc_string; exact Ht).
      pose proof (last_character _ _ _ _ Ht') as Hc. discriminate Hc.
    + exfalso. injection Hm as _ _ _ Hm. destruct m; discriminate Hm.
Qed.

Lemma stripEndFence_wrapped mid p q :
  lacks "]" q = true ->
  exists q', stripEndFence (wrapped mid p q) = wrapped mid p q' /\ lacks "]" q' = true.
Proof.
  intros Hq. unfold stripEndFence.
  destruct (JsString.endsWith (wrapped mid p q) "```") eqn:Hends; [|eauto].
  rewrite wrapped_at_end in *.
  destruct (endsWith_fence _ q Hq Hends) as (q' & Hcut & Hq').
  rewrite Hcut.
  destruct (trimEnd_wrapped "]" (p +:+ String "[" mid) q' eq_refl Hq') as (q'' & He & Hq'').
  rewrite He. exists q''. split; [symmetry; apply wrapped_at_end | exact Hq''].
Qed.

Lemma cutToBrackets_wrapped mid p q :
  lacks "[" p = true -> lacks "]" q = true ->
  cutToBrackets (wrapped mid p q) = String "[" (mid +:+ String "]" EmptyString).
Proof.
  intros Hp Hq. unfold cutToBrackets.
  change "[" with (String "["%char EmptyString) at 1.
  change "]" with (String "]"%char EmptyString) at 1.
  unfold wrapped at 1. rewrite (indexOf_first "[" p _ Hp).
  rewrite wrapped_at_end at 1. rewrite (lastIndexOf_last "]" _ q Hq).
  rewrite length_append_string. cbn [String.length].
  assert (Hlt : (String.length p <? String.length p + S (String.length mid))%nat = true)
    by (apply Nat.ltb_lt; lia).
  rewrite Hlt. unfold JsString.substring, wrapped.
  rewrite substring_skip.
  replace (String.length p + S (String.length mid) + 1 - String.length p)%nat
    with (String.length (String "[" (mid +:+ String "]" EmptyString)))
    by (cbn [String.length]; rewrite length_append_string; simpl; lia).
  replace (String "[" (mid +:+ String "]" q))
    with (String "[" (mid +:+ String "]" EmptyString) +:+ q)
    by (rewrite append_cons, append_assoc_string; reflexivity).
  apply substring_prefix.
Qed.

(** The cleaning of a bracketed text in a wrapping. *)
Lemma cleanOpenAIResponse_wrapped (pre mid post : string) :
  lacks "[" pre = true -> lacks "]" post = true ->
  cleanOpenAIResponse (pre +:+ "[" +:+ mid +:+ "]" +:+ post) = "[" +:+ mid +:+ "]".
Proof.
  intros Hpre Hpost.
  change (pre +:+ "[" +:+ mid +:+ "]" +:+ post) with (wrapped mid pre post).
  rewrite cleanOpenAIResponse_steps.
  destruct (trim_wrapped mid pre post Hpre Hpost) as (p1 & q1 & -> & Hp1 & Hq1).
  destruct (stripJsonFence_wrapped mid p1 q1 Hp1) as (p2 & -> & Hp2).
  destruct (stripFence_wrapped mid p2 q1 Hp2) as (p3 & -> & Hp3).
  destruct (stripEndFence_wrapped mid p3 q1 Hq1) as (q2 & -> & Hq2).
  rewrite (cutToBrackets_wrapped mid p3 q2 Hp3 Hq2).
  unfold JsString.trim. cbn [JsString.trimStart].
  change (JsString.isWhitespace "[") with false. cbv iota.
  change (String "[" (mid +:+ String "]" EmptyString))
    with (String "[" mid +:+ String "]" EmptyString).
  rewrite (trimEnd_keeps (String "[" mid) "]" EmptyString eq_refl). reflexivity.
Qed.

(** X20. Cleaning finds the array in a wrapped reply.  When the text of
    a reply is a bracketed text [[mid]] after a prefix without an opening
    bracket and before a suffix without a closing one (white space, a code
    fence with or without the [json] tag, a sentence before or after),
    [cleanOpenAIResponse] returns exactly [[mid]], whatever [mid] holds. *)
Theorem cleanOpenAIResponse_extracts_array (pre mid post : string) :
  lacks "[" pre = true -> lacks "]" post = true ->
  cleanOpenAIResponse (pre +:+ "[" +:+ mid +:+ "]" +:+ post) = "[" +:+ mid +:+ "]".
Proof.
  intros Hpre Hpost. exact (cleanOpenAIResponse_wrapped pre mid post Hpre Hpost).
Qed.

(** *** The last segment of a path *)

Lemma drop_past a c q : JsString.drop (S (String.length a)) (a +:+ String c q) = q.
Proof.
  induction a as [|x a IH]; norm; simpl; [destruct q; reflexivity | exact IH].
Qed.

Lemma lastSegment_append (directory name : string) :
  lacks "/" name = true -> lastSegment (directory +:+ "/" +:+ name) = name.
Proof.
  intros Hname. unfold lastSegment.
  change (directory +:+ "/" +:+ name) with (directory +:+ String "/" name).
  change "/" with (String "/"%char EmptyString).
  rewrite (lastIndexOf_last "/" directory name Hname). apply drop_past.
Qed.

End Strings.

Lemma cleanOpenAIResponse_extracts_array_witness :
  cleanOpenAIResponse
    ("Here is the plan: ```json " +:+ "[" +:+ "1, [2, 3], 4" +:+ "]" +:+ " ``` Enjoy!")
  = "[" +:+ "1, [2, 3], 4" +:+ "]".
Proof. apply cleanOpenAIResponse_extracts_array; reflexivity. Defined.

Section JobNames.

Context {runtime : Runtime}.

(** X21. A job can be named in the path or in the query.  A status read
    whose path ends in a slash followed by an identifier, and that has no
    [jobId] parameter or an empty one, is the status read with that
    identifier as its [jobId] parameter: the handler does the same and
    answers the same. *)
Theorem job_named_by_path_or_query (directory id other : string) (m1 m2 : string)
    (j1 j2 : Completion JSValue) (env : Env) :
  lacks "/" id = true -> id <> EmptyString ->
  fetch_GET (mkRequest m1 None (directory +:+ "/" +:+ id) j1) env
  = fetch_GET (mkRequest m2 (Some id) other j2) env
  /\ fetch_GET (mkRequest m1 (Some EmptyString) (directory +:+ "/" +:+ id) j1) env
     = fetch_GET (mkRequest m2 (Some id) other j2) env.
Proof.
  intros Hid Hne. apply String.eqb_neq in Hne.
  unfold fetch_GET. cbn [searchParams_jobId pathname String.eqb].
  rewrite (lastSegment_append directory id Hid), Hne. cbv iota. rewrite ?Hne.
  split; reflexivity.
Qed.

End JobNames.

Lemma job_named_by_path_or_query_witness :
  fetch_GET (runtime := DemoRuntime.runtime)
    (mkRequest "GET" None ("/status" +:+ "/" +:+ Sample.jobId) (Throw "no body")) Sample.env
  = fetch_GET (runtime := DemoRuntime.runtime)
      (mkRequest "GET" (Some Sample.jobId) "/" (Throw "no body")) Sample.env
  /\ fetch_GET (runtime := DemoRuntime.runtime)
       (mkRequest "GET" (Some EmptyString) ("/status" +:+ "/" +:+ Sample.jobId)
          (Throw "no body")) Sample.env
     = fetch_GET (runtime := DemoRuntime.runtime)
         (mkRequest "GET" (Some Sample.jobId) "/" (Throw "no body")) Sample.env.
Proof.
  apply (job_named_by_path_or_query (runtime := DemoRuntime.runtime) "/status" Sample.jobId
           "/" "GET" "GET" (Throw "no body") (Throw "no body") Sample.env eq_refl).
  discriminate.
Defined.

(** ** The good path and a dead end *)

Section Paths.

Context {runtime : Runtime}.

(** X22. A well-formed reply is returned at once, wrapped or not.  When
    the text of the model's reply is the JSON text of a well-formed
    itinerary for the days asked, alone or inside a code fence or between
    sentences without brackets, [generateItinerary] returns that itinerary
    from this attempt: it invokes the model once and does not sleep. *)
Theorem wrapped_reply_is_accepted (destination : string) (n : Z) (apiKey : string)
    (k : Z) (w : World) (pre mid post : string) (w1 : World) (days : list Day) :
  requestCompletion w = (Ok (pre +:+ "[" +:+ mid +:+ "]" +:+ post), w1) ->
  lacks "[" pre = true -> lacks "]" post = true ->
  JSON_parse ("[" +:+ mid +:+ "]") = Ok (jsItinerary days) ->
  wellFormedItinerary n days = true ->
  generateItinerary destination n apiKey k w = (Ok days, w1)
  /\ journal w1 = journal w ++ [ModelInvoked].
Proof.
  intros Hreq Hpre Hpost Hparse Hwf. split.
  - rewrite generateItinerary_step. unfold generateItinerary_attempt, bind, lift.
    rewrite Hreq. unfold parseItinerary.
    rewrite (cleanOpenAIResponse_wrapped pre mid post Hpre Hpost), Hparse.
    rewrite (validateItinerary_accepts n days Hwf). reflexivity.
  - exact (requestCompletion_journal _ _ _ Hreq).
Qed.

Lemma tokenOutage_tail w :
  tokenOutage w = true -> forallb exchangeFails (tail (tokenEndpoint w)) = true.
Proof.
  unfold tokenOutage. destruct (tokenEndpoint w) as [|o rest]; [reflexivity|].
  simpl. intros H. apply andb_true_iff in H as [_ H]. exact H.
Qed.

Lemma getAccessToken_attempt_outage key w :
  tokenOutage w = true ->
  exists e w1, getAccessToken_attempt key w = (Throw e, w1) /\ tokenOutage w1 = true.
Proof.
  intros Hout. unfold getAccessToken_attempt, bind, lift, throw.
  destruct (JSON_parse key) as [serviceAccount|e]; [|eauto].
  destruct (createJWT serviceAccount) as [jwt|e]; [|eauto].
  unfold fetchToken. pose proof (tokenOutage_tail w Hout) as Htail.
  unfold tokenOutage in Hout.
  destruct (tokenEndpoint w) as [|[m|response] rest]; simpl.
  - eexists _, _. split; [reflexivity | exact Htail].
  - eexists _, _. split; [reflexivity | exact Htail].
  - simpl in Hout. apply andb_true_iff in Hout as [Hfail _]. rewrite Hfail.
    eexists _, _. split; [reflexivity | exact Htail].
Qed.

Lemma getAccessToken_outage key :
  forall k w,
    tokenOutage w = true ->
    exists e w1, getAccessToken key k w = (Throw e, w1) /\ tokenOutage w1 = true.
Proof.
  apply (retry_induction (fun k => forall w, tokenOutage w = true ->
           exists e w1, getAccessToken key k w = (Throw e, w1) /\ tokenOutage w1 = true)).
  intros k IH w Hout. rewrite getAccessToken_step.
  destruct (getAccessToken_attempt_outage key w Hout) as (e & w1 & -> & Hout1).
  destruct (Z.leb_spec k RETRY_CONFIG.maxRetries) as [Hk|Hk]; [|eauto].
  exact (IH Hk (record (Slept (calculateDelay k)) w1) Hout1).
Qed.

(** X23. While the token endpoint is down, a task leaves no trace.  When
    every answer of the token endpoint fails, a run of the background task
    ends normally without one invocation of the model and without one call
    to the store: the document of the job stays as it is, and with it the
    status [processing]; the failure is recorded nowhere. *)
Theorem token_outage_leaves_job_untouched (t : Task) (w : World) :
  tokenOutage w = true ->
  let w' := snd (runTask t w) in
  fst (runTask t w) = Ok tt
  /\ documents w' = documents w
  /\ exists es, journal w' = journal w ++ es
                /\ modelInvocations es = 0%nat /\ storeCalls es = 0%nat
                /\ (tokenRequests es <= 8)%nat.
Proof.
  intros Hout. cbv zeta.
  assert (Hcatch : forall serviceAccount projectId error w0,
            tokenOutage w0 = true ->
            let run := processItineraryGeneration_catch (task_jobId t)
                         (task_serviceAccountKey t) JNull serviceAccount projectId error w0 in
            fst run = Ok tt /\ documents (snd run) = documents w0
            /\ exists es, journal (snd run) = journal w0 ++ es /\ within 4 0 0 7000 es).
  { intros serviceAccount projectId error w0 Hout0. cbv zeta.
    unfold processItineraryGeneration_catch, tryCatch, bind.
    cbn [Js.truthy negb andb].
    destruct (Js.truthy serviceAccount).
    - destruct (quiet_getAccessToken (task_serviceAccountKey t) 1 w0) as (_ & Hd & _).
      pose proof (getAccessToken_spends (task_serviceAccountKey t) w0) as Hs.
      destruct (getAccessToken_outage (task_serviceAccountKey t) 1 w0 Hout0)
        as (e & w1 & Hrun & _).
      rewrite Hrun in *. simpl in Hd, Hs. unfold ret. simpl.
      split; [reflexivity | split; [exact Hd | exact Hs]].
    - unfold ret. simpl. split; [reflexivity | split; [reflexivity|]].
      exists []. rewrite app_nil_r. split; [reflexivity|].
      eapply within_weaken; [apply within_nil | lia..]. }
  assert (Hsum : forall w0 w1 : World,
            documents w0 = documents w ->
            (exists es, journal w0 = journal w ++ es /\ within 4 0 0 7000 es) ->
            documents w1 = documents w0
            /\ (exists es, journal w1 = journal w0 ++ es /\ within 4 0 0 7000 es) ->
            documents w1 = documents w
            /\ exists es, journal w1 = journal w ++ es
                          /\ modelInvocations es = 0%nat /\ storeCalls es = 0%nat
                          /\ (tokenRequests es <= 8)%nat).
  { intros w0 w1 Hd0 (es0 & Hj0 & Hw0) (Hd1 & es1 & Hj1 & Hw1).
    split; [congruence|]. exists (es0 ++ es1).
    split; [rewrite Hj1, Hj0, app_assoc; reflexivity|].
    destruct (within_app _ _ _ _ _ _ _ _ _ _ Hw0 Hw1) as (Ht & Hm & Hs & _).
    simpl in Ht, Hm, Hs. repeat split; lia. }
  assert (Hstart : exists es, journal w = journal w ++ es /\ within 4 0 0 7000 es).
  { exists []. rewrite app_nil_r. split; [reflexivity|].
    eapply within_weaken; [apply within_nil | lia..]. }
  unfold runTask, processItineraryGeneration, orElse, lift.
  destruct (JSON_parse (task_serviceAccountKey t)) as [serviceAccount|e].
  2:{ destruct (Hcatch JNull JNull e w Hout) as (Hok & Hq).
      split; [exact Hok|]. exact (Hsum w _ eq_refl Hstart Hq). }
  destruct (getProp serviceAccount "project_id") as [projectId|e].
  2:{ destruct (Hcatch serviceAccount JNull e w Hout) as (Hok & Hq).
      split; [exact Hok|]. exact (Hsum w _ eq_refl Hstart Hq). }
  destruct (quiet_getAccessToken (task_serviceAccountKey t) 1 w) as (_ & Hd1 & _).
  pose proof (getAccessToken_spends (task_serviceAccountKey t) w) as Hs1.
  destruct (getAccessToken_outage (task_serviceAccountKey t) 1 w Hout)
    as (e & w1 & Hrun & Hout1).
  rewrite Hrun in *. simpl in Hd1, Hs1.
  destruct (Hcatch serviceAccount projectId e w1 Hout1) as (Hok & Hq).
  split; [exact Hok|]. exact (Hsum w1 _ Hd1 Hs1 Hq).
Qed.

End Paths.

Lemma wrapped_reply_is_accepted_witness :
  let mid := String.substring 1 (String.length Sample.oneDayReply - 2) Sample.oneDayReply in
  let w := Sample.world []
             [Sample.completion ("```json " +:+ "[" +:+ mid +:+ "]" +:+ " ```")] [] in
  let days := [mkDay 1 "Landmarks" [mkActivity "Morning" Sample.longText "Eiffel Tower"]] in
  generateItinerary (runtime := DemoRuntime.runtime) "Paris" 1 "sk-demo" 1 w
  = (Ok days, snd (requestCompletion (runtime := DemoRuntime.runtime) w))
  /\ journal (snd (requestCompletion (runtime := DemoRuntime.runtime) w))
     = journal w ++ [ModelInvoked].
Proof.
  intros mid w days.
  apply (wrapped_reply_is_accepted (runtime := DemoRuntime.runtime) "Paris" 1 "sk-demo" 1 w
           "```json " mid " ```"
           (snd (requestCompletion (runtime := DemoRuntime.runtime) w)) days);
    vm_compute; reflexivity.
Defined.

Lemma token_outage_leaves_job_untouched_witness :
  let w := snd (fetch (runtime := DemoRuntime.runtime) Sample.submission Sample.env
                  (Sample.world [Sample.granted "ya29.a"; Sample.refused 503 "unavailable"]
                     [Sample.completion Sample.oneDayReply] [])) in
  let w' := snd (runTask (runtime := DemoRuntime.runtime) Sample.task w) in
  fst (runTask (runtime := DemoRuntime.runtime) Sample.task w) = Ok tt
  /\ documents w' = documents w
  /\ exists es, journal w' = journal w ++ es
                /\ modelInvocations es = 0%nat /\ storeCalls es = 0%nat
                /\ (tokenRequests es <= 8)%nat.
Proof.
  intros w.
  apply (token_outage_leaves_job_untouched (runtime := DemoRuntime.runtime) Sample.task w).
  vm_compute. reflexivity.
Defined.
